(** * Blockbook RocksDB index (db/rocksdb.go): a shallow embedding

    The Go code of [db/rocksdb.go] is transcribed function by function.
    Conventions of the embedding:

    - a Go [[]byte] is a [list Z] whose elements are in [0, 256); a slice
      of a value read from the store has capacity equal to its length, so
      re-slicing past the length fails like re-slicing past the capacity;
    - [uint32], [int32], [uint] and [int] are [Z] with the wrap-around of
      each conversion and operation written out ([wrap32], [wrap64],
      [to_int32], [to_int64]);
    - [big.Int] is [Z]; [Bits] gives its magnitude as 64-bit words;
    - a function that can return an [error], or stop in a run-time panic
      (index out of range, slice bounds out of range, nil dereference),
      returns a [Res]: [Ok], [Err] or [Panic];
    - a Go map keyed by [string(bytes)] is a [gmap (list Z) _];
    - logging ([glog]) and the hit/miss counters ([connectBlockStats]) are
      left out: they do not influence any stored byte. *)

From Stdlib Require Import ZArith List Lia Bool.
From stdpp Require Import base option list gmap.
From coqutil Require Import Z.bitblast.

Local Open Scope Z_scope.

(** ** Go values *)

Definition len {A : Type} (l : list A) : Z := Z.of_nat (length l).

(** [uint32(x)] *)
Definition wrap32 (x : Z) : Z := x mod 2 ^ 32.
(** [uint(x)], [uint64(x)] on a 64-bit platform *)
Definition wrap64 (x : Z) : Z := x mod 2 ^ 64.
(** [int(x)], [int64(x)] *)
Definition to_int64 (x : Z) : Z := (x + 2 ^ 63) mod 2 ^ 64 - 2 ^ 63.
(** [int32(x)] *)
Definition to_int32 (x : Z) : Z := (x + 2 ^ 31) mod 2 ^ 32 - 2 ^ 31.
(** [byte(x)] *)
Definition to_byte (x : Z) : Z := x mod 256.

(** Errors returned through the [error] results of the package. *)
Inductive Error : Type :=
| ErrAddressMissing            (* bchain.ErrAddressMissing *)
| ErrTxidMissing               (* bchain.ErrTxidMissing *)
| ErrParser (code : Z)         (* any other error of the chain parser *)
| ErrStore                     (* an error reported by the store *)
| ErrDisconnectNotSupported    (* "DisconnectBlock is not supported for UTXO chains" *)
| ErrInconsistentBlockTxs      (* "Inconsistent data in blockTxs" *)
| ErrInconsistentNOutpoints    (* "Inconsistent data in unpackNOutpoints" *)
| ErrRebuildIndex (height : Z) (* "Cannot disconnect blocks with height %v and lower. ..." *)
| ErrInvalidAddressKey.        (* "Invalid address key" *)

(** Run-time panics of Go. *)
Inductive PanicKind : Type :=
| IndexOutOfRange
| SliceBoundsOutOfRange
| NilDereference.

(** The result of a call: a value, a returned error, a run-time panic, or
    a loop that never ends. *)
Inductive Res (A : Type) : Type :=
| Ok (a : A)
| Err (e : Error)
| Panic (k : PanicKind)
| Diverges.
Arguments Ok {A} a.
Arguments Err {A} e.
Arguments Panic {A} k.
Arguments Diverges {A}.

#[global] Instance Res_ret : MRet Res := fun A a => Ok a.
#[global] Instance Res_bind : MBind Res := fun A B f m =>
  match m with
  | Ok a => f a
  | Err e => Err e
  | Panic k => Panic k
  | Diverges => Diverges
  end.

Definition is_Ok {A : Type} (r : Res A) : bool :=
  match r with Ok _ => true | _ => false end.

(** [buf[i]] *)
Definition item {A : Type} (buf : list A) (i : Z) : Res A :=
  if (0 <=? i) && (i <? len buf) then
    match buf !! Z.to_nat i with
    | Some x => Ok x
    | None => Panic IndexOutOfRange
    end
  else Panic IndexOutOfRange.

(** [buf[i] = v] *)
Definition set_item {A : Type} (buf : list A) (i : Z) (v : A) : Res (list A) :=
  if (0 <=? i) && (i <? len buf) then Ok (<[Z.to_nat i := v]> buf)
  else Panic IndexOutOfRange.

(** [buf[lo:hi]] *)
Definition slice {A : Type} (buf : list A) (lo hi : Z) : Res (list A) :=
  if (0 <=? lo) && (lo <=? hi) && (hi <=? len buf)
  then Ok (take (Z.to_nat (hi - lo)) (drop (Z.to_nat lo) buf))
  else Panic SliceBoundsOutOfRange.

(** [buf[lo:]] *)
Definition slice_from {A : Type} (buf : list A) (lo : Z) : Res (list A) :=
  slice buf lo (len buf).

(** [buf[:hi]] *)
Definition slice_to {A : Type} (buf : list A) (hi : Z) : Res (list A) :=
  slice buf 0 hi.

(** [make([]byte, n)] *)
Definition make_bytes (n : Z) : list Z := replicate (Z.to_nat n) 0.

(** ** Package vlq (github.com/bsm/go-vlq) *)

Module vlq.

Definition MaxLen32 : Z := 5.
Definition MaxLen64 : Z := 10.

(** Modelled from the spec: [vlq.PutUint] of the external package
    github.com/bsm/go-vlq, which is not among the sources. The spec gives
    the layout: little-endian base 128, seven bits per byte, the high bit
    of a byte says that another byte follows, at most ten bytes for a
    64-bit value. The bytes are written into [buf] from index 0 and the
    number of bytes written is returned; a buffer that is too small
    panics. A 64-bit value shifted right by 7 nine times is below 128, so
    nine continuation bytes are the most the loop can write. *)
Fixpoint PutUint_loop (n : nat) (buf : list Z) (i x : Z) : Res (list Z * Z) :=
  match n with
  | S k =>
      if 128 <=? x then
        buf' ← set_item buf i (Z.lor (to_byte x) 128);
        PutUint_loop k buf' (i + 1) (Z.shiftr x 7)
      else
        buf' ← set_item buf i (to_byte x);
        Ok (buf', i + 1)
  | O =>
      buf' ← set_item buf i (to_byte x);
      Ok (buf', i + 1)
  end.

Definition PutUint (buf : list Z) (x : Z) : Res (list Z * Z) :=
  PutUint_loop 9 buf 0 (wrap64 x).

(** Modelled from the spec: [vlq.Uint], the decoder of the same layout.
    It returns the value and the number of bytes read; when the buffer
    holds no terminated value of at most ten bytes (for a 64-bit result)
    the value is 0 and no byte is read. *)
Fixpoint Uint_loop (buf : list Z) (i x s : Z) : Z * Z :=
  match buf with
  | [] => (0, 0)
  | b :: rest =>
      if b <? 128 then
        if (9 <? i) || ((i =? 9) && (1 <? b)) then (0, 0)
        else (Z.lor x (wrap64 (Z.shiftl b s)), i + 1)
      else
        Uint_loop rest (i + 1) (Z.lor x (wrap64 (Z.shiftl (Z.land b 127) s))) (s + 7)
  end.

Definition Uint (buf : list Z) : Z * Z := Uint_loop buf 0 0 0.

(** Modelled from the spec: [vlq.PutInt], "zig-zag pre-encoding followed
    by varuint": [ux := uint64(x) << 1; if x < 0 { ux = ^ux }]. *)
Definition PutInt (buf : list Z) (x : Z) : Res (list Z * Z) :=
  let ux := wrap64 (Z.shiftl (wrap64 x) 1) in
  let ux := if x <? 0 then wrap64 (Z.lnot ux) else ux in
  PutUint buf ux.

(** Modelled from the spec: [vlq.Int], the inverse of the zig-zag step
    applied to the decoded varuint. *)
Definition Int (buf : list Z) : Z * Z :=
  let '(ux, n) := Uint buf in
  let x := to_int64 (Z.shiftr ux 1) in
  (if Z.odd ux then Z.lnot x else x, n).

End vlq.

(** ** Helpers of rocksdb.go: the codecs *)

Definition packedHeightBytes : Z := 4.
Definition dbVersion : Z := 3.
Definition maxAddrDescLen : Z := 1024.

(** [binary.BigEndian.PutUint32] into a fresh 4-byte buffer. *)
Definition packUint (i : Z) : list Z :=
  [to_byte (Z.shiftr i 24); to_byte (Z.shiftr i 16); to_byte (Z.shiftr i 8); to_byte i].

(** [binary.BigEndian.Uint32(buf)]: panics when [buf] has fewer than four
    bytes. *)
Definition unpackUint (buf : list Z) : Res Z :=
  b3 ← item buf 3;
  b0 ← item buf 0;
  b1 ← item buf 1;
  b2 ← item buf 2;
  Ok (Z.lor (Z.lor (Z.lor b3 (Z.shiftl b2 8)) (Z.shiftl b1 16)) (Z.shiftl b0 24)).

Definition packAddressKey (addrDesc : list Z) (height : Z) : list Z :=
  let bheight := packUint height in
  addrDesc ++ bheight.

Definition unpackAddressKey (key : list Z) : Res (list Z * Z) :=
  let i := len key - packedHeightBytes in
  if i <=? 0 then Err ErrInvalidAddressKey
  else
    a ← slice_to key i;
    hb ← slice key i (i + packedHeightBytes);
    h ← unpackUint hb;
    Ok (a, h).

Definition packVarint32 (i : Z) (buf : list Z) : Res (list Z * Z) :=
  vlq.PutInt buf (to_int64 i).

Definition packVarint (i : Z) (buf : list Z) : Res (list Z * Z) :=
  vlq.PutInt buf (to_int64 i).

Definition packVaruint (i : Z) (buf : list Z) : Res (list Z * Z) :=
  vlq.PutUint buf (wrap64 i).

Definition unpackVarint32 (buf : list Z) : Z * Z :=
  let '(i, ofs) := vlq.Int buf in (to_int32 i, ofs).

Definition unpackVarint (buf : list Z) : Z * Z :=
  let '(i, ofs) := vlq.Int buf in (to_int64 i, ofs).

Definition unpackVaruint (buf : list Z) : Z * Z :=
  let '(i, ofs) := vlq.Uint buf in (wrap64 i, ofs).

(** *** Packed big integers *)

(** [wordBits = 32 << (uint64(^big.Word(0)) >> 63)] on a 64-bit platform. *)
Definition wordBits : Z := 64.
Definition wordBytes : Z := wordBits / 8.
Definition maxPackedBigintWords : Z := (256 - wordBytes) / wordBytes.
Definition maxPackedBigintBytes : Z := 249.

(** [bi.Bits()]: the magnitude of [bi] as little-endian 64-bit words with
    no leading zero word (the empty list for zero). *)
Fixpoint words_of (fuel : nat) (n : Z) : list Z :=
  match fuel with
  | O => []
  | S f => if n =? 0 then [] else (n mod 2 ^ wordBits) :: words_of f (n / 2 ^ wordBits)
  end.

Definition Bits (bi : Z) : list Z :=
  let n := Z.abs bi in words_of (S (Z.to_nat (Z.log2 n))) n.

(** The value of a list of words, least significant first. *)
Fixpoint words_value (w : list Z) : Z :=
  match w with
  | [] => 0
  | d :: rest => d + 2 ^ wordBits * words_value rest
  end.

(** [r.SetBytes(b)]: the big-endian value of a byte string. *)
Definition SetBytes (b : list Z) : Z := fold_left (fun acc x => acc * 256 + x) b 0.

(** [for w0&mask == 0 { fb--; mask >>= 8 }]: after eight shifts the mask
    is zero and the condition stays true for ever. *)
Fixpoint skip_leading_zeros (fuel : nat) (w0 fb mask : Z) : option Z :=
  if Z.land w0 mask =? 0 then
    match fuel with
    | O => None
    | S f => skip_leading_zeros f w0 (fb - 1) (Z.shiftr mask 8)
    end
  else Some fb.

(** [for i := hi; i > lo; i-- { buf[i] = byte(d); d >>= 8 }], with
    [n = hi - lo] rounds. *)
Fixpoint put_word_bytes (n : nat) (buf : list Z) (i d : Z) : Res (list Z) :=
  match n with
  | O => Ok buf
  | S k =>
      buf' ← set_item buf i (to_byte d);
      put_word_bytes k buf' (i - 1) (Z.shiftr d 8)
  end.

(** [for j := lw - 2; j >= s; j-- { ...; fb += wordBytes }], with
    [n = lw - 1 - s] rounds. *)
Fixpoint pack_rest_words (n : nat) (w : list Z) (j fb : Z) (buf : list Z) : Res (list Z * Z) :=
  match n with
  | O => Ok (buf, fb)
  | S k =>
      d ← item w j;
      buf' ← put_word_bytes (Z.to_nat wordBytes) buf (fb + wordBytes) d;
      pack_rest_words k w (j - 1) (fb + wordBytes) buf'
  end.

Definition packBigint (bi : Z) (buf : list Z) : Res (list Z * Z) :=
  let w := Bits bi in
  let lw := len w in
  if lw =? 0 then
    buf ← set_item buf 0 0;
    Ok (buf, 1)
  else
    w0 ← item w (lw - 1);
    match skip_leading_zeros 8 w0 8 (Z.shiftl 255 (wordBits - 8)) with
    | None => Diverges
    | Some fb =>
        buf ← put_word_bytes (Z.to_nat fb) buf fb w0;
        let s := if maxPackedBigintWords <? lw then lw - maxPackedBigintWords else 0 in
        '(buf, fb) ← pack_rest_words (Z.to_nat (lw - 1 - s)) w (lw - 2) fb buf;
        buf ← set_item buf 0 (to_byte fb);
        Ok (buf, fb + 1)
    end.

Definition unpackBigint (buf : list Z) : Res (Z * Z) :=
  b0 ← item buf 0;
  let l := b0 + 1 in
  m ← slice buf 1 l;
  Ok (SetBytes m, l).

(** ** Package bchain: blocks and the chain parser *)

Module bchain.

(** Modelled from the spec: the input of a transaction ([bchain.Vin]; the
    package bchain is not among the sources): the referenced txid and
    output number and, on account-model chains, a list of addresses. *)
Record Vin : Type := mkVin {
  Vin_Txid : list Z;
  Vin_Vout : Z;
  Vin_Addresses : list (list Z) }.

(** Modelled from the spec: the output of a transaction ([bchain.Vout]):
    its value, its number N, and the script the parser turns into an
    address descriptor. *)
Record Vout : Type := mkVout {
  Vout_ValueSat : Z;
  Vout_N : Z;
  Vout_Script : list Z }.

(** Modelled from the spec: a transaction ([bchain.Tx]). *)
Record Tx : Type := mkTx {
  Tx_Txid : list Z;
  Tx_Vin : list Vin;
  Tx_Vout : list Vout }.

(** Modelled from the spec: a block ([bchain.Block]): height (u32), hash,
    time (i64), size and the ordered list of transactions. *)
Record Block : Type := mkBlock {
  Block_Height : Z;
  Block_Hash : list Z;
  Block_Time : Z;
  Block_Size : Z;
  Block_Txs : list Tx }.

(** Modelled from the spec: the methods of the interface
    [bchain.BlockChainParser] that rocksdb.go calls. A method that
    returns [(value, error)] returns a [Res]. *)
Class BlockChainParser : Type := {
  PackTxid : list Z -> Res (list Z);
  PackedTxidLen : Z;
  PackBlockHash : list Z -> Res (list Z);
  IsUTXOChain : bool;
  KeepBlockAddresses : Z;
  GetAddrDescFromVout : Vout -> Res (list Z);
  GetAddrDescFromAddress : list Z -> Res (list Z) }.

End bchain.

(** ** The structs of rocksdb.go *)

Module outpoint.
Record t : Type := mk { btxID : list Z; index : Z }.
End outpoint.

Module TxInput.
Record t : Type := mk { AddrDesc : list Z; ValueSat : Z }.
Definition zero : t := mk [] 0.
End TxInput.

Module TxOutput.
Record t : Type := mk { AddrDesc : list Z; Spent : bool; ValueSat : Z }.
Definition zero : t := mk [] false 0.
End TxOutput.

Module TxAddresses.
Record t : Type := mk { Height : Z; Inputs : list TxInput.t; Outputs : list TxOutput.t }.
End TxAddresses.

Module AddrBalance.
Record t : Type := mk { Txs : Z; SentSat : Z; BalanceSat : Z }.
Definition zero : t := mk 0 0 0.
End AddrBalance.

Module blockTxs.
Record t : Type := mk { btxID : list Z; inputs : list outpoint.t }.
End blockTxs.

Module BlockInfo.
Record t : Type := mk { Hash : list Z; Time : Z; Txs : Z; Size : Z; Height : Z }.
End BlockInfo.

(** ** The store: column families, reads, direct writes and write batches *)

Inductive Column : Type :=
| cfDefault
| cfHeight
| cfAddresses
| cfTxAddresses
| cfAddressBalance
| cfBlockTxs
| cfTransactions.

#[global] Instance Column_eq_dec : EqDecision Column.
Proof. solve_decision. Defined.

(** The contents of the seven column families. *)
Definition Columns : Type := Column -> gmap (list Z) (list Z).

(** The gorocksdb handle [d.db]: the stored columns, and which calls the
    store answers with an error ([read_fails] for [GetCF], [write_fails]
    for [Write]). *)
Record Store : Type := mkStore {
  cols : Columns;
  read_fails : Column -> list Z -> bool;
  write_fails : bool }.

(** [d.db.GetCF(d.ro, d.cfh[cf], key)], then [val.Data()]: the empty
    slice for a key that is not stored. *)
Definition GetCF (db : Store) (cf : Column) (key : list Z) : Res (list Z) :=
  if read_fails db cf key then Err ErrStore
  else Ok (default [] (cols db cf !! key)).

Definition cols_put (c : Columns) (cf : Column) (key value : list Z) : Columns :=
  fun cf' => if decide (cf' = cf) then <[key := value]> (c cf') else c cf'.

Definition cols_delete (c : Columns) (cf : Column) (key : list Z) : Columns :=
  fun cf' => if decide (cf' = cf) then delete key (c cf') else c cf'.

(** [d.db.DeleteCF(d.wo, d.cfh[cf], key)]: a delete applied to the store
    at once, outside any batch. *)
Definition DeleteCF (db : Store) (cf : Column) (key : list Z) : Store :=
  mkStore (cols_delete (cols db) cf key) (read_fails db) (write_fails db).

Inductive BatchOp : Type :=
| BatchPut (cf : Column) (key value : list Z)
| BatchDelete (cf : Column) (key : list Z).

(** [gorocksdb.WriteBatch]: the operations in the order they were added. *)
Definition WriteBatch : Type := list BatchOp.

Definition wb_PutCF (wb : WriteBatch) (cf : Column) (key value : list Z) : WriteBatch :=
  wb ++ [BatchPut cf key value].

Definition wb_DeleteCF (wb : WriteBatch) (cf : Column) (key : list Z) : WriteBatch :=
  wb ++ [BatchDelete cf key].

Definition apply_op (c : Columns) (op : BatchOp) : Columns :=
  match op with
  | BatchPut cf key value => cols_put c cf key value
  | BatchDelete cf key => cols_delete c cf key
  end.

(** [d.db.Write(d.wo, wb)]: all operations of the batch, or none and an
    error. *)
Definition db_Write (db : Store) (wb : WriteBatch) : Store * Res unit :=
  if write_fails db then (db, Err ErrStore)
  else (mkStore (fold_left apply_op wb (cols db)) (read_fails db) (write_fails db), Ok tt).

(** The handle [*RocksDB]: the store and the best height kept in the
    internal state [d.is]. *)
Record RocksDB : Type := mkRocksDB {
  db : Store;
  is_BestHeight : Z }.

Definition opInsert : Z := 0.
Definition opDelete : Z := 1.

(** [valueSat.SetInt64(0)] of [resetValueSatToZero]. *)
Definition resetValueSatToZero (valueSat : Z) : Z := 0.

(** [for _, op := range o { if bytes.Equal(btxID, op.btxID) { return true } }] *)
Fixpoint processedInTx (o : list outpoint.t) (btxID : list Z) : bool :=
  match o with
  | [] => false
  | op :: rest =>
      if bool_decide (btxID = outpoint.btxID op) then true
      else processedInTx rest btxID
  end.

(** ** Packing and unpacking of the stored values *)

Definition appendTxInput (txi : TxInput.t) (buf varBuf : list Z) : Res (list Z * list Z) :=
  let la := len (TxInput.AddrDesc txi) in
  '(varBuf, l) ← packVaruint la varBuf;
  v ← slice_to varBuf l;
  let buf := buf ++ v in
  let buf := buf ++ TxInput.AddrDesc txi in
  '(varBuf, l) ← packBigint (TxInput.ValueSat txi) varBuf;
  v ← slice_to varBuf l;
  Ok (buf ++ v, varBuf).

Definition appendTxOutput (txo : TxOutput.t) (buf varBuf : list Z) : Res (list Z * list Z) :=
  let la := len (TxOutput.AddrDesc txo) in
  let la := if TxOutput.Spent txo then Z.lnot la else la in
  '(varBuf, l) ← packVarint la varBuf;
  v ← slice_to varBuf l;
  let buf := buf ++ v in
  let buf := buf ++ TxOutput.AddrDesc txo in
  '(varBuf, l) ← packBigint (TxOutput.ValueSat txo) varBuf;
  v ← slice_to varBuf l;
  Ok (buf ++ v, varBuf).

Fixpoint appendTxInputs (l : list TxInput.t) (buf varBuf : list Z) : Res (list Z * list Z) :=
  match l with
  | [] => Ok (buf, varBuf)
  | txi :: rest =>
      '(buf, varBuf) ← appendTxInput txi buf varBuf;
      appendTxInputs rest buf varBuf
  end.

Fixpoint appendTxOutputs (l : list TxOutput.t) (buf varBuf : list Z) : Res (list Z * list Z) :=
  match l with
  | [] => Ok (buf, varBuf)
  | txo :: rest =>
      '(buf, varBuf) ← appendTxOutput txo buf varBuf;
      appendTxOutputs rest buf varBuf
  end.

(** [packTxAddresses(ta, buf, varBuf)]: the packed record (built from
    [buf[:0]]) and the scratch buffer as the call leaves it. *)
Definition packTxAddresses (ta : TxAddresses.t) (varBuf : list Z) : Res (list Z * list Z) :=
  let buf := [] in
  '(varBuf, l) ← packVaruint (TxAddresses.Height ta) varBuf;
  v ← slice_to varBuf l;
  let buf := buf ++ v in
  '(varBuf, l) ← packVaruint (len (TxAddresses.Inputs ta)) varBuf;
  v ← slice_to varBuf l;
  let buf := buf ++ v in
  '(buf, varBuf) ← appendTxInputs (TxAddresses.Inputs ta) buf varBuf;
  '(varBuf, l) ← packVaruint (len (TxAddresses.Outputs ta)) varBuf;
  v ← slice_to varBuf l;
  let buf := buf ++ v in
  appendTxOutputs (TxAddresses.Outputs ta) buf varBuf.

(** [unpackTxInput(ti, buf)]: the input read and the number of bytes it
    took. [copy(ti.AddrDesc, buf[l:l+int(al)])] fills the whole of the
    new [AddrDesc] whenever the slice expression does not panic. *)
Definition unpackTxInput (buf : list Z) : Res (TxInput.t * Z) :=
  let '(al, l) := unpackVaruint buf in
  a ← slice buf l (l + to_int64 al);
  let al := wrap64 (al + wrap64 l) in
  b ← slice_from buf al;
  '(v, l) ← unpackBigint b;
  Ok (TxInput.mk a v, l + to_int64 al).

Definition unpackTxOutput (buf : list Z) : Res (TxOutput.t * Z) :=
  let '(al, l) := unpackVarint buf in
  let spent := al <? 0 in
  let al := if al <? 0 then Z.lnot al else al in
  a ← slice buf l (l + al);
  let al := al + l in
  b ← slice_from buf al;
  '(v, l) ← unpackBigint b;
  Ok (TxOutput.mk a spent v, l + al).

(** [for i := uint(0); i < inputs; i++ { l += unpackTxInput(&ta.Inputs[i], buf[l:]) }] *)
Fixpoint unpackTxInputs (n : nat) (buf : list Z) (l : Z) : Res (list TxInput.t * Z) :=
  match n with
  | O => Ok ([], l)
  | S k =>
      b ← slice_from buf l;
      '(ti, used) ← unpackTxInput b;
      '(rest, l') ← unpackTxInputs k buf (l + used);
      Ok (ti :: rest, l')
  end.

Fixpoint unpackTxOutputs (n : nat) (buf : list Z) (l : Z) : Res (list TxOutput.t * Z) :=
  match n with
  | O => Ok ([], l)
  | S k =>
      b ← slice_from buf l;
      '(to, used) ← unpackTxOutput b;
      '(rest, l') ← unpackTxOutputs k buf (l + used);
      Ok (to :: rest, l')
  end.

Definition unpackTxAddresses (buf : list Z) : Res TxAddresses.t :=
  let '(height, l) := unpackVaruint buf in
  b ← slice_from buf l;
  let '(inputs, ll) := unpackVaruint b in
  let l := l + ll in
  '(ins, l) ← unpackTxInputs (Z.to_nat inputs) buf l;
  b ← slice_from buf l;
  let '(outputs, ll) := unpackVaruint b in
  let l := l + ll in
  '(outs, l) ← unpackTxOutputs (Z.to_nat outputs) buf l;
  Ok (TxAddresses.mk (wrap32 height) ins outs).
(** ** The methods of [*RocksDB] *)

Section Methods.

Context {chainParser : bchain.BlockChainParser}.

(** [packOutpoints]: [bvout] is the scratch buffer of [vlq.MaxLen32] bytes. *)
Fixpoint packOutpoints_loop (outpoints : list outpoint.t) (buf bvout : list Z) : Res (list Z) :=
  match outpoints with
  | [] => Ok buf
  | o :: rest =>
      '(bvout, l) ← packVarint32 (outpoint.index o) bvout;
      v ← slice_to bvout l;
      let buf := buf ++ outpoint.btxID o in
      let buf := buf ++ v in
      packOutpoints_loop rest buf bvout
  end.

Definition packOutpoints (outpoints : list outpoint.t) : Res (list Z) :=
  packOutpoints_loop outpoints [] (make_bytes vlq.MaxLen32).

(** The loop of [unpackNOutpoints], [n] rounds from position [p]. *)
Fixpoint unpackNOutpoints_loop (n : nat) (buf : list Z) (p : Z) : Res (list outpoint.t * Z) :=
  match n with
  | O => Ok ([], p)
  | S k =>
      let txidUnpackedLen := bchain.PackedTxidLen in
      if len buf <=? p + txidUnpackedLen then Err ErrInconsistentNOutpoints
      else
        btxID ← slice buf p (p + txidUnpackedLen);
        let p := p + txidUnpackedLen in
        b ← slice_from buf p;
        let '(vout, voutLen) := unpackVarint32 b in
        let p := p + voutLen in
        '(rest, p') ← unpackNOutpoints_loop k buf p;
        Ok (outpoint.mk btxID vout :: rest, p')
  end.

Definition unpackNOutpoints (buf : list Z) : Res (list outpoint.t * Z) :=
  let '(n, p) := unpackVaruint buf in
  unpackNOutpoints_loop (Z.to_nat n) buf p.

(** The loop [for i := 0; i < len(buf); { ... }] of [getBlockTxs]. Each
    round that does not return moves [i] forward by [pl + ol]; [fuel]
    bounds the rounds, and a loop that outlives it makes no progress. *)
Fixpoint getBlockTxs_loop (fuel : nat) (buf : list Z) (i : Z) (bt : list blockTxs.t) : Res (list blockTxs.t) :=
  if i <? len buf then
    match fuel with
    | O => Diverges
    | S f =>
        let pl := bchain.PackedTxidLen in
        if len buf - i <? pl then Err ErrInconsistentBlockTxs
        else
          b ← slice_from buf i;
          let txid := take (Z.to_nat pl) b in
          let i := i + pl in
          b ← slice_from buf i;
          match unpackNOutpoints b with
          | Ok (o, ol) => getBlockTxs_loop f buf (i + ol) (bt ++ [blockTxs.mk txid o])
          | Err _ => Err ErrInconsistentBlockTxs
          | Panic k => Panic k
          | Diverges => Diverges
          end
    end
  else Ok bt.

Definition getBlockTxs (d : Store) (height : Z) : Res (list blockTxs.t) :=
  buf ← GetCF d cfBlockTxs (packUint height);
  getBlockTxs_loop (S (length buf)) buf 0 [].

Definition GetAddrDescBalance (d : Store) (addrDesc : list Z) : Res (option AddrBalance.t) :=
  buf ← GetCF d cfAddressBalance addrDesc;
  if len buf <? 3 then Ok None
  else
    let '(txs, l) := unpackVaruint buf in
    b ← slice_from buf l;
    '(sentSat, sl) ← unpackBigint b;
    b ← slice_from buf (l + sl);
    '(balanceSat, _) ← unpackBigint b;
    Ok (Some (AddrBalance.mk (wrap32 txs) sentSat balanceSat)).

Definition getTxAddresses (d : Store) (btxID : list Z) : Res (option TxAddresses.t) :=
  buf ← GetCF d cfTxAddresses btxID;
  if len buf <? 3 then Ok None
  else
    ta ← unpackTxAddresses buf;
    Ok (Some ta).

(** *** Connecting a block of a UTXO chain *)

(** The working maps of [writeBlock]. [txAddressesMap] and
    [blockTxAddresses] hold pointers to [TxAddresses] objects: a pointer
    is a position in [heap]. The balances are pointers too, but every key
    has an object of its own, so the map holds the objects. *)
Record ConnectState : Type := mkCS {
  addresses : gmap (list Z) (list outpoint.t);
  txAddressesMap : gmap (list Z) nat;
  heap : list TxAddresses.t;
  balances : gmap (list Z) AddrBalance.t }.

Definition set_heap (st : ConnectState) (h : list TxAddresses.t) : ConnectState :=
  mkCS (addresses st) (txAddressesMap st) h (balances st).

(** The object behind [ptr] is replaced by [f] of it. *)
Definition heap_update (h : list TxAddresses.t) (ptr : nat)
    (f : TxAddresses.t -> Res TxAddresses.t) : Res (list TxAddresses.t) :=
  match h !! ptr with
  | Some ta => ta' ← f ta; Ok (<[ptr := ta']> h)
  | None => Panic NilDereference
  end.

Definition heap_get (h : list TxAddresses.t) (ptr : nat) : Res TxAddresses.t :=
  match h !! ptr with
  | Some ta => Ok ta
  | None => Panic NilDereference
  end.

(** [ta.Outputs[i] = f(ta.Outputs[i])] *)
Definition update_output (i : Z) (f : TxOutput.t -> TxOutput.t) (ta : TxAddresses.t) : Res TxAddresses.t :=
  tao ← item (TxAddresses.Outputs ta) i;
  outs ← set_item (TxAddresses.Outputs ta) i (f tao);
  Ok (TxAddresses.mk (TxAddresses.Height ta) (TxAddresses.Inputs ta) outs).

(** [ta.Inputs[i] = v] *)
Definition update_input (i : Z) (v : TxInput.t) (ta : TxAddresses.t) : Res TxAddresses.t :=
  ins ← set_item (TxAddresses.Inputs ta) i v;
  Ok (TxAddresses.mk (TxAddresses.Height ta) ins (TxAddresses.Outputs ta)).

(** [ab, e := balances[strAddrDesc]; if !e { ab, err = d.GetAddrDescBalance(addrDesc); ...;
    if ab == nil { ab = &AddrBalance{} } }] *)
Definition loadBalance (d : Store) (balances : gmap (list Z) AddrBalance.t) (addrDesc : list Z) : Res AddrBalance.t :=
  match balances !! addrDesc with
  | Some ab => Ok ab
  | None =>
      ab ← GetAddrDescBalance d addrDesc;
      Ok (default AddrBalance.zero ab)
  end.

(** One round of [for i, output := range tx.Vout] in the first loop of
    [processAddressesUTXO]; [ta] points to the record of the transaction. *)
Definition processOutput (d : Store) (btxID : list Z) (ta : nat) (st : ConnectState)
    (i : Z) (output : bchain.Vout) : Res ConnectState :=
  h ← heap_update (heap st) ta
        (update_output i (fun tao =>
           TxOutput.mk (TxOutput.AddrDesc tao) (TxOutput.Spent tao) (bchain.Vout_ValueSat output)));
  let st := set_heap st h in
  match bchain.GetAddrDescFromVout output with
  | Panic k => Panic k
  | Diverges => Diverges
  | Err _ => Ok st
  | Ok addrDesc =>
      if (len addrDesc =? 0) || (maxAddrDescLen <? len addrDesc) then Ok st
      else
        h ← heap_update (heap st) ta
              (update_output i (fun tao =>
                 TxOutput.mk addrDesc (TxOutput.Spent tao) (TxOutput.ValueSat tao)));
        let o := addresses st !! addrDesc in
        let processed :=
          match o with
          | Some o => processedInTx o btxID
          | None => false
          end in
        let addresses' :=
          <[addrDesc := default [] o ++ [outpoint.mk btxID (to_int32 i)]]> (addresses st) in
        ab ← loadBalance d (balances st) addrDesc;
        let txs := if processed then AddrBalance.Txs ab else wrap32 (AddrBalance.Txs ab + 1) in
        let ab := AddrBalance.mk txs (AddrBalance.SentSat ab)
                    (AddrBalance.BalanceSat ab + bchain.Vout_ValueSat output) in
        Ok (mkCS addresses' (txAddressesMap st) h (<[addrDesc := ab]> (balances st)))
  end.

Fixpoint processOutputs (d : Store) (btxID : list Z) (ta : nat) (st : ConnectState)
    (i : Z) (outputs : list bchain.Vout) : Res ConnectState :=
  match outputs with
  | [] => Ok st
  | output :: rest =>
      st ← processOutput d btxID ta st i output;
      processOutputs d btxID ta st (i + 1) rest
  end.

(** One round of the first loop [for txi := range block.Txs]: the packed
    txid and the pointer that go to [blockTxIDs[txi]] and
    [blockTxAddresses[txi]] are returned with the state. *)
Definition processTxOutputs (d : Store) (height : Z) (st : ConnectState) (tx : bchain.Tx)
    : Res (ConnectState * (list Z * nat)) :=
  btxID ← bchain.PackTxid (bchain.Tx_Txid tx);
  let ta := TxAddresses.mk height [] (replicate (length (bchain.Tx_Vout tx)) TxOutput.zero) in
  let ptr := length (heap st) in
  let st := mkCS (addresses st) (<[btxID := ptr]> (txAddressesMap st)) (heap st ++ [ta]) (balances st) in
  st ← processOutputs d btxID ptr st 0 (bchain.Tx_Vout tx);
  Ok (st, (btxID, ptr)).

Fixpoint processBlockOutputs (d : Store) (height : Z) (st : ConnectState) (txs : list bchain.Tx)
    : Res (ConnectState * list (list Z * nat)) :=
  match txs with
  | [] => Ok (st, [])
  | tx :: rest =>
      '(st, id) ← processTxOutputs d height st tx;
      '(st, ids) ← processBlockOutputs d height st rest;
      Ok (st, id :: ids)
  end.

(** [ita, e := txAddressesMap[stxID]; if !e { ita, err = d.getTxAddresses(btxID); ... }]:
    [None] when the referenced transaction is in neither place. *)
Definition loadTxAddresses (d : Store) (st : ConnectState) (btxID : list Z) : Res (option (nat * ConnectState)) :=
  match txAddressesMap st !! btxID with
  | Some ita => Ok (Some (ita, st))
  | None =>
      o ← getTxAddresses d btxID;
      match o with
      | None => Ok None
      | Some t =>
          let ita := length (heap st) in
          Ok (Some (ita, mkCS (addresses st) (<[btxID := ita]> (txAddressesMap st))
                              (heap st ++ [t]) (balances st)))
      end
  end.

(** One round of [for i, input := range tx.Vin] in the second loop. *)
Definition processInput (d : Store) (spendingTxid : list Z) (ta : nat) (st : ConnectState)
    (i : Z) (input : bchain.Vin) : Res ConnectState :=
  match bchain.PackTxid (bchain.Vin_Txid input) with
  | Panic k => Panic k
  | Diverges => Diverges
  | Err ErrTxidMissing => Ok st
  | Err e => Err e
  | Ok btxID =>
      r ← loadTxAddresses d st btxID;
      match r with
      | None => Ok st
      | Some (ita, st) =>
          t ← heap_get (heap st) ita;
          if len (TxAddresses.Outputs t) <=? bchain.Vin_Vout input then Ok st
          else
            ot ← item (TxAddresses.Outputs t) (bchain.Vin_Vout input);
            h ← heap_update (heap st) ta
                  (update_input i (TxInput.mk (TxOutput.AddrDesc ot) (TxOutput.ValueSat ot)));
            h ← heap_update h ita
                  (update_output (bchain.Vin_Vout input) (fun o =>
                     TxOutput.mk (TxOutput.AddrDesc o) true (TxOutput.ValueSat o)));
            let st := set_heap st h in
            if len (TxOutput.AddrDesc ot) =? 0 then Ok st
            else
              let addrDesc := TxOutput.AddrDesc ot in
              let o := addresses st !! addrDesc in
              let processed :=
                match o with
                | Some o => processedInTx o spendingTxid
                | None => false
                end in
              let addresses' :=
                <[addrDesc := default [] o ++ [outpoint.mk spendingTxid (Z.lnot (to_int32 i))]]>
                  (addresses st) in
              ab ← loadBalance d (balances st) addrDesc;
              let txs := if processed then AddrBalance.Txs ab else wrap32 (AddrBalance.Txs ab + 1) in
              let balanceSat := AddrBalance.BalanceSat ab - TxOutput.ValueSat ot in
              let balanceSat := if balanceSat <? 0 then resetValueSatToZero balanceSat else balanceSat in
              let sentSat := AddrBalance.SentSat ab + TxOutput.ValueSat ot in
              let ab := AddrBalance.mk txs sentSat balanceSat in
              Ok (mkCS addresses' (txAddressesMap st) h (<[addrDesc := ab]> (balances st)))
      end
  end.

Fixpoint processInputs (d : Store) (spendingTxid : list Z) (ta : nat) (st : ConnectState)
    (i : Z) (inputs : list bchain.Vin) : Res ConnectState :=
  match inputs with
  | [] => Ok st
  | input :: rest =>
      st ← processInput d spendingTxid ta st i input;
      processInputs d spendingTxid ta st (i + 1) rest
  end.

(** One round of the second loop [for txi := range block.Txs]. *)
Definition processTxInputs (d : Store) (st : ConnectState) (tx : bchain.Tx) (id : list Z * nat)
    : Res ConnectState :=
  let spendingTxid := fst id in
  let ta := snd id in
  h ← heap_update (heap st) ta (fun t =>
        Ok (TxAddresses.mk (TxAddresses.Height t)
              (replicate (length (bchain.Tx_Vin tx)) TxInput.zero) (TxAddresses.Outputs t)));
  processInputs d spendingTxid ta (set_heap st h) 0 (bchain.Tx_Vin tx).

Fixpoint processBlockInputs (d : Store) (st : ConnectState) (txs : list bchain.Tx)
    (ids : list (list Z * nat)) : Res ConnectState :=
  match txs with
  | [] => Ok st
  | tx :: rest =>
      id ← item ids 0;
      st ← processTxInputs d st tx id;
      processBlockInputs d st rest (tl ids)
  end.

(** [processAddressesUTXO(block, addresses, txAddressesMap, balances)]:
    the three maps come in and go out in the state. *)
Definition processAddressesUTXO (d : Store) (block : bchain.Block) (st : ConnectState) : Res ConnectState :=
  (* first process all outputs so that inputs can point to txs in this block *)
  '(st, ids) ← processBlockOutputs d (bchain.Block_Height block) st (bchain.Block_Txs block);
  (* process inputs *)
  processBlockInputs d st (bchain.Block_Txs block) ids.

(** *** Writing the working maps into the batch *)

(** [for addrDesc, outpoints := range addresses]: the keys are pairwise
    different, so the order in which the map is walked does not change
    what the batch does to the store. *)
Fixpoint storeAddresses_loop (wb : WriteBatch) (height : Z)
    (l : list (list Z * list outpoint.t)) : Res WriteBatch :=
  match l with
  | [] => Ok wb
  | (addrDesc, outpoints) :: rest =>
      let key := packAddressKey addrDesc height in
      val ← packOutpoints outpoints;
      storeAddresses_loop (wb_PutCF wb cfAddresses key val) height rest
  end.

Definition storeAddresses (wb : WriteBatch) (height : Z)
    (addresses : gmap (list Z) (list outpoint.t)) : Res WriteBatch :=
  storeAddresses_loop wb height (map_to_list addresses).

Fixpoint storeTxAddresses_loop (wb : WriteBatch) (l : list (list Z * TxAddresses.t))
    (varBuf : list Z) : Res WriteBatch :=
  match l with
  | [] => Ok wb
  | (txID, ta) :: rest =>
      '(buf, varBuf) ← packTxAddresses ta varBuf;
      storeTxAddresses_loop (wb_PutCF wb cfTxAddresses txID buf) rest varBuf
  end.

Definition storeTxAddresses (wb : WriteBatch) (am : gmap (list Z) TxAddresses.t) : Res WriteBatch :=
  storeTxAddresses_loop wb (map_to_list am) (make_bytes maxPackedBigintBytes).

(** [pack(x, buf[l:])]: the bytes go into [buf] from position [l]. *)
Definition pack_at (pack : list Z -> Res (list Z * Z)) (buf : list Z) (l : Z) : Res (list Z * Z) :=
  b ← slice_from buf l;
  '(b', ll) ← pack b;
  Ok (take (Z.to_nat l) buf ++ b', ll).

(** A [nil] pointer in the map is [None]. *)
Fixpoint storeBalances_loop (wb : WriteBatch) (l : list (list Z * option AddrBalance.t))
    (buf : list Z) : Res WriteBatch :=
  match l with
  | [] => Ok wb
  | (addrDesc, ab) :: rest =>
      match ab with
      | Some ab =>
          if AddrBalance.Txs ab <=? 0 then
            storeBalances_loop (wb_DeleteCF wb cfAddressBalance addrDesc) rest buf
          else
            '(buf, l) ← packVaruint (AddrBalance.Txs ab) buf;
            '(buf, ll) ← pack_at (packBigint (AddrBalance.SentSat ab)) buf l;
            let l := l + ll in
            '(buf, ll) ← pack_at (packBigint (AddrBalance.BalanceSat ab)) buf l;
            let l := l + ll in
            v ← slice_to buf l;
            storeBalances_loop (wb_PutCF wb cfAddressBalance addrDesc v) rest buf
      | None =>
          storeBalances_loop (wb_DeleteCF wb cfAddressBalance addrDesc) rest buf
      end
  end.

Definition storeBalances (wb : WriteBatch) (abm : gmap (list Z) (option AddrBalance.t)) : Res WriteBatch :=
  (* allocate buffer big enough for number of txs + 2 bigints *)
  storeBalances_loop wb (map_to_list abm) (make_bytes (vlq.MaxLen32 + 2 * maxPackedBigintBytes)).

(** [o := make([]outpoint, len(tx.Vin)); for v := range tx.Vin { ... }] *)
Fixpoint blockTxInputs (vins : list bchain.Vin) (zeroTx : list Z) : Res (list outpoint.t) :=
  match vins with
  | [] => Ok []
  | vin :: rest =>
      btxID ← match bchain.PackTxid (bchain.Vin_Txid vin) with
              | Err ErrTxidMissing => Ok zeroTx
              | r => r
              end;
      o ← blockTxInputs rest zeroTx;
      Ok (outpoint.mk btxID (to_int32 (bchain.Vin_Vout vin)) :: o)
  end.

Fixpoint packBlockTxs (txs : list bchain.Tx) (buf varBuf zeroTx : list Z) : Res (list Z) :=
  match txs with
  | [] => Ok buf
  | tx :: rest =>
      o ← blockTxInputs (bchain.Tx_Vin tx) zeroTx;
      btxID ← bchain.PackTxid (bchain.Tx_Txid tx);
      let buf := buf ++ btxID in
      '(varBuf, l) ← packVaruint (len o) varBuf;
      v ← slice_to varBuf l;
      let buf := buf ++ v in
      po ← packOutpoints o;
      packBlockTxs rest (buf ++ po) varBuf zeroTx
  end.

(** [for rh := block.Height - uint32(keep); rh < block.Height; rh-- { ... }]:
    [rh] is a [uint32], so the round after [rh = 0] starts with
    [rh = 2^32 - 1], which is not below the height. The delete is
    [d.db.DeleteCF(d.wo, ...)], on the store and not on the batch. *)
Fixpoint cleanupBlockTxs_loop (fuel : nat) (d : Store) (height rh : Z) : Store * Res unit :=
  if rh <? height then
    match fuel with
    | O => (d, Diverges)
    | S f =>
        let key := packUint rh in
        match GetCF d cfBlockTxs key with
        | Ok val =>
            if len val =? 0 then (d, Ok tt)
            else cleanupBlockTxs_loop f (DeleteCF d cfBlockTxs key) height (wrap32 (rh - 1))
        | Err e => (d, Err e)
        | Panic k => (d, Panic k)
        | Diverges => (d, Diverges)
        end
    end
  else (d, Ok tt).

(** The store comes back with the result: the clean-up changes it. *)
Definition storeAndCleanupBlockTxs (d : Store) (wb : WriteBatch) (block : bchain.Block)
    : Store * Res WriteBatch :=
  let pl := bchain.PackedTxidLen in
  let varBuf := make_bytes vlq.MaxLen64 in
  let zeroTx := make_bytes pl in
  match packBlockTxs (bchain.Block_Txs block) [] varBuf zeroTx with
  | Ok buf =>
      let key := packUint (bchain.Block_Height block) in
      let wb := wb_PutCF wb cfBlockTxs key buf in
      let keep := bchain.KeepBlockAddresses in
      (* cleanup old block address *)
      if wrap32 keep <? bchain.Block_Height block then
        let rh := wrap32 (bchain.Block_Height block - wrap32 keep) in
        match cleanupBlockTxs_loop (S (Z.to_nat rh)) d (bchain.Block_Height block) rh with
        | (d, Ok _) => (d, Ok wb)
        | (d, Err e) => (d, Err e)
        | (d, Panic k) => (d, Panic k)
        | (d, Diverges) => (d, Diverges)
        end
      else (d, Ok wb)
  | Err e => (d, Err e)
  | Panic k => (d, Panic k)
  | Diverges => (d, Diverges)
  end.

(** *** Block index *)

Definition packBlockInfo (block : BlockInfo.t) : Res (list Z) :=
  let packed := [] in
  let varBuf := make_bytes vlq.MaxLen64 in
  b ← bchain.PackBlockHash (BlockInfo.Hash block);
  let packed := packed ++ b in
  let packed := packed ++ packUint (wrap32 (BlockInfo.Time block)) in
  '(varBuf, l) ← packVaruint (BlockInfo.Txs block) varBuf;
  v ← slice_to varBuf l;
  let packed := packed ++ v in
  '(varBuf, l) ← packVaruint (BlockInfo.Size block) varBuf;
  v ← slice_to varBuf l;
  Ok (packed ++ v).

(** [d.is.UpdateBestHeight] sets the best height of the handle. *)
Definition writeHeight (r : RocksDB) (wb : WriteBatch) (height : Z) (bi : BlockInfo.t) (op : Z)
    : RocksDB * Res WriteBatch :=
  let key := packUint height in
  if op =? opInsert then
    match packBlockInfo bi with
    | Ok val => (mkRocksDB (db r) height, Ok (wb_PutCF wb cfHeight key val))
    | Err e => (r, Err e)
    | Panic k => (r, Panic k)
    | Diverges => (r, Diverges)
    end
  else if op =? opDelete then
    (mkRocksDB (db r) (wrap32 (height - 1)), Ok (wb_DeleteCF wb cfHeight key))
  else (r, Ok wb).

Definition writeHeightFromBlock (r : RocksDB) (wb : WriteBatch) (block : bchain.Block) (op : Z)
    : RocksDB * Res WriteBatch :=
  writeHeight r wb (bchain.Block_Height block)
    (BlockInfo.mk (bchain.Block_Hash block) (bchain.Block_Time block)
       (wrap32 (len (bchain.Block_Txs block))) (wrap32 (bchain.Block_Size block))
       (bchain.Block_Height block)) op.

(** *** Chains without UTXO *)

(** [internalDeleteTx]: the read only feeds the statistics. *)
Definition internalDeleteTx (wb : WriteBatch) (key : list Z) : WriteBatch :=
  wb_DeleteCF wb cfTransactions key.

Definition addAddrDescToRecords (op : Z) (wb : WriteBatch) (records : gmap (list Z) (list outpoint.t))
    (addrDesc btxid : list Z) (vout : Z) : WriteBatch * gmap (list Z) (list outpoint.t) :=
  if 0 <? len addrDesc then
    if maxAddrDescLen <? len addrDesc then (wb, records)
    else
      let records :=
        <[addrDesc := default [] (records !! addrDesc) ++ [outpoint.mk btxid vout]]> records in
      if op =? opDelete then (internalDeleteTx wb btxid, records)
      else (wb, records)
  else (wb, records).

Fixpoint nonUTXO_outputs (op : Z) (btxID : list Z) (outputs : list bchain.Vout)
    (acc : WriteBatch * gmap (list Z) (list outpoint.t)) : Res (WriteBatch * gmap (list Z) (list outpoint.t)) :=
  match outputs with
  | [] => Ok acc
  | output :: rest =>
      match bchain.GetAddrDescFromVout output with
      | Ok addrDesc =>
          nonUTXO_outputs op btxID rest
            (addAddrDescToRecords op (fst acc) (snd acc) addrDesc btxID (to_int32 (bchain.Vout_N output)))
      | Err _ => nonUTXO_outputs op btxID rest acc
      | Panic k => Panic k
      | Diverges => Diverges
      end
  end.

Fixpoint nonUTXO_addresses (op : Z) (btxID : list Z) (i : Z) (l : list (list Z))
    (acc : WriteBatch * gmap (list Z) (list outpoint.t)) : Res (WriteBatch * gmap (list Z) (list outpoint.t)) :=
  match l with
  | [] => Ok acc
  | a :: rest =>
      match bchain.GetAddrDescFromAddress a with
      | Ok addrDesc =>
          nonUTXO_addresses op btxID (i + 1) rest
            (addAddrDescToRecords op (fst acc) (snd acc) addrDesc btxID (to_int32 (Z.lnot i)))
      | Err _ => nonUTXO_addresses op btxID (i + 1) rest acc
      | Panic k => Panic k
      | Diverges => Diverges
      end
  end.

Fixpoint nonUTXO_inputs (op : Z) (btxID : list Z) (inputs : list bchain.Vin)
    (acc : WriteBatch * gmap (list Z) (list outpoint.t)) : Res (WriteBatch * gmap (list Z) (list outpoint.t)) :=
  match inputs with
  | [] => Ok acc
  | input :: rest =>
      acc ← nonUTXO_addresses op btxID 0 (bchain.Vin_Addresses input) acc;
      nonUTXO_inputs op btxID rest acc
  end.

Fixpoint nonUTXO_txs (op : Z) (txs : list bchain.Tx)
    (acc : WriteBatch * gmap (list Z) (list outpoint.t)) : Res (WriteBatch * gmap (list Z) (list outpoint.t)) :=
  match txs with
  | [] => Ok acc
  | tx :: rest =>
      btxID ← bchain.PackTxid (bchain.Tx_Txid tx);
      acc ← nonUTXO_outputs op btxID (bchain.Tx_Vout tx) acc;
      (* store inputs in format txid ^index *)
      acc ← nonUTXO_inputs op btxID (bchain.Tx_Vin tx) acc;
      nonUTXO_txs op rest acc
  end.

Fixpoint nonUTXO_store (op : Z) (height : Z) (l : list (list Z * list outpoint.t))
    (wb : WriteBatch) : Res WriteBatch :=
  match l with
  | [] => Ok wb
  | (addrDesc, outpoints) :: rest =>
      let key := packAddressKey addrDesc height in
      if op =? opInsert then
        val ← packOutpoints outpoints;
        nonUTXO_store op height rest (wb_PutCF wb cfAddresses key val)
      else if op =? opDelete then
        nonUTXO_store op height rest (wb_DeleteCF wb cfAddresses key)
      else nonUTXO_store op height rest wb
  end.

Definition writeAddressesNonUTXO (wb : WriteBatch) (block : bchain.Block) (op : Z) : Res WriteBatch :=
  '(wb, addresses) ← nonUTXO_txs op (bchain.Block_Txs block) (wb, ∅);
  nonUTXO_store op (bchain.Block_Height block) (map_to_list addresses) wb.

(** *** writeBlock, ConnectBlock, DisconnectBlock *)

(** The [TxAddresses] objects the pointers of [txAddressesMap] point to. *)
Definition txAddressesOf (st : ConnectState) : gmap (list Z) TxAddresses.t :=
  omap (fun ptr => heap st !! ptr) (txAddressesMap st).

(** The part of [writeBlock] for a UTXO chain between [writeHeightFromBlock]
    and [storeAndCleanupBlockTxs]: it reads the store and fills the batch. *)
Definition writeBlockUTXO_batch (d : Store) (wb : WriteBatch) (block : bchain.Block) : Res WriteBatch :=
  st ← processAddressesUTXO d block (mkCS ∅ ∅ [] ∅);
  wb ← storeAddresses wb (bchain.Block_Height block) (addresses st);
  wb ← storeTxAddresses wb (txAddressesOf st);
  storeBalances wb (Some <$> balances st).

Definition writeBlock (r : RocksDB) (block : bchain.Block) (op : Z) : RocksDB * Res unit :=
  let wb : WriteBatch := [] in
  let isUTXO := bchain.IsUTXOChain in
  match writeHeightFromBlock r wb block op with
  | (r, Ok wb) =>
      if isUTXO then
        if op =? opDelete then
          (* block does not contain mapping tx-> input address, which is necessary to recreate
             unspentTxs; therefore it is not possible to DisconnectBlocks this way *)
          (r, Err ErrDisconnectNotSupported)
        else
          match writeBlockUTXO_batch (db r) wb block with
          | Ok wb =>
              match storeAndCleanupBlockTxs (db r) wb block with
              | (d, Ok wb) =>
                  let '(d, res) := db_Write d wb in
                  (mkRocksDB d (is_BestHeight r), res)
              | (d, Err e) => (mkRocksDB d (is_BestHeight r), Err e)
              | (d, Panic k) => (mkRocksDB d (is_BestHeight r), Panic k)
              | (d, Diverges) => (mkRocksDB d (is_BestHeight r), Diverges)
              end
          | Err e => (r, Err e)
          | Panic k => (r, Panic k)
          | Diverges => (r, Diverges)
          end
      else
        match writeAddressesNonUTXO wb block op with
        | Ok wb =>
            let '(d, res) := db_Write (db r) wb in
            (mkRocksDB d (is_BestHeight r), res)
        | Err e => (r, Err e)
        | Panic k => (r, Panic k)
        | Diverges => (r, Diverges)
        end
  | (r, Err e) => (r, Err e)
  | (r, Panic k) => (r, Panic k)
  | (r, Diverges) => (r, Diverges)
  end.

(** ConnectBlock indexes addresses in the block and stores them in db *)
Definition ConnectBlock (r : RocksDB) (block : bchain.Block) : RocksDB * Res unit :=
  writeBlock r block opInsert.

(** DisconnectBlock removes addresses in the block from the db *)
Definition DisconnectBlock (r : RocksDB) (block : bchain.Block) : RocksDB * Res unit :=
  writeBlock r block opDelete.

(** *** Disconnect blocks *)

(** The maps [DisconnectBlockRangeUTXO] builds with its batch. The
    [TxAddresses] of [txAddressesToUpdate] are each loaded for their key
    alone, so the map holds the objects; a balance pointer can be [nil]. *)
Record DisconnectState : Type := mkDS {
  ds_wb : WriteBatch;
  txAddressesToUpdate : gmap (list Z) TxAddresses.t;
  txsToDelete : gset (list Z);
  ds_balances : gmap (list Z) (option AddrBalance.t) }.

(** The closure [getAddressBalance] of [disconnectTxAddresses]. *)
Definition getAddressBalance (d : Store) (balances : gmap (list Z) (option AddrBalance.t))
    (addrDesc : list Z) : Res (option AddrBalance.t * gmap (list Z) (option AddrBalance.t)) :=
  match balances !! addrDesc with
  | Some b => Ok (b, balances)
  | None =>
      b ← GetAddrDescBalance d addrDesc;
      Ok (b, <[addrDesc := b]> balances)
  end.

(** What the two loops of [disconnectTxAddresses] carry: the local set
    [addresses] and the two maps. *)
Record TxDisconnectState : Type := mkTDS {
  td_addresses : gset (list Z);
  td_txAddressesToUpdate : gmap (list Z) TxAddresses.t;
  td_balances : gmap (list Z) (option AddrBalance.t) }.

(** One round of [for i, t := range txa.Inputs]. *)
Definition disconnectInput (d : Store) (inputs : list outpoint.t) (st : TxDisconnectState)
    (i : Z) (t : TxInput.t) : Res TxDisconnectState :=
  if 0 <? len (TxInput.AddrDesc t) then
    let s := TxInput.AddrDesc t in
    let exist := bool_decide (s ∈ td_addresses st) in
    let addresses := if exist then td_addresses st else {[s]} ∪ td_addresses st in
    '(b, balances) ← getAddressBalance d (td_balances st) (TxInput.AddrDesc t);
    let balances :=
      match b with
      | Some b =>
          (* subtract number of txs only once *)
          let txs := if exist then AddrBalance.Txs b else wrap32 (AddrBalance.Txs b - 1) in
          let sentSat := AddrBalance.SentSat b - TxInput.ValueSat t in
          let sentSat := if sentSat <? 0 then resetValueSatToZero sentSat else sentSat in
          let balanceSat := AddrBalance.BalanceSat b + TxInput.ValueSat t in
          <[s := Some (AddrBalance.mk txs sentSat balanceSat)]> balances
      | None => balances
      end in
    inp ← item inputs i;
    let s := outpoint.btxID inp in
    sa ← match td_txAddressesToUpdate st !! s with
         | Some sa => Ok sa
         | None =>
             sa ← getTxAddresses d (outpoint.btxID inp);
             match sa with
             | Some sa => Ok sa
             | None => Panic NilDereference
             end
         end;
    sa ← update_output (outpoint.index inp) (fun o =>
           TxOutput.mk (TxOutput.AddrDesc o) false (TxOutput.ValueSat o)) sa;
    Ok (mkTDS addresses (<[s := sa]> (td_txAddressesToUpdate st)) balances)
  else Ok st.

Fixpoint disconnectInputs (d : Store) (inputs : list outpoint.t) (st : TxDisconnectState)
    (i : Z) (l : list TxInput.t) : Res TxDisconnectState :=
  match l with
  | [] => Ok st
  | t :: rest =>
      st ← disconnectInput d inputs st i t;
      disconnectInputs d inputs st (i + 1) rest
  end.

(** One round of [for _, t := range txa.Outputs]. *)
Definition disconnectOutput (d : Store) (st : TxDisconnectState) (t : TxOutput.t) : Res TxDisconnectState :=
  if 0 <? len (TxOutput.AddrDesc t) then
    let s := TxOutput.AddrDesc t in
    let exist := bool_decide (s ∈ td_addresses st) in
    let addresses := if exist then td_addresses st else {[s]} ∪ td_addresses st in
    '(b, balances) ← getAddressBalance d (td_balances st) (TxOutput.AddrDesc t);
    let balances :=
      match b with
      | Some b =>
          (* subtract number of txs only once *)
          let txs := if exist then AddrBalance.Txs b else wrap32 (AddrBalance.Txs b - 1) in
          let balanceSat := AddrBalance.BalanceSat b - TxOutput.ValueSat t in
          let balanceSat := if balanceSat <? 0 then resetValueSatToZero balanceSat else balanceSat in
          <[s := Some (AddrBalance.mk txs (AddrBalance.SentSat b) balanceSat)]> balances
      | None => balances
      end in
    Ok (mkTDS addresses (td_txAddressesToUpdate st) balances)
  else Ok st.

Fixpoint disconnectOutputs (d : Store) (st : TxDisconnectState) (l : list TxOutput.t) : Res TxDisconnectState :=
  match l with
  | [] => Ok st
  | t :: rest =>
      st ← disconnectOutput d st t;
      disconnectOutputs d st rest
  end.

(** [for a := range addresses { wb.DeleteCF(d.cfh[cfAddresses], packAddressKey([]byte(a), height)) }] *)
Definition deleteAddressKeys (wb : WriteBatch) (height : Z) (l : list (list Z)) : WriteBatch :=
  fold_left (fun wb a => wb_DeleteCF wb cfAddresses (packAddressKey a height)) l wb.

Definition disconnectTxAddresses (d : Store) (wb : WriteBatch) (height : Z) (inputs : list outpoint.t)
    (txa : TxAddresses.t) (txAddressesToUpdate : gmap (list Z) TxAddresses.t)
    (balances : gmap (list Z) (option AddrBalance.t))
    : Res (WriteBatch * gmap (list Z) TxAddresses.t * gmap (list Z) (option AddrBalance.t)) :=
  let st := mkTDS ∅ txAddressesToUpdate balances in
  st ← disconnectInputs d inputs st 0 (TxAddresses.Inputs txa);
  st ← disconnectOutputs d st (TxAddresses.Outputs txa);
  Ok (deleteAddressKeys wb height (elements (td_addresses st)),
      td_txAddressesToUpdate st, td_balances st).

(** The first loop of [DisconnectBlockRangeUTXO]:
    [for height := lower; height <= higher; height++]. *)
Fixpoint loadBlockTxs (fuel : nat) (d : Store) (lower higher height : Z)
    (blocks : list (list blockTxs.t)) : Res (list (list blockTxs.t)) :=
  if height <=? higher then
    match fuel with
    | O => Diverges
    | S f =>
        bt ← getBlockTxs d height;
        if len bt =? 0 then Err (ErrRebuildIndex height)
        else
          blocks ← set_item blocks (wrap32 (height - lower)) bt;
          loadBlockTxs f d lower higher (wrap32 (height + 1)) blocks
    end
  else Ok blocks.

(** [for i := len(blockTxs) - 1; i >= 0; i--]: the transactions of one
    block, last first. *)
Fixpoint disconnectTxs (d : Store) (height : Z) (rev_txs : list blockTxs.t)
    (st : DisconnectState) : Res DisconnectState :=
  match rev_txs with
  | [] => Ok st
  | bt :: rest =>
      let txid := blockTxs.btxID bt in
      let st := mkDS (ds_wb st) (txAddressesToUpdate st) ({[txid]} ∪ txsToDelete st) (ds_balances st) in
      txa ← getTxAddresses d txid;
      match txa with
      | None => disconnectTxs d height rest st
      | Some txa =>
          '(wb, tu, bal) ← disconnectTxAddresses d (ds_wb st) height (blockTxs.inputs bt) txa
                              (txAddressesToUpdate st) (ds_balances st);
          disconnectTxs d height rest (mkDS wb tu (txsToDelete st) bal)
      end
  end.

(** The body of the second loop for one height. *)
Definition disconnectHeight (d : Store) (lower height : Z) (blocks : list (list blockTxs.t))
    (st : DisconnectState) : Res DisconnectState :=
  blockTxs ← item blocks (wrap32 (height - lower));
  (* go backwards to avoid interim negative balance *)
  st ← disconnectTxs d height (rev blockTxs) st;
  let key := packUint height in
  let wb := wb_DeleteCF (ds_wb st) cfBlockTxs key in
  let wb := wb_DeleteCF wb cfHeight key in
  Ok (mkDS wb (txAddressesToUpdate st) (txsToDelete st) (ds_balances st)).

(** The second loop, [for height := higher; height >= lower; height--],
    with the number of rounds it has completed. *)
Fixpoint disconnectHeights (fuel : nat) (d : Store) (lower height : Z)
    (blocks : list (list blockTxs.t)) (st : DisconnectState) (rounds : nat)
    : nat * Res DisconnectState :=
  if lower <=? height then
    match fuel with
    | O => (rounds, Diverges)
    | S f =>
        match disconnectHeight d lower height blocks st with
        | Ok st => disconnectHeights f d lower (wrap32 (height - 1)) blocks st (S rounds)
        | Err e => (rounds, Err e)
        | Panic k => (rounds, Panic k)
        | Diverges => (rounds, Diverges)
        end
    end
  else (rounds, Ok st).

Definition deleteTxs (wb : WriteBatch) (l : list (list Z)) : WriteBatch :=
  fold_left (fun wb b => wb_DeleteCF (wb_DeleteCF wb cfTransactions b) cfTxAddresses b) l wb.

(** [blocks := make([][]blockTxs, higher-lower+1)] *)
Definition emptyBlocks (lower higher : Z) : list (list blockTxs.t) :=
  replicate (Z.to_nat (wrap32 (higher - lower + 1))) [].

(** DisconnectBlockRangeUTXO removes all data belonging to blocks in range lower-higher
    if they are in the range kept in the cfBlockTxids column *)
Definition DisconnectBlockRangeUTXO (d : Store) (lower higher : Z) : Store * Res unit :=
  let blocks := emptyBlocks lower higher in
  match loadBlockTxs (S (length blocks)) d lower higher lower blocks with
  | Ok blocks =>
      let st := mkDS [] ∅ ∅ ∅ in
      match snd (disconnectHeights (S (length blocks)) d lower higher blocks st 0) with
      | Ok st =>
          match
            (wb ← storeTxAddresses (ds_wb st) (txAddressesToUpdate st);
             storeBalances wb (ds_balances st))
          with
          | Ok wb => db_Write d (deleteTxs wb (elements (txsToDelete st)))
          | Err e => (d, Err e)
          | Panic k => (d, Panic k)
          | Diverges => (d, Diverges)
          end
      | Err e => (d, Err e)
      | Panic k => (d, Panic k)
      | Diverges => (d, Diverges)
      end
  | Err e => (d, Err e)
  | Panic k => (d, Panic k)
  | Diverges => (d, Diverges)
  end.

End Methods.

(** ** Outpoints of the address index *)

Section Outpoints.

Context {chainParser : bchain.BlockChainParser}.

(** The loop [for i := 0; i < len(buf); { ... }] of [unpackOutpoints]:
    a round moves [i] forward by the length of a packed txid and of the
    varint it reads; [fuel] bounds the rounds, and a loop that outlives
    it makes no progress. *)
Fixpoint unpackOutpoints_loop (fuel : nat) (buf : list Z) (i : Z) (outpoints : list outpoint.t)
    : Res (list outpoint.t) :=
  if i <? len buf then
    match fuel with
    | O => Diverges
    | S f =>
        let txidUnpackedLen := bchain.PackedTxidLen in
        btxID ← slice buf i (i + txidUnpackedLen);
        let i := i + txidUnpackedLen in
        b ← slice_from buf i;
        let '(vout, voutLen) := unpackVarint32 b in
        let i := i + voutLen in
        unpackOutpoints_loop f buf i (outpoints ++ [outpoint.mk btxID vout])
    end
  else Ok outpoints.

Definition unpackOutpoints (buf : list Z) : Res (list outpoint.t) :=
  unpackOutpoints_loop (S (length buf)) buf 0 [].

(** The transactions of a block with the outpoints of their inputs, as
    [storeAndCleanupBlockTxs] packs them. *)
Fixpoint blockTxsOf (txs : list bchain.Tx) (zeroTx : list Z) : Res (list blockTxs.t) :=
  match txs with
  | [] => Ok []
  | tx :: rest =>
      o ← blockTxInputs (bchain.Tx_Vin tx) zeroTx;
      btxID ← bchain.PackTxid (bchain.Tx_Txid tx);
      r ← blockTxsOf rest zeroTx;
      Ok (blockTxs.mk btxID o :: r)
  end.

End Outpoints.

(** ** Definitions used to state the properties *)

(** [buf] with the bytes [bs] written from position [i]. *)
Definition splice (buf : list Z) (i : nat) (bs : list Z) : list Z :=
  take i buf ++ bs ++ drop (i + length bs) buf.

(** The lowest [n] bytes of [d], most significant first. *)
Fixpoint be_bytes (n : nat) (d : Z) : list Z :=
  match n with
  | O => []
  | S k => be_bytes k (Z.shiftr d 8) ++ [to_byte d]
  end.

(** The bytes of a varuint with at most [n] continuation bytes. *)
Fixpoint varuint_bytes (n : nat) (x : Z) : list Z :=
  match n with
  | S k =>
      if 128 <=? x then Z.lor (to_byte x) 128 :: varuint_bytes k (Z.shiftr x 7)
      else [to_byte x]
  | O => [to_byte x]
  end.

(** The words of a list, least significant first, are 64-bit words and
    the most significant one is not zero. *)
Definition normalized (w : list Z) : Prop :=
  Forall (fun d => 0 <= d < 2 ^ wordBits) w /\ last w <> Some 0.

(** The words kept by [packBigint]: the [maxPackedBigintWords] most
    significant ones. *)
Definition kept_words (w : list Z) : list Z :=
  drop (length w - Z.to_nat maxPackedBigintWords) w.

(** The number [packBigint] stores for [bi]. *)
Definition truncated (bi : Z) : Z := words_value (kept_words (Bits bi)).

(** The number of bytes a call of [packBigint] reports, when it returns. *)
Definition written (r : Res (list Z * Z)) : option Z :=
  match r with
  | Ok (_, l) => Some l
  | _ => None
  end.

(** [unpackBigint] of what [packBigint] wrote into a fresh buffer. *)
Definition bigint_round_trip (bi : Z) : Res Z :=
  '(buf, _) ← packBigint bi (make_bytes maxPackedBigintBytes);
  '(v, _) ← unpackBigint buf;
  Ok v.

(** *** The outputs of a transaction, as the connect indexes them *)

Section ConnectSpec.

Context {chainParser : bchain.BlockChainParser}.

(** The address descriptor of an output that the connect indexes: the
    one the parser returns, when it returns one of 1 to [maxAddrDescLen]
    bytes. *)
Definition validAddrDesc (output : bchain.Vout) : option (list Z) :=
  match bchain.GetAddrDescFromVout output with
  | Ok addrDesc =>
      if (len addrDesc =? 0) || (maxAddrDescLen <? len addrDesc) then None else Some addrDesc
  | _ => None
  end.

(** The outpoints of the transaction [btxID] for the outputs of [outs],
    numbered from [i], whose descriptor is [a]. *)
Fixpoint outpoints_for (a btxID : list Z) (i : Z) (outs : list bchain.Vout) : list outpoint.t :=
  match outs with
  | [] => []
  | output :: rest =>
      (if bool_decide (validAddrDesc output = Some a) then [outpoint.mk btxID (to_int32 i)] else [])
      ++ outpoints_for a btxID (i + 1) rest
  end.

(** The sum of the values of the outputs of [outs] whose descriptor is [a]. *)
Fixpoint value_for (a : list Z) (outs : list bchain.Vout) : Z :=
  match outs with
  | [] => 0
  | output :: rest =>
      (if bool_decide (validAddrDesc output = Some a) then bchain.Vout_ValueSat output else 0)
      + value_for a rest
  end.

End ConnectSpec.

(** The transactions of a list of outpoints. *)
Definition txids (o : list outpoint.t) : gset (list Z) :=
  list_to_set (map outpoint.btxID o).

(** *** Amounts that are not negative *)

(** The stored values are strings of bytes. *)
Definition bytes_ok (buf : list Z) : Prop := Forall (fun b => 0 <= b < 256) buf.

Definition store_ok (d : Store) : Prop :=
  forall cf key value, cols d cf !! key = Some value -> bytes_ok value.

Definition balance_nonneg (ab : AddrBalance.t) : Prop :=
  0 <= AddrBalance.SentSat ab /\ 0 <= AddrBalance.BalanceSat ab.

Definition txAddresses_nonneg (ta : TxAddresses.t) : Prop :=
  Forall (fun t => 0 <= TxInput.ValueSat t) (TxAddresses.Inputs ta) /\
  Forall (fun t => 0 <= TxOutput.ValueSat t) (TxAddresses.Outputs ta).


(** *** What the connect keeps of a tx-addresses record *)


(** *** The transaction counter of an address during the connect *)




(** *** The addresses of a disconnected transaction *)

(** The address descriptors of the inputs and outputs of a tx-addresses
    record that are not empty. *)
Definition touched_addresses (txa : TxAddresses.t) : list (list Z) :=
  filter (fun a => len a <> 0)
    (map TxInput.AddrDesc (TxAddresses.Inputs txa) ++ map TxOutput.AddrDesc (TxAddresses.Outputs txa)).

(** The balances of the disconnect while one transaction is processed,
    against the balances [bal0] before it: an address that was met has
    its counter lowered by one, whatever the number of times it was met;
    the other addresses have the entry they had. *)
Definition txs_uncounted (d : Store) (bal0 : gmap (list Z) (option AddrBalance.t))
    (st : TxDisconnectState) : Prop :=
  forall a,
    if bool_decide (a ∈ td_addresses st) then
      exists b0 bal1, getAddressBalance d bal0 a = Ok (b0, bal1) /\
        match b0 with
        | None => td_balances st !! a = Some None
        | Some b =>
            exists b', td_balances st !! a = Some (Some b') /\
              AddrBalance.Txs b' = wrap32 (AddrBalance.Txs b - 1)
        end
    else td_balances st !! a = bal0 !! a.

(** *** The operations of a batch *)





(** *** Tx-addresses records that are packed without loss *)

(** The amount of an input or output is stored whole when it is not
    negative and has at most 248 bytes; an address descriptor has at
    most [maxAddrDescLen] bytes, and the number of inputs and outputs is
    an [int]. *)
Definition txInput_ok (t : TxInput.t) : Prop :=
  len (TxInput.AddrDesc t) <= maxAddrDescLen /\ 0 <= TxInput.ValueSat t < 2 ^ 1984.

Definition txOutput_ok (t : TxOutput.t) : Prop :=
  len (TxOutput.AddrDesc t) <= maxAddrDescLen /\ 0 <= TxOutput.ValueSat t < 2 ^ 1984.

Definition txAddresses_ok (ta : TxAddresses.t) : Prop :=
  0 <= TxAddresses.Height ta < 2 ^ 32 /\
  len (TxAddresses.Inputs ta) < 2 ^ 63 /\ len (TxAddresses.Outputs ta) < 2 ^ 63 /\
  Forall txInput_ok (TxAddresses.Inputs ta) /\ Forall txOutput_ok (TxAddresses.Outputs ta).

(** *** Balances that are packed without loss *)

Definition balance_ok (ab : AddrBalance.t) : Prop :=
  0 <= AddrBalance.Txs ab < 2 ^ 32 /\
  0 <= AddrBalance.SentSat ab < 2 ^ 1984 /\ 0 <= AddrBalance.BalanceSat ab < 2 ^ 1984.

(** The bytes [value] stored for an address are read as the balance [ab]. *)
Definition reads_balance (value : list Z) (ab : AddrBalance.t) : Prop :=
  forall d addrDesc,
    read_fails d cfAddressBalance addrDesc = false ->
    cols d cfAddressBalance !! addrDesc = Some value ->
    GetAddrDescBalance d addrDesc = Ok (Some ab).

(** The operation [storeBalances] adds to the batch for one entry of the
    map: a delete for a [nil] balance or a balance without transactions,
    else a put of bytes that are read as the balance. *)
Definition balance_op (e : list Z * option AddrBalance.t) (op : BatchOp) : Prop :=
  match snd e with
  | None => op = BatchDelete cfAddressBalance (fst e)
  | Some ab =>
      if AddrBalance.Txs ab <=? 0 then op = BatchDelete cfAddressBalance (fst e)
      else exists value, op = BatchPut cfAddressBalance (fst e) value /\ reads_balance value ab
  end.

(** *** Outpoints that are packed without loss *)

(** An outpoint of a chain whose packed txids have [pl] bytes: the
    index is an [int32]. *)
Definition outpoint_ok (pl : Z) (o : outpoint.t) : Prop :=
  len (outpoint.btxID o) = pl /\ - 2 ^ 31 <= outpoint.index o < 2 ^ 31.

(** A transaction of a block-tx record of a chain whose packed txids have
    [pl] bytes: its txid and those of its inputs have that length, and
    the number of inputs is a [uint]. *)
Definition blockTxs_ok (pl : Z) (bt : blockTxs.t) : Prop :=
  len (blockTxs.btxID bt) = pl /\ len (blockTxs.inputs bt) < 2 ^ 64 /\
  Forall (fun o => len (outpoint.btxID o) = pl) (blockTxs.inputs bt).

(** ** A chain parser and stores for the examples *)

(** A parser of a chain whose packed txid is the txid itself, two bytes
    long; the empty txid (a coinbase input) is [ErrTxidMissing]. The
    address descriptor of an output is its script; an empty script has no
    address. *)
Definition exampleParser (utxo : bool) (keep : Z) : bchain.BlockChainParser := {|
  bchain.PackTxid := fun txid => if len txid =? 0 then Err ErrTxidMissing else Ok txid;
  bchain.PackedTxidLen := 2;
  bchain.PackBlockHash := fun hash => Ok hash;
  bchain.IsUTXOChain := utxo;
  bchain.KeepBlockAddresses := keep;
  bchain.GetAddrDescFromVout := fun output =>
    if len (bchain.Vout_Script output) =? 0 then Err ErrAddressMissing
    else Ok (bchain.Vout_Script output);
  bchain.GetAddrDescFromAddress := fun a => Ok a |}.

(** A store with the given rows, whose reads never fail. *)
Definition exampleStore (rows : list (Column * list Z * list Z)) (write_fails : bool) : Store :=
  mkStore (fold_left (fun c row => cols_put c (fst (fst row)) (snd (fst row)) (snd row)) rows (fun _ => ∅))
    (fun _ _ => false) write_fails.

(** The stored rows of all columns. *)
Definition dump (d : Store) : list (list (list Z * list Z)) :=
  map (fun cf => map_to_list (cols d cf))
    [cfDefault; cfHeight; cfAddresses; cfTxAddresses; cfAddressBalance; cfBlockTxs; cfTransactions].

(** A store with block-tx records at the heights 1, 2 and 3. *)
Definition storeWithBlockTxs (write_fails : bool) : Store :=
  exampleStore [(cfBlockTxs, packUint 1, [0; 1; 0]);
                (cfBlockTxs, packUint 2, [0; 2; 0]);
                (cfBlockTxs, packUint 3, [0; 3; 0])] write_fails.

(** An empty block at height 5. *)
Definition emptyBlock5 : bchain.Block := bchain.mkBlock 5 [9; 5] 105 10 [].

(** Two blocks: a coinbase paying 50 to the address [[65]], and a
    transaction spending it to [[66]] (30) and [[65]] (20). *)
Definition block0 : bchain.Block :=
  bchain.mkBlock 0 [9; 0] 100 10
    [bchain.mkTx [0; 1] [] [bchain.mkVout 50 0 [65]]].

Definition block1 : bchain.Block :=
  bchain.mkBlock 1 [9; 1] 101 10
    [bchain.mkTx [0; 2] [bchain.mkVin [0; 1] 0 []]
       [bchain.mkVout 30 0 [66]; bchain.mkVout 20 1 [65]]].

(** The store after [block0] and [block1] were connected to an empty
    store, with retention 2. *)
Definition storeAfterBlock0 : RocksDB :=
  fst (ConnectBlock (chainParser := exampleParser true 2) (mkRocksDB (exampleStore [] false) 0) block0).

Definition storeAfterBlock1 : RocksDB :=
  fst (ConnectBlock (chainParser := exampleParser true 2) storeAfterBlock0 block1).

(** The block-tx records of the heights 0 and 1 of [storeAfterBlock1], as
    the first loop of the disconnect loads them. *)
Definition loadedBlocks01 : list (list blockTxs.t) :=
  [[blockTxs.mk [0; 1] []]; [blockTxs.mk [0; 2] [outpoint.mk [0; 1] 0]]].


(** A transaction whose first output has no address (its script is empty)
    and whose other two outputs pay to the address [[65]]; the state of
    the connect after its outputs were processed, from the empty state. *)
Definition txWithSkippedOutput : bchain.Tx :=
  bchain.mkTx [0; 3] [] [bchain.mkVout 7 0 []; bchain.mkVout 5 1 [65]; bchain.mkVout 6 2 [65]].

Definition stateAfterSkippedOutput : ConnectState :=
  match processTxOutputs (chainParser := exampleParser true 2) (exampleStore [] false) 0
          (mkCS ∅ ∅ [] ∅) txWithSkippedOutput with
  | Ok (st, _) => st
  | _ => mkCS ∅ ∅ [] ∅
  end.

(** The working maps after [block1] was processed on the store that
    holds [block0]. *)
Definition stateAfterBlock1 : ConnectState :=
  match processAddressesUTXO (chainParser := exampleParser true 2) (db storeAfterBlock0) block1
          (mkCS ∅ ∅ [] ∅) with
  | Ok st => st
  | _ => mkCS ∅ ∅ [] ∅
  end.

(** [store_ok], computed on the rows of the columns. *)
Definition store_okb (d : Store) : bool :=
  forallb (forallb (fun row : list Z * list Z =>
                      forallb (fun b => (0 <=? b) && (b <? 256)) (snd row))) (dump d).


(** The tx-addresses record of the transaction of [block1], and what
    disconnecting it from [storeAfterBlock1] gives. *)
Definition txAddressesOfBlock1 : TxAddresses.t :=
  TxAddresses.mk 1 [TxInput.mk [65] 50] [TxOutput.mk [66] false 30; TxOutput.mk [65] false 20].

Definition disconnectedBlock1Tx
    : WriteBatch * gmap (list Z) TxAddresses.t * gmap (list Z) (option AddrBalance.t) :=
  match disconnectTxAddresses (db storeAfterBlock1) [] 1 [outpoint.mk [0; 1] 0]
          txAddressesOfBlock1 ∅ ∅ with
  | Ok r => r
  | _ => ([], ∅, ∅)
  end.

(** A block of a chain without UTXO: one transaction from the address
    [[70]] to the address [[71]]. *)
Definition accountBlock : bchain.Block :=
  bchain.mkBlock 7 [9; 7] 107 10
    [bchain.mkTx [0; 5] [bchain.mkVin [] 0 [[70]]] [bchain.mkVout 0 0 [71]]].
(** ** Sanity checks of the codecs on concrete values *)

Example packUint_ex : packUint 16909060 = [1; 2; 3; 4].
Proof. reflexivity. Qed.

Example packVaruint_ex :
  packVaruint 300 (make_bytes 10) = Ok ([172; 2; 0; 0; 0; 0; 0; 0; 0; 0], 2).
Proof. reflexivity. Qed.

Example unpackVaruint_ex : unpackVaruint [172; 2; 7] = (300, 2).
Proof. reflexivity. Qed.

Example packVarint_ex :
  packVarint (-3) (make_bytes 10) = Ok ([5; 0; 0; 0; 0; 0; 0; 0; 0; 0], 1).
Proof. reflexivity. Qed.

Example unpackVarint_ex : unpackVarint [5] = (-3, 1).
Proof. reflexivity. Qed.

Example packBigint_ex :
  packBigint (2 ^ 64 + 5) (make_bytes 12) = Ok ([9; 1; 0; 0; 0; 0; 0; 0; 0; 5; 0; 0], 10).
Proof. vm_compute. reflexivity. Qed.

Example unpackBigint_ex : unpackBigint [2; 1; 0; 77] = Ok (256, 3).
Proof. reflexivity. Qed.

(** ** The end-to-end scenarios: connect two blocks, disconnect the second *)

Example connect_block0 :
  dump (db storeAfterBlock0) =
    [[]; [([0; 0; 0; 0], [9; 0; 0; 0; 0; 100; 1; 10])];
     [([65; 0; 0; 0; 0], [0; 1; 0])];
     [([0; 1], [0; 0; 1; 2; 65; 1; 50])];
     [([65], [1; 0; 1; 50])];
     [([0; 0; 0; 0], [0; 1; 0])]; []].
Proof. vm_compute. reflexivity. Qed.

Example connect_block1_balances :
  GetAddrDescBalance (db storeAfterBlock1) [65] = Ok (Some (AddrBalance.mk 2 50 20)) /\
  GetAddrDescBalance (db storeAfterBlock1) [66] = Ok (Some (AddrBalance.mk 1 0 30)) /\
  getTxAddresses (db storeAfterBlock1) [0; 1] =
    Ok (Some (TxAddresses.mk 0 [] [TxOutput.mk [65] true 50])).
Proof. vm_compute. repeat split; reflexivity. Qed.

Example disconnect_block1 :
  let r := DisconnectBlockRangeUTXO (chainParser := exampleParser true 2) (db storeAfterBlock1) 1 1 in
  snd r = Ok tt /\ dump (fst r) = dump (db storeAfterBlock0).
Proof. vm_compute. split; reflexivity. Qed.
(** * Properties *)

(** ** Go values *)

Lemma len_nonneg {A : Type} (l : list A) : 0 <= len l.
Proof. unfold len. lia. Qed.

Lemma len_app {A : Type} (l k : list A) : len (l ++ k) = len l + len k.
Proof. unfold len. rewrite length_app. lia. Qed.

Lemma len_cons {A : Type} (x : A) (l : list A) : len (x :: l) = 1 + len l.
Proof. unfold len. simpl. lia. Qed.

Lemma len_nil {A : Type} : len (@nil A) = 0.
Proof. reflexivity. Qed.

Lemma item_lookup {A : Type} (buf : list A) (i : Z) (x : A) :
  0 <= i -> buf !! Z.to_nat i = Some x -> item buf i = Ok x.
Proof.
  intros Hi Hx. unfold item.
  pose proof (lookup_lt_Some _ _ _ Hx) as Hlt.
  destruct (Z.leb_spec 0 i); [|lia].
  destruct (Z.ltb_spec i (len buf)) as [_|Hge]; [|unfold len in Hge; lia].
  cbn [andb]. now rewrite Hx.
Qed.

Lemma item_out_of_range {A : Type} (buf : list A) (i : Z) :
  len buf <= i -> item buf i = Panic IndexOutOfRange.
Proof.
  intros Hi. unfold item. destruct (Z.ltb_spec i (len buf)); [lia|].
  rewrite andb_false_r. reflexivity.
Qed.

Lemma item_nat {A : Type} (buf : list A) (i : nat) (x : A) :
  buf !! i = Some x -> item buf (Z.of_nat i) = Ok x.
Proof. intros Hx. apply item_lookup; [lia|]. now rewrite Nat2Z.id. Qed.

Lemma slice_take_drop {A : Type} (buf : list A) (lo hi : Z) :
  0 <= lo <= hi -> hi <= len buf ->
  slice buf lo hi = Ok (take (Z.to_nat (hi - lo)) (drop (Z.to_nat lo) buf)).
Proof.
  intros [H1 H2] H3. unfold slice.
  destruct (Z.leb_spec 0 lo); [|lia].
  destruct (Z.leb_spec lo hi); [|lia].
  destruct (Z.leb_spec hi (len buf)); [|lia]. reflexivity.
Qed.

Lemma slice_from_drop {A : Type} (buf : list A) (lo : Z) :
  0 <= lo <= len buf -> slice_from buf lo = Ok (drop (Z.to_nat lo) buf).
Proof.
  intros H. unfold slice_from. rewrite slice_take_drop by lia.
  f_equal. apply take_ge. rewrite length_drop. unfold len in *. lia.
Qed.

Lemma slice_to_take {A : Type} (buf : list A) (hi : Z) :
  0 <= hi <= len buf -> slice_to buf hi = Ok (take (Z.to_nat hi) buf).
Proof.
  intros H. unfold slice_to. rewrite slice_take_drop by lia.
  now rewrite Z.sub_0_r.
Qed.

(** ** Writing into a buffer *)

Lemma length_splice buf i bs :
  (i + length bs <= length buf)%nat -> length (splice buf i bs) = length buf.
Proof.
  intros H. unfold splice. rewrite !length_app, length_take, length_drop. lia.
Qed.

Lemma lookup_splice buf i bs k :
  (i + length bs <= length buf)%nat ->
  splice buf i bs !! k =
    if decide (k < i)%nat then buf !! k
    else if decide (k < i + length bs)%nat then bs !! (k - i)%nat
    else buf !! k.
Proof.
  intros H. unfold splice.
  destruct (decide (k < i)%nat) as [Hk|Hk].
  - rewrite lookup_app_l by (rewrite length_take; lia).
    apply lookup_take_lt; lia.
  - rewrite lookup_app_r by (rewrite length_take; lia).
    rewrite length_take, Nat.min_l by lia.
    destruct (decide (k < i + length bs)%nat) as [Hk'|Hk'].
    + apply lookup_app_l. lia.
    + rewrite lookup_app_r by lia. rewrite lookup_drop. f_equal. lia.
Qed.

Lemma splice_app buf i a b :
  (i + length a + length b <= length buf)%nat ->
  splice (splice buf i a) (i + length a) b = splice buf i (a ++ b).
Proof.
  intros H. apply list_eq. intros k.
  rewrite (lookup_splice (splice buf i a)) by (rewrite length_splice; lia).
  rewrite !(lookup_splice buf) by (rewrite ?length_app; lia).
  rewrite length_app.
  repeat case_decide; try lia; try reflexivity.
  - now rewrite lookup_app_l by lia.
  - rewrite lookup_app_r by lia. f_equal. lia.
Qed.

Lemma splice_app_rev buf i a b :
  (i + length a + length b <= length buf)%nat ->
  splice (splice buf (i + length a) b) i a = splice buf i (a ++ b).
Proof.
  intros H. apply list_eq. intros k.
  rewrite (lookup_splice (splice buf (i + length a) b)) by (rewrite length_splice; lia).
  rewrite !(lookup_splice buf) by (rewrite ?length_app; lia).
  rewrite length_app.
  repeat case_decide; try lia; try reflexivity.
  - now rewrite lookup_app_l by lia.
  - rewrite lookup_app_r by lia. f_equal. lia.
Qed.

Lemma take_splice buf i bs :
  (i + length bs <= length buf)%nat ->
  take (i + length bs) (splice buf i bs) = take i buf ++ bs.
Proof.
  intros H. unfold splice. rewrite app_assoc.
  apply take_app_length'. rewrite length_app, length_take. lia.
Qed.

Lemma drop_splice buf i bs :
  (i + length bs <= length buf)%nat ->
  drop (i + length bs) (splice buf i bs) = drop (i + length bs) buf.
Proof.
  intros H. unfold splice. rewrite app_assoc.
  apply drop_app_length'. rewrite length_app, length_take. lia.
Qed.

Lemma set_item_splice buf i v :
  0 <= i < len buf -> set_item buf i v = Ok (splice buf (Z.to_nat i) [v]).
Proof.
  intros H. unfold set_item.
  destruct (Z.leb_spec 0 i); [|lia].
  destruct (Z.ltb_spec i (len buf)); [|lia]. simpl. f_equal.
  unfold splice. simpl. rewrite insert_take_drop by (unfold len in *; lia).
  do 3 f_equal. lia.
Qed.

(** ** Variable-length integers *)

Lemma to_byte_small x : 0 <= x < 256 -> to_byte x = x.
Proof. intros H. unfold to_byte. now apply Z.mod_small. Qed.

Lemma to_byte_range x : 0 <= to_byte x < 256.
Proof. unfold to_byte. apply Z.mod_pos_bound. lia. Qed.

Lemma wrap64_small x : 0 <= x < 2 ^ 64 -> wrap64 x = x.
Proof. intros H. unfold wrap64. now apply Z.mod_small. Qed.

Lemma wrap32_small x : 0 <= x < 2 ^ 32 -> wrap32 x = x.
Proof. intros H. unfold wrap32. now apply Z.mod_small. Qed.

Lemma to_int64_small x : - 2 ^ 63 <= x < 2 ^ 63 -> to_int64 x = x.
Proof. intros H. unfold to_int64. rewrite Z.mod_small; lia. Qed.

Lemma to_int32_small x : - 2 ^ 31 <= x < 2 ^ 31 -> to_int32 x = x.
Proof. intros H. unfold to_int32. rewrite Z.mod_small; lia. Qed.

Lemma length_varuint_bytes n x : (1 <= length (varuint_bytes n x) <= S n)%nat.
Proof.
  revert x. induction n as [|n IH]; intros x; simpl; [lia|].
  destruct (128 <=? x); simpl; [|lia]. specialize (IH (Z.shiftr x 7)). lia.
Qed.

Lemma PutUint_loop_splice n : forall buf i x,
  0 <= i -> i + Z.of_nat n < len buf ->
  vlq.PutUint_loop n buf i x =
    Ok (splice buf (Z.to_nat i) (varuint_bytes n x), i + len (varuint_bytes n x)).
Proof.
  induction n as [|n IH]; intros buf i x Hi Hlen; simpl.
  - rewrite set_item_splice by lia. reflexivity.
  - destruct (128 <=? x).
    + rewrite set_item_splice by lia. simpl.
      assert (Hl : (Z.to_nat i + 1 <= length buf)%nat) by (unfold len in Hlen; lia).
      rewrite IH; [|lia|].
      2:{ unfold len in *. rewrite length_splice by (simpl; lia). lia. }
      pose proof (length_varuint_bytes n (Z.shiftr x 7)) as Hb.
      f_equal. f_equal.
      * replace (Z.to_nat (i + 1)) with (Z.to_nat i + length [Z.lor (to_byte x) 128])%nat
          by (simpl; lia).
        rewrite splice_app; [reflexivity|]. simpl. unfold len in Hlen. lia.
      * rewrite len_cons. lia.
    + rewrite set_item_splice by lia. reflexivity.
Qed.

Lemma lor_128_ge x : 0 <= x -> 128 <= Z.lor x 128.
Proof.
  intros Hx. destruct (Z.lt_ge_cases (Z.lor x 128) 128) as [Hlt|]; [exfalso|assumption].
  assert (Hb : Z.testbit (Z.lor x 128) 7 = true).
  { rewrite Z.lor_spec. change (Z.testbit 128 7) with true. apply orb_true_r. }
  assert (Hn : 0 <= Z.lor x 128) by (apply Z.lor_nonneg; lia).
  destruct (Z.eq_dec (Z.lor x 128) 0) as [H0|H0].
  - rewrite H0 in Hb. discriminate.
  - rewrite Z.bits_above_log2 in Hb; [discriminate|lia|].
    apply Z.log2_lt_pow2; [lia|]. exact Hlt.
Qed.

Lemma varuint_step x s :
  0 <= s ->
  Z.lor (Z.shiftl (Z.land (Z.lor (to_byte x) 128) 127) s) (Z.shiftl (Z.shiftr x 7) (s + 7))
  = Z.shiftl x s.
Proof.
  intros Hs. unfold to_byte.
  change 256 with (2 ^ 8). change 127 with (Z.ones 7). change 128 with (Z.shiftl 1 7).
  Z.bitblast; rewrite ?(Z.testbit_neg_r _ l1), ?(Z.testbit_neg_r _ l0) by lia;
    simpl; rewrite ?andb_true_r, ?andb_false_r, ?orb_false_r; reflexivity.
Qed.

Lemma land_127_small x : 0 <= Z.land x 127 < 128.
Proof.
  change 127 with (Z.ones 7). rewrite Z.land_ones by lia.
  apply Z.mod_pos_bound. lia.
Qed.

Lemma shiftl_bound x s k : 0 <= s -> 0 <= k -> 0 <= x < 2 ^ k -> 0 <= Z.shiftl x s < 2 ^ (k + s).
Proof.
  intros Hs Hk Hx. rewrite Z.shiftl_mul_pow2 by lia. rewrite Z.pow_add_r by lia.
  assert (0 < 2 ^ s) by (apply Z.pow_pos_nonneg; lia). nia.
Qed.

Lemma shiftr_bound x s k : 0 <= s -> 0 <= k -> 0 <= x < 2 ^ (k + s) -> 0 <= Z.shiftr x s < 2 ^ k.
Proof.
  intros Hs Hk Hx. rewrite Z.shiftr_div_pow2 by lia.
  rewrite Z.pow_add_r in Hx by lia.
  assert (0 < 2 ^ s) by (apply Z.pow_pos_nonneg; lia).
  split; [apply Z.div_pos; lia|]. apply Z.div_lt_upper_bound; lia.
Qed.

Lemma Uint_loop_varuint n : forall x i acc rest,
  Z.of_nat n + i = 9 -> 0 <= i -> 0 <= x < 2 ^ (64 - 7 * i) ->
  vlq.Uint_loop (varuint_bytes n x ++ rest) i acc (7 * i) =
    (Z.lor acc (Z.shiftl x (7 * i)), i + len (varuint_bytes n x)).
Proof.
  induction n as [|n IH]; intros x i acc rest Hn Hi Hx.
  - assert (i = 9) by lia. subst i. change (2 ^ (64 - 7 * 9)) with 2 in Hx.
    simpl varuint_bytes. rewrite to_byte_small by lia. simpl.
    destruct (Z.ltb_spec x 128); [|lia].
    destruct (Z.ltb_spec 1 x); [lia|]. simpl.
    rewrite wrap64_small; [reflexivity|].
    assert (Hx1 : 0 <= x < 2 ^ 1) by (change (2 ^ 1) with 2; lia).
    pose proof (shiftl_bound x 63 1 ltac:(lia) ltac:(lia) Hx1) as Hs.
    change (2 ^ (1 + 63)) with (2 ^ 64) in Hs. change (7 * 9) with 63. lia.
  - simpl varuint_bytes. destruct (Z.leb_spec 128 x) as [Hge|Hlt].
    + simpl.
      pose proof (lor_128_ge (to_byte x) (proj1 (to_byte_range x))) as Hb.
      destruct (Z.ltb_spec (Z.lor (to_byte x) 128) 128); [lia|].
      replace (7 * i + 7) with (7 * (i + 1)) by lia.
      rewrite IH; [|lia|lia|].
      2:{ apply shiftr_bound; [lia|lia|]. replace (64 - 7 * (i + 1) + 7) with (64 - 7 * i) by lia. lia. }
      f_equal; [|rewrite len_cons; lia].
      rewrite wrap64_small.
      2:{ pose proof (land_127_small (Z.lor (to_byte x) 128)) as Hs.
          pose proof (shiftl_bound _ (7 * i) 7 ltac:(lia) ltac:(lia) Hs) as Hs'.
          assert (2 ^ (7 + 7 * i) <= 2 ^ 64) by (apply Z.pow_le_mono_r; lia). lia. }
      rewrite <- Z.lor_assoc. f_equal.
      replace (7 * (i + 1)) with (7 * i + 7) by lia.
      apply varuint_step. lia.
    + simpl. rewrite to_byte_small by lia.
      destruct (Z.ltb_spec x 128); [|lia].
      destruct (Z.ltb_spec 9 i); [lia|].
      destruct (Z.eqb_spec i 9); [lia|]. simpl.
      rewrite wrap64_small; [reflexivity|].
      pose proof (shiftl_bound x (7 * i) 7 ltac:(lia) ltac:(lia) ltac:(simpl; lia)) as Hs.
      assert (2 ^ (7 + 7 * i) <= 2 ^ 64) by (apply Z.pow_le_mono_r; lia). lia.
Qed.

(** [vlq.Uint] reads back what [vlq.PutUint] wrote, whatever follows the
    written bytes in the buffer. *)
Lemma Uint_PutUint x buf :
  0 <= x < 2 ^ 64 -> vlq.MaxLen64 <= len buf ->
  exists buf' l,
    vlq.PutUint buf x = Ok (buf', l) /\ 1 <= l <= vlq.MaxLen64 /\
    length buf' = length buf /\
    forall rest, vlq.Uint (take (Z.to_nat l) buf' ++ rest) = (x, l).
Proof.
  intros Hx Hlen. unfold vlq.MaxLen64 in *.
  unfold vlq.PutUint. rewrite (wrap64_small x) by lia.
  rewrite PutUint_loop_splice.
  2: lia.
  2: change (Z.of_nat 9) with 9; lia.
  pose proof (length_varuint_bytes 9 x) as Hb.
  assert (Hl : (0 + length (varuint_bytes 9 x) <= length buf)%nat) by (unfold len in Hlen; lia).
  eexists _, _. split; [reflexivity|]. split; [unfold len; lia|].
  split; [apply length_splice; exact Hl|].
  intros rest. change (Z.to_nat 0) with 0%nat.
  replace (Z.to_nat (0 + len (varuint_bytes 9 x))) with (0 + length (varuint_bytes 9 x))%nat
    by (unfold len; lia).
  rewrite take_splice by exact Hl. rewrite take_0, app_nil_l.
  unfold vlq.Uint.
  assert (Hx0 : 0 <= x < 2 ^ (64 - 7 * 0)) by (change (2 ^ (64 - 7 * 0)) with (2 ^ 64); lia).
  pose proof (Uint_loop_varuint 9 x 0 0 rest ltac:(lia) ltac:(lia) Hx0) as HU.
  change (7 * 0) with 0 in HU. rewrite HU.
  now rewrite Z.shiftl_0_r, Z.lor_0_l.
Qed.

(** [unpackVaruint] reads back what [packVaruint] wrote. *)
Lemma unpackVaruint_packVaruint x buf :
  0 <= x < 2 ^ 64 -> vlq.MaxLen64 <= len buf ->
  exists buf' l,
    packVaruint x buf = Ok (buf', l) /\ 1 <= l <= vlq.MaxLen64 /\
    length buf' = length buf /\
    forall rest, unpackVaruint (take (Z.to_nat l) buf' ++ rest) = (x, l).
Proof.
  intros Hx Hlen.
  destruct (Uint_PutUint x buf Hx Hlen) as (buf' & l & Hp & Hl & Hlb & Hu).
  exists buf', l. unfold packVaruint. rewrite (wrap64_small x) by lia.
  split; [exact Hp|]. split; [exact Hl|]. split; [exact Hlb|].
  intros rest. unfold unpackVaruint. rewrite Hu. now rewrite wrap64_small by lia.
Qed.

(** The zig-zag step and its inverse. *)
Lemma zigzag_inverse x :
  - 2 ^ 63 <= x < 2 ^ 63 ->
  let ux := wrap64 (Z.shiftl (wrap64 x) 1) in
  let ux := if x <? 0 then wrap64 (Z.lnot ux) else ux in
  0 <= ux < 2 ^ 64 /\
  (if Z.odd ux then Z.lnot (to_int64 (Z.shiftr ux 1)) else to_int64 (Z.shiftr ux 1)) = x.
Proof.
  intros Hx. cbv zeta.
  rewrite Z.shiftl_mul_pow2 by lia. change (2 ^ 1) with 2.
  destruct (Z.ltb_spec x 0) as [Hneg|Hpos].
  - assert (H0 : wrap64 x = x + 2 ^ 64).
    { unfold wrap64. symmetry. apply (Z.mod_unique_pos _ _ (-1)); lia. }
    assert (H1 : wrap64 (wrap64 x * 2) = 2 * x + 2 ^ 64).
    { rewrite H0. unfold wrap64. symmetry. apply (Z.mod_unique_pos _ _ 1); lia. }
    rewrite H1.
    assert (H2 : wrap64 (Z.lnot (2 * x + 2 ^ 64)) = - 2 * x - 1).
    { unfold wrap64, Z.lnot. symmetry. apply (Z.mod_unique_pos _ _ (-1)); lia. }
    rewrite H2. split; [lia|].
    replace (- 2 * x - 1) with (1 + 2 * (- x - 1)) by lia.
    rewrite Z.odd_add_mul_2. simpl Z.odd.
    rewrite Z.shiftr_div_pow2 by lia. change (2 ^ 1) with 2.
    replace ((1 + 2 * (- x - 1)) / 2) with (- x - 1).
    2:{ apply (Z.div_unique_pos _ _ _ 1); lia. }
    rewrite to_int64_small by lia. unfold Z.lnot. lia.
  - rewrite (wrap64_small x) by lia.
    rewrite (wrap64_small (x * 2)) by lia.
    split; [lia|].
    replace (x * 2) with (0 + 2 * x) by lia.
    rewrite Z.odd_add_mul_2. simpl Z.odd.
    rewrite Z.shiftr_div_pow2 by lia. change (2 ^ 1) with 2.
    replace ((0 + 2 * x) / 2) with x.
    2:{ apply (Z.div_unique_pos _ _ _ 0); lia. }
    apply to_int64_small. lia.
Qed.

Lemma unpackVarint_packVarint x buf :
  - 2 ^ 63 <= x < 2 ^ 63 -> vlq.MaxLen64 <= len buf ->
  exists buf' l,
    packVarint x buf = Ok (buf', l) /\ 1 <= l <= vlq.MaxLen64 /\
    length buf' = length buf /\
    forall rest, unpackVarint (take (Z.to_nat l) buf' ++ rest) = (x, l).
Proof.
  intros Hx Hlen.
  unfold packVarint, vlq.PutInt. rewrite (to_int64_small x) by lia.
  destruct (zigzag_inverse x Hx) as [Hux Hinv]. cbv zeta in Hux, Hinv.
  set (ux := if x <? 0 then _ else _) in *.
  destruct (Uint_PutUint ux buf Hux Hlen) as (buf' & l & Hp & Hl & Hlb & Hu).
  exists buf', l. split; [exact Hp|]. split; [exact Hl|]. split; [exact Hlb|].
  intros rest. unfold unpackVarint, vlq.Int. rewrite Hu, Hinv.
  now rewrite to_int64_small by lia.
Qed.

(** ** Packed big integers *)

Lemma wordBits_eq : wordBits = 64.
Proof. reflexivity. Qed.

Lemma words_of_spec fuel : forall n,
  0 <= n < 2 ^ (wordBits * Z.of_nat fuel) ->
  words_value (words_of fuel n) = n /\
  Forall (fun d => 0 <= d < 2 ^ wordBits) (words_of fuel n) /\
  last (words_of fuel n) <> Some 0.
Proof.
  rewrite wordBits_eq.
  induction fuel as [|f IH]; intros n Hn.
  - simpl in *. change (2 ^ (64 * 0)) with 1 in Hn. repeat split; [lia|constructor|discriminate].
  - simpl. destruct (Z.eqb_spec n 0) as [->|Hne].
    + simpl. repeat split; [constructor|discriminate].
    + rewrite wordBits_eq.
      assert (Hp : 0 < 2 ^ 64) by lia.
      assert (Hq : 0 <= n / 2 ^ 64 < 2 ^ (64 * Z.of_nat f)).
      { split; [apply Z.div_pos; lia|]. apply Z.div_lt_upper_bound; [lia|].
        rewrite <- Z.pow_add_r by lia.
        replace (64 + 64 * Z.of_nat f) with (64 * Z.of_nat (S f)) by lia. lia. }
      destruct (IH _ Hq) as (Hv & Hr & Hl).
      split; [|split].
      * simpl. rewrite wordBits_eq, Hv. pose proof (Z.div_mod n (2 ^ 64)). lia.
      * constructor; [apply Z.mod_pos_bound; lia|exact Hr].
      * destruct (words_of f (n / 2 ^ 64)) as [|d ds] eqn:Hw.
        -- simpl in Hv. simpl. intros [= H0].
           pose proof (Z.div_mod n (2 ^ 64)). lia.
        -- rewrite last_cons_cons. exact Hl.
Qed.

Lemma Bits_spec bi : normalized (Bits bi) /\ words_value (Bits bi) = Z.abs bi.
Proof.
  unfold Bits, normalized.
  assert (Hb : 0 <= Z.abs bi < 2 ^ (wordBits * Z.of_nat (S (Z.to_nat (Z.log2 (Z.abs bi)))))).
  { split; [lia|]. rewrite wordBits_eq.
    pose proof (Z.log2_nonneg (Z.abs bi)) as Hl.
    destruct (Z.eq_dec (Z.abs bi) 0) as [->|Hne].
    - apply Z.pow_pos_nonneg; lia.
    - apply Z.lt_le_trans with (2 ^ Z.succ (Z.log2 (Z.abs bi))).
      + apply Z.log2_spec. lia.
      + apply Z.pow_le_mono_r; lia. }
  destruct (words_of_spec _ _ Hb) as (Hv & Hr & Hl). auto.
Qed.

Lemma words_value_app a b :
  words_value (a ++ b) = words_value a + 2 ^ (wordBits * len a) * words_value b.
Proof.
  rewrite wordBits_eq. induction a as [|d a IH]; cbn [words_value app].
  - change (len (@nil Z)) with 0. change (2 ^ (64 * 0)) with 1. lia.
  - rewrite IH, len_cons, wordBits_eq.
    replace (64 * (1 + len a)) with (64 + 64 * len a) by lia.
    rewrite Z.pow_add_r by (pose proof (len_nonneg a); lia). lia.
Qed.

Lemma words_value_bound w :
  Forall (fun d => 0 <= d < 2 ^ wordBits) w -> 0 <= words_value w < 2 ^ (wordBits * len w).
Proof.
  rewrite wordBits_eq. induction 1 as [|d w Hd Hw IH]; cbn [words_value].
  - change (len (@nil Z)) with 0. change (2 ^ (64 * 0)) with 1. lia.
  - rewrite len_cons, wordBits_eq.
    replace (64 * (1 + len w)) with (64 + 64 * len w) by lia.
    rewrite Z.pow_add_r by (pose proof (len_nonneg w); lia).
    assert (0 < 2 ^ 64) by lia. assert (0 < 2 ^ (64 * len w)) by (apply Z.pow_pos_nonneg; pose proof (len_nonneg w); lia).
    nia.
Qed.

(** *** The most significant word *)

Lemma land_byte_mask w0 k :
  0 <= k -> 0 <= w0 < 2 ^ (k + 8) ->
  Z.land w0 (Z.shiftl 255 k) = 2 ^ k * (w0 / 2 ^ k).
Proof.
  intros Hk Hw.
  assert (H1 : Z.land w0 (Z.shiftl 255 k) = Z.shiftl (Z.land (Z.shiftr w0 k) 255) k).
  { change 255 with (Z.ones 8). Z.bitblast. }
  rewrite H1. change 255 with (Z.ones 8). rewrite Z.land_ones by lia.
  rewrite Z.shiftr_div_pow2, Z.shiftl_mul_pow2 by lia.
  rewrite Z.mod_small; [lia|].
  assert (0 < 2 ^ k) by (apply Z.pow_pos_nonneg; lia).
  split; [apply Z.div_pos; lia|].
  apply Z.div_lt_upper_bound; [lia|]. rewrite <- Z.pow_add_r by lia. lia.
Qed.

Lemma skip_leading_zeros_spec fuel : forall w0 fb,
  Z.of_nat fuel = fb -> 0 < w0 < 2 ^ (8 * fb) ->
  exists fb', skip_leading_zeros fuel w0 fb (Z.shiftl 255 (8 * (fb - 1))) = Some fb' /\
    1 <= fb' <= fb /\ 2 ^ (8 * (fb' - 1)) <= w0 < 2 ^ (8 * fb').
Proof.
  induction fuel as [|f IH]; intros w0 fb Hf Hw.
  - subst fb. change (2 ^ (8 * Z.of_nat 0)) with 1 in Hw. lia.
  - assert (Hfb : 1 <= fb) by lia.
    assert (Hk : 0 < 2 ^ (8 * (fb - 1))) by (apply Z.pow_pos_nonneg; lia).
    simpl. rewrite land_byte_mask; [|lia|].
    2:{ replace (8 * (fb - 1) + 8) with (8 * fb) by lia. lia. }
    destruct (Z.eqb_spec (2 ^ (8 * (fb - 1)) * (w0 / 2 ^ (8 * (fb - 1)))) 0) as [Hz|Hnz].
    + assert (Hlt : w0 < 2 ^ (8 * (fb - 1))).
      { assert (Hd : w0 / 2 ^ (8 * (fb - 1)) = 0) by nia.
        apply Z.div_small_iff in Hd; lia. }
      assert (Hf1 : 2 <= fb).
      { destruct (Z.eq_dec fb 1) as [->|]; [|lia].
        change (2 ^ (8 * (1 - 1))) with 1 in Hlt. lia. }
      destruct (IH w0 (fb - 1) ltac:(lia) ltac:(lia)) as (fb' & He & Hr & Hb).
      exists fb'. split; [|split; [lia|exact Hb]].
      rewrite <- He. f_equal.
      rewrite Z.shiftr_shiftl_l by lia.
      f_equal. lia.
    + exists fb. split; [reflexivity|]. split; [lia|]. split; [|lia].
      destruct (Z.le_gt_cases (2 ^ (8 * (fb - 1))) w0); [assumption|].
      rewrite Z.div_small in Hnz by lia. lia.
Qed.

(** *** The bytes written *)

Lemma length_be_bytes n d : length (be_bytes n d) = n.
Proof.
  revert d. induction n as [|n IH]; intros d; simpl; [reflexivity|].
  rewrite length_app, IH. simpl. lia.
Qed.

Lemma splice_nil buf i : splice buf i [] = buf.
Proof. unfold splice. simpl. rewrite Nat.add_0_r. apply take_drop. Qed.

Lemma put_word_bytes_splice n : forall buf i d,
  Z.of_nat n <= i + 1 -> i < len buf ->
  put_word_bytes n buf i d = Ok (splice buf (Z.to_nat (i + 1 - Z.of_nat n)) (be_bytes n d)).
Proof.
  induction n as [|n IH]; intros buf i d Hi Hlen; simpl.
  - now rewrite splice_nil.
  - rewrite set_item_splice by lia. simpl.
    assert (Hl : (Z.to_nat i + 1 <= length buf)%nat) by (unfold len in Hlen; lia).
    rewrite IH; [|lia|].
    2:{ unfold len in *. rewrite length_splice by (simpl; lia). lia. }
    f_equal.
    replace (Z.to_nat (i - 1 + 1 - Z.of_nat n)) with (Z.to_nat (i + 1 - Z.of_nat (S n))) by lia.
    replace (Z.to_nat i)
      with (Z.to_nat (i + 1 - Z.of_nat (S n)) + length (be_bytes n (Z.shiftr d 8)))%nat
      by (rewrite length_be_bytes; lia).
    rewrite splice_app_rev; [reflexivity|].
    rewrite length_be_bytes. simpl. lia.
Qed.

(** The bytes of a list of words, each word most significant byte first. *)
Lemma SetBytes_acc b : forall acc,
  fold_left (fun acc x => acc * 256 + x) b acc = acc * 256 ^ len b + SetBytes b.
Proof.
  unfold SetBytes. induction b as [|x b IH]; intros acc; simpl.
  - rewrite len_nil. lia.
  - rewrite IH, (IH (0 * 256 + x)), len_cons.
    rewrite Z.pow_add_r by (pose proof (len_nonneg b); lia). lia.
Qed.

Lemma SetBytes_app a b : SetBytes (a ++ b) = SetBytes a * 256 ^ len b + SetBytes b.
Proof. unfold SetBytes at 1. rewrite fold_left_app. apply SetBytes_acc. Qed.

Lemma SetBytes_be_bytes n : forall d, SetBytes (be_bytes n d) = d mod 2 ^ (8 * Z.of_nat n).
Proof.
  induction n as [|n IH]; intros d.
  - simpl. change (2 ^ (8 * 0)) with 1. now rewrite Z.mod_1_r.
  - simpl be_bytes. rewrite SetBytes_app, IH.
    change (len [to_byte d]) with 1. change (SetBytes [to_byte d]) with (to_byte d).
    unfold to_byte. rewrite Z.shiftr_div_pow2 by lia.
    replace (8 * Z.of_nat (S n)) with (8 + 8 * Z.of_nat n) by lia.
    rewrite Z.pow_add_r by lia. change (2 ^ 8) with 256. change (256 ^ 1) with 256.
    rewrite (Z.rem_mul_r d 256) by (try apply Z.pow_pos_nonneg; lia). lia.
Qed.

Lemma SetBytes_be_bytes_small n d :
  0 <= d < 2 ^ (8 * Z.of_nat n) -> SetBytes (be_bytes n d) = d.
Proof. intros H. rewrite SetBytes_be_bytes. now apply Z.mod_small. Qed.

Lemma to_nat_wordBytes : Z.to_nat wordBytes = 8%nat.
Proof. reflexivity. Qed.

(** The bytes of the words [ws], each word as eight bytes. *)
Lemma SetBytes_words ws :
  Forall (fun d => 0 <= d < 2 ^ wordBits) ws ->
  SetBytes (concat (map (be_bytes 8) (rev ws))) = words_value ws /\
  len (concat (map (be_bytes 8) (rev ws))) = 8 * len ws.
Proof.
  rewrite wordBits_eq.
  induction 1 as [|d ws Hd Hws IH]; cbn [rev map concat words_value].
  - split; reflexivity.
  - destruct IH as [IHv IHl].
    rewrite map_app, concat_app. cbn [map concat]. rewrite app_nil_r.
    rewrite SetBytes_app, len_app, IHv, IHl.
    assert (Hlb : len (be_bytes 8 d) = 8) by (unfold len; now rewrite length_be_bytes).
    rewrite Hlb, SetBytes_be_bytes_small by (change (2 ^ (8 * Z.of_nat 8)) with (2 ^ 64); lia).
    rewrite len_cons, wordBits_eq. change (256 ^ 8) with (2 ^ 64). split; lia.
Qed.

Lemma length_be_words l : length (concat (map (be_bytes 8) l)) = (8 * length l)%nat.
Proof.
  induction l as [|a l IH]; cbn [map concat]; [reflexivity|].
  rewrite length_app, length_be_bytes, IH. simpl. lia.
Qed.

Lemma pack_rest_words_splice n : forall w j fb buf,
  Z.of_nat n <= j + 1 -> j < len w -> 0 <= fb -> fb + 8 * Z.of_nat n < len buf ->
  pack_rest_words n w j fb buf =
    Ok (splice buf (Z.to_nat (fb + 1))
          (concat (map (be_bytes 8) (rev (take n (drop (Z.to_nat (j + 1 - Z.of_nat n)) w))))),
        fb + 8 * Z.of_nat n).
Proof.
  induction n as [|n IH]; intros w j fb buf Hj Hw Hfb Hbuf.
  - cbn [pack_rest_words take rev map concat]. rewrite splice_nil. repeat f_equal. lia.
  - cbn [pack_rest_words].
    assert (Hjn : 0 <= j) by lia.
    destruct (lookup_lt_is_Some_2 w (Z.to_nat j)) as [d Hd]; [unfold len in Hw; lia|].
    rewrite (item_lookup w j d Hjn Hd). cbn [mbind Res_bind].
    rewrite to_nat_wordBytes. change wordBytes with 8.
    rewrite put_word_bytes_splice by (change (Z.of_nat 8) with 8; lia).
    cbn [mbind Res_bind].
    change (Z.of_nat 8) with 8.
    replace (fb + 8 + 1 - 8) with (fb + 1) by lia.
    assert (Hlen1 : (Z.to_nat (fb + 1) + 8 <= length buf)%nat) by (unfold len in Hbuf; lia).
    rewrite IH; [|lia|lia|lia|].
    2:{ unfold len in *. rewrite length_splice by (rewrite length_be_bytes; lia). lia. }
    f_equal. f_equal; [|lia].
    replace (Z.to_nat (j - 1 + 1 - Z.of_nat n)) with (Z.to_nat (j + 1 - Z.of_nat (S n))) by lia.
    set (p := Z.to_nat (j + 1 - Z.of_nat (S n))).
    assert (Hdn : drop p w !! n = Some d).
    { rewrite lookup_drop. rewrite <- Hd. f_equal. unfold p. lia. }
    rewrite (take_S_r _ _ _ Hdn). rewrite rev_app_distr. cbn [rev app map concat].
    replace (Z.to_nat (fb + 8 + 1)) with (Z.to_nat (fb + 1) + length (be_bytes 8 d))%nat
      by (rewrite length_be_bytes; lia).
    rewrite splice_app; [reflexivity|].
    rewrite length_be_bytes.
    rewrite length_be_words, length_rev, length_take.
    unfold len in Hbuf. lia.
Qed.

Lemma pow256 k : 0 <= k -> 256 ^ k = 2 ^ (8 * k).
Proof. intros Hk. change 256 with (2 ^ 8). now rewrite <- Z.pow_mul_r by lia. Qed.

Lemma unpackBigint_cons fb M rest :
  len M = fb -> unpackBigint ((fb :: M) ++ rest) = Ok (SetBytes M, fb + 1).
Proof.
  intros HM. pose proof (len_nonneg M) as Hn.
  unfold unpackBigint. change ((fb :: M) ++ rest) with (fb :: M ++ rest).
  rewrite (item_lookup (fb :: M ++ rest) 0 fb) by (try reflexivity; lia).
  cbn [mbind Res_bind].
  rewrite slice_take_drop.
  2: lia.
  2: rewrite len_cons, len_app; pose proof (len_nonneg rest); lia.
  cbn [mbind Res_bind]. change (Z.to_nat 1) with 1%nat. cbn [drop]. rewrite drop_0.
  replace (Z.to_nat (fb + 1 - 1)) with (length M) by (unfold len in HM; lia).
  now rewrite take_app_length.
Qed.

Lemma normalized_snoc w :
  normalized w -> w <> [] ->
  exists w' w0, w = w' ++ [w0] /\ 0 < w0 < 2 ^ wordBits /\
    Forall (fun d => 0 <= d < 2 ^ wordBits) w'.
Proof.
  intros [Hr Hl] Hne.
  destruct (proj2 (last_is_Some w) Hne) as [w0 Hw0].
  destruct (proj1 (last_Some w w0) Hw0) as [w' ->].
  apply Forall_app in Hr. destruct Hr as [Hr' Hr0].
  apply Forall_cons in Hr0. destruct Hr0 as [Hr0 _].
  exists w', w0. split; [reflexivity|]. split; [|exact Hr'].
  rewrite Hw0 in Hl. assert (w0 <> 0) by congruence. lia.
Qed.

(** What [packBigint] writes for a list of words, and what [unpackBigint]
    reads back from it. *)
Lemma packBigint_words bi buf :
  maxPackedBigintBytes <= len buf ->
  exists buf' l,
    packBigint bi buf = Ok (buf', l) /\ 1 <= l <= maxPackedBigintBytes /\
    length buf' = length buf /\
    (Bits bi <> [] -> 256 ^ (l - 2) <= truncated bi < 256 ^ (l - 1)) /\
    (Bits bi = [] -> l = 1) /\
    forall rest, unpackBigint (take (Z.to_nat l) buf' ++ rest) = Ok (truncated bi, l).
Proof.
  intros Hbuf. unfold maxPackedBigintBytes in *.
  unfold packBigint, truncated.
  destruct (Bits_spec bi) as [Hnorm _].
  set (w := Bits bi) in *. clearbody w.
  assert (Hb1 : (0 + 1 <= length buf)%nat) by (unfold len in Hbuf; lia).
  destruct w as [|d0 w1] eqn:Hw.
  - (* zero *)
    cbn [len length Z.of_nat Z.eqb].
    rewrite set_item_splice by lia. cbn [mbind Res_bind].
    exists (splice buf (Z.to_nat 0) [0]), 1.
    split; [reflexivity|]. split; [lia|].
    split; [apply length_splice; exact Hb1|].
    split; [congruence|]. split; [reflexivity|].
    intros rest. change (Z.to_nat 0) with 0%nat. change (Z.to_nat 1) with (0 + length [0%Z])%nat.
    rewrite take_splice by exact Hb1. rewrite take_0, app_nil_l.
    rewrite (unpackBigint_cons 0 [] rest eq_refl). reflexivity.
  - rewrite <- Hw in *. assert (Hne : w <> []) by (rewrite Hw; discriminate). clear Hw d0 w1.
    destruct (normalized_snoc w Hnorm Hne) as (w' & w0 & -> & Hw0 & Hw').
    rewrite wordBits_eq in Hw0.
    rewrite len_app. change (len [w0]) with 1.
    pose proof (len_nonneg w') as Hlw'.
    destruct (Z.eqb_spec (len w' + 1) 0) as [|_]; [lia|].
    assert (Hlen' : len w' = Z.of_nat (length w')) by reflexivity.
    assert (Hlenb : len buf = Z.of_nat (length buf)) by reflexivity.
    rewrite (item_lookup (w' ++ [w0]) (len w' + 1 - 1) w0).
    2: lia.
    2:{ replace (Z.to_nat (len w' + 1 - 1)) with (length w') by lia.
        rewrite lookup_app_r by lia. now rewrite Nat.sub_diag. }
    cbn [mbind Res_bind].
    change (Z.shiftl 255 (wordBits - 8)) with (Z.shiftl 255 (8 * (8 - 1))).
    destruct (skip_leading_zeros_spec 8 w0 8 eq_refl) as (fb0 & Hskip & Hfb0 & Hw0b).
    { change (2 ^ (8 * 8)) with (2 ^ 64). lia. }
    rewrite Hskip.
    rewrite put_word_bytes_splice by lia. cbn [mbind Res_bind].
    replace (Z.to_nat (fb0 + 1 - Z.of_nat (Z.to_nat fb0))) with 1%nat by lia.
    set (B0 := be_bytes (Z.to_nat fb0) w0).
    assert (HlB0 : length B0 = Z.to_nat fb0) by apply length_be_bytes.
    change maxPackedBigintWords with 31.
    set (s := if 31 <? len w' + 1 then len w' + 1 - 31 else 0).
    assert (Hs : 0 <= s <= len w' /\ len w' - s <= 30).
    { unfold s. destruct (Z.ltb_spec 31 (len w' + 1)); lia. }
    set (n := Z.to_nat (len w' + 1 - 1 - s)).
    assert (Hn : Z.of_nat n = len w' - s) by lia.
    rewrite pack_rest_words_splice.
    2: lia.
    2: rewrite len_app; change (len [w0]) with 1; lia.
    2: lia.
    2:{ unfold len in *. rewrite length_splice by lia. lia. }
    cbn [mbind Res_bind].
    replace (Z.to_nat (len w' + 1 - 2 + 1 - Z.of_nat n)) with (Z.to_nat s) by lia.
    assert (HK : take n (drop (Z.to_nat s) (w' ++ [w0])) = drop (Z.to_nat s) w').
    { rewrite drop_app_le by (unfold len in Hs; lia).
      apply take_app_length'. rewrite length_drop. unfold len in *. lia. }
    rewrite HK. set (K := drop (Z.to_nat s) w').
    assert (HlK : len K = Z.of_nat n).
    { unfold K, len. rewrite length_drop. unfold len in *. lia. }
    assert (HrK : Forall (fun d => 0 <= d < 2 ^ wordBits) K) by (apply Forall_drop; exact Hw').
    destruct (SetBytes_words K HrK) as [HvK HlBK].
    set (BK := concat (map (be_bytes 8) (rev K))) in *.
    set (fb := fb0 + 8 * Z.of_nat n).
    assert (Hfb : 1 <= fb <= 248) by (unfold fb; lia).
    assert (HlBK' : length BK = (8 * n)%nat) by (unfold len in HlBK, HlK; lia).
    rewrite set_item_splice.
    2:{ unfold len in *. rewrite !length_splice; rewrite ?length_splice; lia. }
    cbn [mbind Res_bind]. rewrite to_byte_small by lia.
    (* the three writes as one *)
    replace (Z.to_nat (fb0 + 1)) with (1 + length B0)%nat by lia.
    rewrite splice_app by (unfold len in Hbuf; lia).
    change (Z.to_nat 0) with 0%nat.
    change 1%nat with (0 + length [fb])%nat at 1.
    rewrite splice_app_rev by (rewrite length_app; simpl; unfold len in Hbuf; lia).
    set (M := B0 ++ BK).
    assert (HlM : len M = fb).
    { unfold M, len, fb. rewrite length_app. lia. }
    assert (HlfM : (0 + length ([fb] ++ M) <= length buf)%nat).
    { rewrite length_app. simpl. unfold len in HlM, Hbuf. lia. }
    assert (Hkept : kept_words (w' ++ [w0]) = K ++ [w0]).
    { unfold kept_words. change (Z.to_nat maxPackedBigintWords) with 31%nat.
      replace (length (w' ++ [w0]) - 31)%nat with (Z.to_nat s).
      2:{ rewrite length_app. simpl. unfold s, len.
          destruct (Z.ltb_spec 31 (Z.of_nat (length w') + 1)); lia. }
      rewrite drop_app_le by (unfold len in Hs; lia). reflexivity. }
    assert (Hval : SetBytes M = words_value (kept_words (w' ++ [w0]))).
    { rewrite Hkept, words_value_app. unfold M. rewrite SetBytes_app, HvK, HlBK, HlK.
      unfold B0. rewrite SetBytes_be_bytes_small by (rewrite Z2Nat.id by lia; lia).
      cbn [words_value]. rewrite wordBits_eq, pow256 by lia.
      replace (8 * (8 * Z.of_nat n)) with (64 * Z.of_nat n) by lia. lia. }
    exists (splice buf 0 ([fb] ++ M)), (fb + 1).
    split; [reflexivity|]. split; [lia|].
    split; [apply length_splice; exact HlfM|].
    split; [|split].
    + intros _. rewrite <- Hval.
      unfold M. rewrite SetBytes_app, HvK, HlBK, HlK.
      unfold B0. rewrite SetBytes_be_bytes_small by (rewrite Z2Nat.id by lia; lia).
      pose proof (words_value_bound K HrK) as HbK. rewrite wordBits_eq, HlK in HbK.
      rewrite !pow256 by lia.
      replace (8 * (8 * Z.of_nat n)) with (64 * Z.of_nat n) by lia.
      replace (8 * (fb + 1 - 2)) with (8 * (fb0 - 1) + 64 * Z.of_nat n) by (unfold fb; lia).
      replace (8 * (fb + 1 - 1)) with (8 * fb0 + 64 * Z.of_nat n) by (unfold fb; lia).
      rewrite !Z.pow_add_r by lia.
      assert (0 < 2 ^ (64 * Z.of_nat n)) by (apply Z.pow_pos_nonneg; lia).
      nia.
    + intros Hnil. destruct w'; discriminate Hnil.
    + intros rest.
      replace (Z.to_nat (fb + 1)) with (0 + length ([fb] ++ M))%nat
        by (rewrite length_app; simpl; unfold len in HlM; lia).
      rewrite take_splice by exact HlfM. rewrite take_0, app_nil_l.
      change ([fb] ++ M) with (fb :: M).
      rewrite (unpackBigint_cons fb M rest HlM). now rewrite Hval.
Qed.

(** ** The codecs: what is read back *)

Lemma words_value_lower w :
  normalized w -> w <> [] -> 2 ^ (wordBits * (len w - 1)) <= words_value w.
Proof.
  intros Hn Hne. destruct (normalized_snoc w Hn Hne) as (w' & w0 & -> & Hw0 & Hw').
  rewrite words_value_app, len_app. change (len [w0]) with 1. cbn [words_value].
  pose proof (words_value_bound w' Hw') as Hb. pose proof (len_nonneg w') as Hl.
  rewrite wordBits_eq in *.
  replace (64 * (len w' + 1 - 1)) with (64 * len w') by lia.
  assert (0 < 2 ^ (64 * len w')) by (apply Z.pow_pos_nonneg; lia). nia.
Qed.

Lemma Bits_len_le bi : Z.abs bi < 2 ^ (wordBits * maxPackedBigintWords) -> len (Bits bi) <= maxPackedBigintWords.
Proof.
  intros Hb. destruct (Bits_spec bi) as [Hn Hv].
  destruct (Bits bi) as [|d w] eqn:Hw; [vm_compute; discriminate|].
  rewrite <- Hw in *. assert (Hne : Bits bi <> []) by (rewrite Hw; discriminate).
  pose proof (words_value_lower _ Hn Hne) as Hl. rewrite Hv in Hl.
  destruct (Z.le_gt_cases (len (Bits bi)) maxPackedBigintWords) as [|Hgt]; [assumption|exfalso].
  assert (2 ^ (wordBits * maxPackedBigintWords) <= 2 ^ (wordBits * (len (Bits bi) - 1))).
  { apply Z.pow_le_mono_r; [lia|]. rewrite wordBits_eq. lia. }
  lia.
Qed.

Lemma Bits_len_gt bi : 2 ^ (wordBits * maxPackedBigintWords) <= Z.abs bi -> maxPackedBigintWords < len (Bits bi).
Proof.
  intros Hb. destruct (Bits_spec bi) as [[Hr _] Hv].
  pose proof (words_value_bound _ Hr) as Hu. rewrite Hv in Hu.
  destruct (Z.lt_ge_cases maxPackedBigintWords (len (Bits bi))) as [|Hle]; [assumption|exfalso].
  assert (2 ^ (wordBits * len (Bits bi)) <= 2 ^ (wordBits * maxPackedBigintWords)).
  { apply Z.pow_le_mono_r; [lia|]. rewrite wordBits_eq. lia. }
  lia.
Qed.

(** A magnitude of at most [maxPackedBigintWords] words is kept whole. *)
Lemma truncated_small bi :
  Z.abs bi < 2 ^ (wordBits * maxPackedBigintWords) -> truncated bi = Z.abs bi.
Proof.
  intros Hb. pose proof (Bits_len_le bi Hb) as Hl.
  unfold truncated, kept_words.
  replace (length (Bits bi) - Z.to_nat maxPackedBigintWords)%nat with 0%nat
    by (unfold len in Hl; lia).
  rewrite drop_0. apply Bits_spec.
Qed.

(** Of a longer magnitude the low words are dropped. *)
Lemma truncated_large bi :
  2 ^ (wordBits * maxPackedBigintWords) <= Z.abs bi ->
  truncated bi = Z.abs bi / 2 ^ (wordBits * (len (Bits bi) - maxPackedBigintWords)).
Proof.
  intros Hb. pose proof (Bits_len_gt bi Hb) as Hl.
  destruct (Bits_spec bi) as [[Hr _] Hv].
  unfold truncated, kept_words. rewrite <- Hv.
  set (w := Bits bi) in *. set (k := (length w - Z.to_nat maxPackedBigintWords)%nat).
  rewrite <- (take_drop k w) at 2. rewrite words_value_app.
  assert (Hk : len (take k w) = len w - maxPackedBigintWords).
  { unfold len in *. rewrite length_take. unfold k. change maxPackedBigintWords with 31 in *. lia. }
  rewrite Hk.
  pose proof (words_value_bound (take k w) (Forall_take _ k _ Hr)) as Ht. rewrite Hk in Ht.
  assert (0 <= len w - maxPackedBigintWords) by lia.
  apply (Z.div_unique_pos _ _ _ (words_value (take k w))); lia.
Qed.

Lemma unpackUint_packUint i : 0 <= i < 2 ^ 32 -> unpackUint (packUint i) = Ok i.
Proof.
  intros Hi. rewrite <- (Z.mod_small i (2 ^ 32)) at 2 by lia.
  unfold unpackUint, packUint, item; simpl. f_equal. unfold to_byte.
  change 256 with (2 ^ 8). change 4294967296 with (2 ^ 32).
  Z.bitblast.
Qed.

Lemma unpackAddressKey_packAddressKey addrDesc height :
  addrDesc <> [] -> 0 <= height < 2 ^ 32 ->
  unpackAddressKey (packAddressKey addrDesc height) = Ok (addrDesc, height).
Proof.
  intros Hne Hh. unfold unpackAddressKey, packAddressKey.
  assert (Hl : 0 < len addrDesc) by (destruct addrDesc; [congruence|rewrite len_cons; pose proof (len_nonneg addrDesc); lia]).
  rewrite len_app. change (len (packUint height)) with 4. unfold packedHeightBytes.
  replace (len addrDesc + 4 - 4) with (len addrDesc) by lia.
  destruct (Z.leb_spec (len addrDesc) 0); [lia|].
  rewrite slice_to_take by (rewrite len_app; change (len (packUint height)) with 4; lia).
  cbn [mbind Res_bind].
  rewrite slice_take_drop by (rewrite ?len_app; change (len (packUint height)) with 4; lia).
  cbn [mbind Res_bind].
  replace (Z.to_nat (len addrDesc)) with (length addrDesc) by (unfold len; lia).
  rewrite drop_app_length, take_app_length.
  replace (Z.to_nat (len addrDesc + 4 - len addrDesc)) with 4%nat by lia.
  change (take 4 (packUint height)) with (packUint height).
  rewrite unpackUint_packUint by lia. reflexivity.
Qed.

(** C3, as stated, fails: the magnitude of [2 ^ 1984] has 249 bytes, and
    [packBigint] writes 242 bytes for it, not 249. *)
Lemma packBigint_truncation_counterexample :
  written (packBigint (2 ^ 1984) (make_bytes maxPackedBigintBytes)) = Some 242.
Proof. vm_compute. reflexivity. Qed.

(** C3, amended: for a non-negative big integer whose magnitude exceeds
    248 bytes, [packBigint] keeps the 31 most significant 64-bit words:
    it writes one length byte and the bytes of [bi / 2 ^ (64 * (lw - 31))]
    without leading zero bytes, [lw] being the number of words of [bi];
    that is between 242 and 249 bytes. [unpackBigint] reads that number
    back, with the number of bytes, and does not fail. *)
Theorem packBigint_truncates (bi : Z) (buf : list Z) :
  2 ^ 1984 <= bi -> maxPackedBigintBytes <= len buf ->
  exists buf' l,
    packBigint bi buf = Ok (buf', l) /\
    242 <= l <= 249 /\
    maxPackedBigintWords < len (Bits bi) /\
    truncated bi = bi / 2 ^ (64 * (len (Bits bi) - 31)) /\
    256 ^ (l - 2) <= truncated bi < 256 ^ (l - 1) /\
    unpackBigint buf' = Ok (truncated bi, l).
Proof.
  intros Hbi Hbuf.
  assert (Habs : Z.abs bi = bi) by lia.
  assert (Hbig : 2 ^ (wordBits * maxPackedBigintWords) <= Z.abs bi).
  { rewrite Habs. change (wordBits * maxPackedBigintWords) with 1984. exact Hbi. }
  pose proof (Bits_len_gt bi Hbig) as Hlw.
  pose proof (truncated_large bi Hbig) as Htr. rewrite Habs in Htr.
  change wordBits with 64 in Htr. change maxPackedBigintWords with 31 in Htr.
  destruct (packBigint_words bi buf Hbuf) as (buf' & l & Hp & Hl & Hlen & Hb & _ & Hu).
  assert (Hne : Bits bi <> []).
  { intros Hnil. rewrite Hnil in Hlw. vm_compute in Hlw. discriminate. }
  specialize (Hb Hne).
  exists buf', l. split; [exact Hp|].
  assert (Hlow : 2 ^ 1920 <= truncated bi).
  { rewrite Htr. destruct (Bits_spec bi) as [Hn Hv].
    pose proof (words_value_lower _ Hn Hne) as Hlo. rewrite Hv, Habs, wordBits_eq in Hlo.
    change maxPackedBigintWords with 31 in Hlw.
    set (k := len (Bits bi) - 31) in *.
    replace (64 * (len (Bits bi) - 1)) with (64 * k + 1920) in Hlo by (unfold k; lia).
    rewrite Z.pow_add_r in Hlo by lia.
    apply Z.div_le_lower_bound; [apply Z.pow_pos_nonneg; lia|]. lia. }
  assert (Hup : truncated bi < 2 ^ 1984).
  { rewrite Htr. destruct (Bits_spec bi) as [[Hr _] Hv].
    pose proof (words_value_bound _ Hr) as Hu'. rewrite Hv, Habs, wordBits_eq in Hu'.
    change maxPackedBigintWords with 31 in Hlw.
    set (k := len (Bits bi) - 31) in *.
    replace (64 * len (Bits bi)) with (64 * k + 1984) in Hu' by (unfold k; lia).
    rewrite Z.pow_add_r in Hu' by lia.
    apply Z.div_lt_upper_bound; [apply Z.pow_pos_nonneg; lia|]. lia. }
  split.
  { unfold maxPackedBigintBytes in Hl. split; [|lia].
    destruct (Z.le_gt_cases 242 l) as [|Hlt]; [assumption|exfalso].
    assert (256 ^ (l - 1) <= 2 ^ 1920).
    { rewrite pow256 by lia. apply Z.pow_le_mono_r; lia. }
    lia. }
  split; [exact Hlw|]. split; [exact Htr|]. split; [exact Hb|].
  specialize (Hu (drop (Z.to_nat l) buf')). now rewrite take_drop in Hu.
Qed.

Lemma packBigint_truncates_witness :
  exists buf' l,
    packBigint (2 ^ 1984 + 1) (make_bytes maxPackedBigintBytes) = Ok (buf', l) /\
    242 <= l <= 249 /\
    maxPackedBigintWords < len (Bits (2 ^ 1984 + 1)) /\
    truncated (2 ^ 1984 + 1) = (2 ^ 1984 + 1) / 2 ^ (64 * (len (Bits (2 ^ 1984 + 1)) - 31)) /\
    256 ^ (l - 2) <= truncated (2 ^ 1984 + 1) < 256 ^ (l - 1) /\
    unpackBigint buf' = Ok (truncated (2 ^ 1984 + 1), l).
Proof.
  apply (packBigint_truncates (2 ^ 1984 + 1) (make_bytes maxPackedBigintBytes)).
  - apply Z.le_succ_diag_r.
  - vm_compute. discriminate.
Defined.

(** C9, as stated, fails twice: the key built from the empty descriptor
    (a descriptor of at most 1024 bytes) is refused by [unpackAddressKey],
    and a negative big integer comes back as its magnitude. *)
Lemma codecs_round_trip_counterexample :
  unpackAddressKey (packAddressKey [] 7) = Err ErrInvalidAddressKey /\
  bigint_round_trip (-5) = Ok 5.
Proof. split; vm_compute; reflexivity. Qed.

(** C9, amended: unpack applied to what pack wrote returns the packed
    value for every u32 ([packUint]), every unsigned 64-bit value
    ([packVaruint]), every signed 64-bit value ([packVarint]), every
    non-negative big integer below [2 ^ 1984], that is of at most 248
    bytes ([packBigint]), and every address key built from a non-empty
    descriptor (of any length) and a u32 height ([packAddressKey]). The
    varints and big integers are read back from the buffer written,
    with the number of bytes written as the number of bytes read. *)
Theorem codecs_round_trip :
  (forall i, 0 <= i < 2 ^ 32 -> unpackUint (packUint i) = Ok i) /\
  (forall x buf, 0 <= x < 2 ^ 64 -> vlq.MaxLen64 <= len buf ->
     exists buf' l, packVaruint x buf = Ok (buf', l) /\ unpackVaruint buf' = (x, l)) /\
  (forall x buf, - 2 ^ 63 <= x < 2 ^ 63 -> vlq.MaxLen64 <= len buf ->
     exists buf' l, packVarint x buf = Ok (buf', l) /\ unpackVarint buf' = (x, l)) /\
  (forall bi buf, 0 <= bi < 2 ^ 1984 -> maxPackedBigintBytes <= len buf ->
     exists buf' l, packBigint bi buf = Ok (buf', l) /\ unpackBigint buf' = Ok (bi, l)) /\
  (forall addrDesc height, addrDesc <> [] -> 0 <= height < 2 ^ 32 ->
     unpackAddressKey (packAddressKey addrDesc height) = Ok (addrDesc, height)).
Proof.
  split; [exact unpackUint_packUint|].
  split.
  { intros x buf Hx Hbuf.
    destruct (unpackVaruint_packVaruint x buf Hx Hbuf) as (buf' & l & Hp & _ & _ & Hu).
    exists buf', l. split; [exact Hp|].
    specialize (Hu (drop (Z.to_nat l) buf')). now rewrite take_drop in Hu. }
  split.
  { intros x buf Hx Hbuf.
    destruct (unpackVarint_packVarint x buf Hx Hbuf) as (buf' & l & Hp & _ & _ & Hu).
    exists buf', l. split; [exact Hp|].
    specialize (Hu (drop (Z.to_nat l) buf')). now rewrite take_drop in Hu. }
  split; [|exact unpackAddressKey_packAddressKey].
  intros bi buf Hbi Hbuf.
  destruct (packBigint_words bi buf Hbuf) as (buf' & l & Hp & _ & _ & _ & _ & Hu).
  exists buf', l. split; [exact Hp|].
  specialize (Hu (drop (Z.to_nat l) buf')). rewrite take_drop in Hu. rewrite Hu.
  rewrite truncated_small; [now rewrite Z.abs_eq by lia|].
  rewrite Z.abs_eq by lia. change (wordBits * maxPackedBigintWords) with 1984. lia.
Qed.

Lemma codecs_round_trip_witness :
  unpackUint (packUint 16909060) = Ok 16909060 /\
  (exists buf' l, packVaruint 300 (make_bytes 10) = Ok (buf', l) /\ unpackVaruint buf' = (300, l)) /\
  (exists buf' l, packVarint (-3) (make_bytes 10) = Ok (buf', l) /\ unpackVarint buf' = (-3, l)) /\
  (exists buf' l, packBigint (2 ^ 64 + 5) (make_bytes 249) = Ok (buf', l) /\
     unpackBigint buf' = Ok (2 ^ 64 + 5, l)) /\
  unpackAddressKey (packAddressKey [65] 7) = Ok ([65], 7).
Proof.
  destruct codecs_round_trip as (H1 & H2 & H3 & H4 & H5).
  split; [apply H1; lia|].
  split; [apply H2; [lia|vm_compute; discriminate]|].
  split; [apply H3; [lia|vm_compute; discriminate]|].
  split; [apply H4; [split; [lia|reflexivity]|vm_compute; discriminate]|].
  apply H5; [discriminate|lia].
Defined.

(** ** The clean-up of old block-tx records *)

Lemma packUint_inj a b : 0 <= a < 2 ^ 32 -> 0 <= b < 2 ^ 32 -> packUint a = packUint b -> a = b.
Proof.
  intros Ha Hb H. apply (f_equal unpackUint) in H.
  rewrite !unpackUint_packUint in H by assumption. congruence.
Qed.

Lemma cols_DeleteCF_same d cf key : cols (DeleteCF d cf key) cf !! key = None.
Proof. cbn. unfold cols_delete. rewrite decide_True by reflexivity. apply lookup_delete_eq. Qed.

Lemma cols_DeleteCF_other d cf key cf' key' :
  (cf' = cf -> key' <> key) -> cols (DeleteCF d cf key) cf' !! key' = cols d cf' !! key'.
Proof.
  intros H. cbn. unfold cols_delete. destruct (decide (cf' = cf)) as [->|]; [|reflexivity].
  apply lookup_delete_ne. intros E. apply H; [reflexivity|]. symmetry. exact E.
Qed.

(** The loop started at [rh], where the records at [m..rh] are stored and
    not empty and the record at [m - 1] is not (or [m = 0]): it deletes
    the records at [m..rh] and nothing else. *)
Lemma cleanupBlockTxs_loop_run (n : nat) : forall fuel d height rh m,
  Z.of_nat n = rh - m -> 0 <= m -> rh < height -> height < 2 ^ 32 ->
  (Z.of_nat n + (if m =? 0 then 1 else 2) <= Z.of_nat fuel) ->
  (forall key, read_fails d cfBlockTxs key = false) ->
  (forall k, m <= k <= rh -> exists v, cols d cfBlockTxs !! packUint k = Some v /\ v <> []) ->
  (m = 0 \/ default [] (cols d cfBlockTxs !! packUint (m - 1)) = []) ->
  exists d', cleanupBlockTxs_loop fuel d height rh = (d', Ok tt) /\
    read_fails d' = read_fails d /\ write_fails d' = write_fails d /\
    (forall k, m <= k <= rh -> cols d' cfBlockTxs !! packUint k = None) /\
    (forall cf key, (cf = cfBlockTxs -> forall k, m <= k <= rh -> key <> packUint k) ->
       cols d' cf !! key = cols d cf !! key).
Proof.
  induction n as [|n IH]; intros fuel d height rh m Hn Hm Hrh Hh Hfuel Hread Hrec Hstop.
  - assert (rh = m) by lia. subst rh.
    destruct fuel as [|fuel]; [destruct (m =? 0); lia|].
    cbn [cleanupBlockTxs_loop]. destruct (Z.ltb_spec m height) as [_|]; [|lia].
    unfold GetCF at 1. rewrite Hread.
    destruct (Hrec m ltac:(lia)) as (v & Hv & Hne). rewrite Hv. cbn [default from_option id].
    destruct (Z.eqb_spec (len v) 0) as [E|_].
    { destruct v; [congruence|]. unfold len in E. cbn in E. lia. }
    assert (Hend : cleanupBlockTxs_loop fuel (DeleteCF d cfBlockTxs (packUint m)) height (wrap32 (m - 1))
                   = (DeleteCF d cfBlockTxs (packUint m), Ok tt)).
    { destruct Hstop as [->|Hstop].
      - change (wrap32 (0 - 1)) with (2 ^ 32 - 1).
        destruct fuel; cbn [cleanupBlockTxs_loop];
          (destruct (Z.ltb_spec (2 ^ 32 - 1) height); [lia|reflexivity]).
      - destruct (Z.eqb_spec m 0) as [->|Hm0].
        + change (wrap32 (0 - 1)) with (2 ^ 32 - 1).
          destruct fuel; cbn [cleanupBlockTxs_loop];
            (destruct (Z.ltb_spec (2 ^ 32 - 1) height); [lia|reflexivity]).
        + rewrite (wrap32_small (m - 1)) by lia.
          destruct fuel as [|fuel]; [lia|]. cbn [cleanupBlockTxs_loop].
          destruct (Z.ltb_spec (m - 1) height); [|lia].
          unfold GetCF. cbn [read_fails DeleteCF]. rewrite Hread.
          rewrite cols_DeleteCF_other.
          2:{ intros _ E. apply packUint_inj in E; lia. }
          rewrite Hstop. reflexivity. }
    rewrite Hend. eexists. split; [reflexivity|]. split; [reflexivity|]. split; [reflexivity|]. split.
    + intros k Hk. assert (k = m) by lia. subst k. apply cols_DeleteCF_same.
    + intros cf key Hkey. apply cols_DeleteCF_other. intros ->. apply Hkey; [reflexivity|lia].
  - destruct fuel as [|fuel]; [destruct (m =? 0); lia|].
    cbn [cleanupBlockTxs_loop]. destruct (Z.ltb_spec rh height) as [_|]; [|lia].
    unfold GetCF at 1. rewrite Hread.
    destruct (Hrec rh ltac:(lia)) as (v & Hv & Hne). rewrite Hv. cbn [default from_option id].
    destruct (Z.eqb_spec (len v) 0) as [E|_].
    { destruct v; [congruence|]. unfold len in E. cbn in E. lia. }
    rewrite (wrap32_small (rh - 1)) by lia.
    destruct (IH fuel (DeleteCF d cfBlockTxs (packUint rh)) height (rh - 1) m)
      as (d' & Hrun & Hrf & Hwf & Hdel & Hkeep); try lia.
    + intros key. apply Hread.
    + intros k Hk. destruct (Hrec k ltac:(lia)) as (w & Hw & Hwne). exists w. split; [|assumption].
      rewrite cols_DeleteCF_other; [assumption|].
      intros _ E. apply packUint_inj in E; lia.
    + destruct (Z.eq_dec m 0) as [Hm0|Hm0]; [left; exact Hm0|].
      destruct Hstop as [->|Hstop]; [left; reflexivity|right].
      rewrite cols_DeleteCF_other; [assumption|].
      intros _ E. apply packUint_inj in E; lia.
    + exists d'. split; [exact Hrun|]. split; [rewrite Hrf; reflexivity|].
      split; [rewrite Hwf; reflexivity|]. split.
      * intros k Hk. destruct (Z.eq_dec k rh) as [->|Hne'].
        -- rewrite Hkeep; [apply cols_DeleteCF_same|].
           intros _ k' Hk' E. apply packUint_inj in E; lia.
        -- apply Hdel. lia.
      * intros cf key Hkey. rewrite Hkeep.
        -- apply cols_DeleteCF_other. intros ->. apply Hkey; [reflexivity|lia].
        -- intros -> k Hk. apply Hkey; [reflexivity|lia].
Qed.

(** The loop started at a height whose record is missing or empty
    deletes nothing. *)
Lemma cleanupBlockTxs_loop_stop fuel d height rh :
  (forall key, read_fails d cfBlockTxs key = false) ->
  default [] (cols d cfBlockTxs !! packUint rh) = [] ->
  rh < height -> cleanupBlockTxs_loop (S fuel) d height rh = (d, Ok tt).
Proof.
  intros Hread Hstop Hrh. cbn [cleanupBlockTxs_loop].
  destruct (Z.ltb_spec rh height); [|lia].
  unfold GetCF. rewrite Hread, Hstop. reflexivity.
Qed.

(** The record at the height [h - r] is deleted: with the records at the
    heights 1, 2 and 3, the block at height 5 and the retention 2, the
    record at height 3 is gone after the call. *)
Lemma cleanup_deletes_boundary_record :
  cols (storeWithBlockTxs false) cfBlockTxs !! packUint 3 = Some [0; 3; 0] /\
  cols (fst (storeAndCleanupBlockTxs (chainParser := exampleParser true 2)
               (storeWithBlockTxs false) [] emptyBlock5)) cfBlockTxs !! packUint 3 = None.
Proof. vm_compute. split; reflexivity. Qed.

(** C2, as the code has it: for a block at height [h] and a retention [r]
    with [0 < r < h], [storeAndCleanupBlockTxs] adds the record of [h] to
    the batch and deletes from the store the records at the heights
    [h - r], [h - r - 1], ... down to [m], where [m - 1] is the first
    height going backward from [h - r] whose record is missing or empty
    (or [m = 0]). The record at [h - r] itself is deleted; no other key of
    any column changes. *)
Theorem storeAndCleanupBlockTxs_deletes {chainParser : bchain.BlockChainParser}
    (d : Store) (wb : WriteBatch) (block : bchain.Block) (buf : list Z) (m : Z) :
  bchain.Block_Height block < 2 ^ 32 ->
  0 < wrap32 bchain.KeepBlockAddresses < bchain.Block_Height block ->
  packBlockTxs (bchain.Block_Txs block) [] (make_bytes vlq.MaxLen64)
    (make_bytes bchain.PackedTxidLen) = Ok buf ->
  (forall key, read_fails d cfBlockTxs key = false) ->
  0 <= m <= bchain.Block_Height block - wrap32 bchain.KeepBlockAddresses + 1 ->
  (forall k, m <= k <= bchain.Block_Height block - wrap32 bchain.KeepBlockAddresses ->
     exists v, cols d cfBlockTxs !! packUint k = Some v /\ v <> []) ->
  (m = 0 \/ GetCF d cfBlockTxs (packUint (m - 1)) = Ok []) ->
  exists d',
    storeAndCleanupBlockTxs d wb block
      = (d', Ok (wb_PutCF wb cfBlockTxs (packUint (bchain.Block_Height block)) buf)) /\
    (forall k, m <= k <= bchain.Block_Height block - wrap32 bchain.KeepBlockAddresses ->
       cols d' cfBlockTxs !! packUint k = None) /\
    (forall cf key,
       (cf = cfBlockTxs ->
        forall k, m <= k <= bchain.Block_Height block - wrap32 bchain.KeepBlockAddresses ->
          key <> packUint k) ->
       cols d' cf !! key = cols d cf !! key).
Proof.
  intros Hh Hr Hpack Hread Hm Hrec Hstop.
  set (h := bchain.Block_Height block) in *. set (r := wrap32 bchain.KeepBlockAddresses) in *.
  unfold storeAndCleanupBlockTxs. rewrite Hpack. fold h. fold r.
  destruct (Z.ltb_spec r h) as [_|]; [|lia].
  rewrite (wrap32_small (h - r)) by lia.
  assert (Hstop' : m = 0 \/ default [] (cols d cfBlockTxs !! packUint (m - 1)) = []).
  { destruct Hstop as [?|Hstop]; [left; assumption|right].
    unfold GetCF in Hstop. rewrite Hread in Hstop. congruence. }
  destruct (Z.eq_dec m (h - r + 1)) as [Hm1|Hm1].
  - rewrite cleanupBlockTxs_loop_stop; try assumption; try lia.
    + exists d. split; [reflexivity|]. split; [intros k Hk; lia|]. reflexivity.
    + destruct Hstop' as [?|Hs]; [lia|]. rewrite Hm1 in Hs.
      replace (h - r + 1 - 1) with (h - r) in Hs by lia. exact Hs.
  - destruct (cleanupBlockTxs_loop_run (Z.to_nat (h - r - m)) (S (Z.to_nat (h - r))) d h (h - r) m)
      as (d' & Hrun & _ & _ & Hdel & Hkeep); try assumption; try lia.
    + destruct (m =? 0) eqn:E; lia.
    + rewrite Hrun. exists d'. split; [reflexivity|]. split; assumption.
Qed.

Lemma storeAndCleanupBlockTxs_deletes_witness :
  exists d',
    storeAndCleanupBlockTxs (chainParser := exampleParser true 2) (storeWithBlockTxs false) [] emptyBlock5
      = (d', Ok (wb_PutCF [] cfBlockTxs (packUint 5) [])) /\
    (forall k, 1 <= k <= 5 - 2 -> cols d' cfBlockTxs !! packUint k = None) /\
    (forall cf key,
       (cf = cfBlockTxs -> forall k, 1 <= k <= 5 - 2 -> key <> packUint k) ->
       cols d' cf !! key = cols (storeWithBlockTxs false) cf !! key).
Proof.
  apply (storeAndCleanupBlockTxs_deletes (chainParser := exampleParser true 2)
           (storeWithBlockTxs false) [] emptyBlock5 [] 1).
  - vm_compute. reflexivity.
  - vm_compute. split; reflexivity.
  - reflexivity.
  - intros key. reflexivity.
  - vm_compute. split; discriminate.
  - intros k Hk. change (bchain.Block_Height emptyBlock5 - wrap32 bchain.KeepBlockAddresses) with 3 in Hk.
    assert (Hc : k = 1 \/ k = 2 \/ k = 3) by lia.
    destruct Hc as [-> | [-> | ->]]; eexists; (split; [vm_compute; reflexivity|discriminate]).
  - right. vm_compute. reflexivity.
Defined.

(** ** writeBlock and the batch *)

(** C1: the clean-up of [storeAndCleanupBlockTxs] is not part of the
    batch. With the records at the heights 1, 2 and 3 and a store whose
    [Write] fails, connecting the block at height 5 returns the error of
    the write, and the three old records are gone: the store has changed
    although the batch was not applied. *)
Lemma writeBlock_cleanup_outside_batch :
  dump (storeWithBlockTxs true) =
    [[]; []; []; []; [];
     [([0; 0; 0; 3], [0; 3; 0]); ([0; 0; 0; 1], [0; 1; 0]); ([0; 0; 0; 2], [0; 2; 0])]; []] /\
  snd (ConnectBlock (chainParser := exampleParser true 2)
         (mkRocksDB (storeWithBlockTxs true) 4) emptyBlock5) = Err ErrStore /\
  dump (db (fst (ConnectBlock (chainParser := exampleParser true 2)
                   (mkRocksDB (storeWithBlockTxs true) 4) emptyBlock5))) =
    [[]; []; []; []; []; []; []].
Proof. vm_compute. repeat split; reflexivity. Qed.
(** ** The decoders on short records *)

(** C4: [unpackTxAddresses] has no error result, and on a record cut
    short it panics: the record [0; 1; 5] announces one input whose
    address has five bytes and holds none of them. The same holds for a
    balance record, for [unpackBigint] and for [unpackUint]: the slice
    and index expressions of the decoders are not guarded. *)
Lemma decoders_panic_on_short_records :
  unpackTxAddresses [0; 1; 5] = Panic SliceBoundsOutOfRange /\
  getTxAddresses (exampleStore [(cfTxAddresses, [0; 1], [0; 1; 5])] false) [0; 1]
    = Panic SliceBoundsOutOfRange /\
  GetAddrDescBalance (exampleStore [(cfAddressBalance, [65], [1; 5; 0])] false) [65]
    = Panic SliceBoundsOutOfRange /\
  unpackBigint [] = Panic IndexOutOfRange /\
  unpackUint [0; 0; 1] = Panic IndexOutOfRange.
Proof. vm_compute. repeat split; reflexivity. Qed.

(** ** Disconnecting a range of blocks *)

Section Disconnect.

Context {chainParser : bchain.BlockChainParser}.

Lemma getBlockTxs_loop_acc fuel : forall buf i bt r,
  getBlockTxs_loop fuel buf i bt = Ok r -> (length bt <= length r)%nat.
Proof.
  induction fuel as [|fuel IH]; intros buf i bt r H.
  - cbn [getBlockTxs_loop] in H. destruct (i <? len buf); [discriminate|].
    injection H as <-. lia.
  - cbn [getBlockTxs_loop] in H. destruct (i <? len buf).
    2:{ injection H as <-. lia. }
    destruct (len buf - i <? bchain.PackedTxidLen); [discriminate|].
    destruct (slice_from buf i) as [b| | |]; try discriminate. cbn [mbind Res_bind] in H.
    destruct (slice_from buf (i + bchain.PackedTxidLen)) as [b'| | |]; try discriminate.
    cbn [mbind Res_bind] in H.
    destruct (unpackNOutpoints b') as [[o ol]| | |]; try discriminate.
    apply IH in H. rewrite length_app in H. cbn [length] in H. lia.
Qed.

(** A record that is not empty and decodes holds a transaction. *)
Lemma getBlockTxs_nonempty d height bt :
  GetCF d cfBlockTxs (packUint height) <> Ok [] ->
  getBlockTxs d height = Ok bt -> len bt <> 0.
Proof.
  intros Hne H. unfold getBlockTxs in H.
  destruct (GetCF d cfBlockTxs (packUint height)) as [buf| | |]; try discriminate.
  cbn [mbind Res_bind] in H.
  destruct buf as [|x buf]; [congruence|].
  cbn [getBlockTxs_loop] in H.
  destruct (0 <? len (x :: buf)) eqn:E.
  2:{ apply Z.ltb_ge in E. unfold len in E. cbn [length] in E. lia. }
  destruct (len (x :: buf) - 0 <? bchain.PackedTxidLen); [discriminate|].
  destruct (slice_from (x :: buf) 0) as [b| | |]; try discriminate. cbn [mbind Res_bind] in H.
  destruct (slice_from (x :: buf) (0 + bchain.PackedTxidLen)) as [b'| | |]; try discriminate.
  cbn [mbind Res_bind] in H.
  destruct (unpackNOutpoints b') as [[o ol]| | |]; try discriminate.
  apply getBlockTxs_loop_acc in H. unfold len. rewrite length_app in H. cbn [length] in H. lia.
Qed.

Lemma getBlockTxs_missing d height :
  GetCF d cfBlockTxs (packUint height) = Ok [] -> getBlockTxs d height = Ok [].
Proof. intros H. unfold getBlockTxs. rewrite H. reflexivity. Qed.

(** The first loop stops at the first height [h] without a record. *)
Lemma loadBlockTxs_missing d lower higher h (n : nat) : forall fuel height blocks,
  Z.of_nat n = h - height -> 0 <= lower <= height -> h <= higher -> higher < 2 ^ 32 ->
  (n < fuel)%nat -> len blocks = higher - lower + 1 ->
  GetCF d cfBlockTxs (packUint h) = Ok [] ->
  (forall k, lower <= k < h ->
     GetCF d cfBlockTxs (packUint k) <> Ok [] /\ is_Ok (getBlockTxs d k) = true) ->
  loadBlockTxs fuel d lower higher height blocks = Err (ErrRebuildIndex h).
Proof.
  induction n as [|n IH]; intros fuel height blocks Hn Hlo Hhi Hmax Hfuel Hlen Hmiss Hrec;
    (destruct fuel as [|fuel]; [lia|]); cbn [loadBlockTxs];
    (destruct (Z.leb_spec height higher); [|lia]).
  - assert (height = h) by lia. subst height.
    rewrite (getBlockTxs_missing _ _ Hmiss). reflexivity.
  - destruct (Hrec height ltac:(lia)) as [Hne Hok].
    destruct (getBlockTxs d height) as [bt| | |] eqn:Hbt; try discriminate.
    pose proof (getBlockTxs_nonempty _ _ _ Hne Hbt) as Hbt0.
    cbn [mbind Res_bind]. destruct (Z.eqb_spec (len bt) 0); [contradiction|].
    rewrite (wrap32_small (height - lower)) by lia.
    unfold set_item.
    destruct (Z.leb_spec 0 (height - lower)); [|lia].
    destruct (Z.ltb_spec (height - lower) (len blocks)); [|lia].
    cbn [andb mbind Res_bind]. rewrite (wrap32_small (height + 1)) by lia.
    apply IH; try assumption; try lia.
    unfold len in *. rewrite length_insert. exact Hlen.
Qed.

End Disconnect.

(** A record that does not decode goes before a missing one: with a
    record of one byte at height 1 and none at height 2, disconnecting
    the heights 1 to 2 returns the error of the decoder, which names no
    height. *)
Lemma disconnect_undecodable_before_missing :
  GetCF (exampleStore [(cfBlockTxs, packUint 1, [7])] false) cfBlockTxs (packUint 2) = Ok [] /\
  snd (DisconnectBlockRangeUTXO (chainParser := exampleParser true 2)
         (exampleStore [(cfBlockTxs, packUint 1, [7])] false) 1 2) = Err ErrInconsistentBlockTxs.
Proof. vm_compute. split; reflexivity. Qed.

(** C5, as the code has it: when [h] is the lowest height of the range
    [lower..higher] whose block-tx record is missing or empty, and the
    records of the heights below it in the range are read and decoded,
    [DisconnectBlockRangeUTXO] returns the error that names [h], and the
    store it leaves is the store it was given. *)
Theorem DisconnectBlockRangeUTXO_missing_record {chainParser : bchain.BlockChainParser}
    (d : Store) (lower higher h : Z) :
  0 <= lower -> lower <= h <= higher -> higher < 2 ^ 32 -> higher - lower + 1 < 2 ^ 32 ->
  GetCF d cfBlockTxs (packUint h) = Ok [] ->
  (forall k, lower <= k < h ->
     GetCF d cfBlockTxs (packUint k) <> Ok [] /\ is_Ok (getBlockTxs d k) = true) ->
  DisconnectBlockRangeUTXO d lower higher = (d, Err (ErrRebuildIndex h)).
Proof.
  intros Hlo Hh Hmax Hrange Hmiss Hrec. unfold DisconnectBlockRangeUTXO.
  assert (Hlen : len (emptyBlocks lower higher) = higher - lower + 1).
  { unfold emptyBlocks, len. rewrite length_replicate, wrap32_small by lia. lia. }
  rewrite (loadBlockTxs_missing d lower higher h (Z.to_nat (h - lower))); try assumption; try lia.
  - reflexivity.
  - unfold len in Hlen. lia.
Qed.

Lemma DisconnectBlockRangeUTXO_missing_record_witness :
  DisconnectBlockRangeUTXO (chainParser := exampleParser true 2) (db storeAfterBlock1) 0 3
    = (db storeAfterBlock1, Err (ErrRebuildIndex 2)).
Proof.
  apply (DisconnectBlockRangeUTXO_missing_record (chainParser := exampleParser true 2)
           (db storeAfterBlock1) 0 3 2).
  - lia.
  - lia.
  - reflexivity.
  - reflexivity.
  - vm_compute. reflexivity.
  - intros k Hk. assert (Hc : k = 0 \/ k = 1) by lia.
    destruct Hc as [-> | ->]; (split; [vm_compute; discriminate|vm_compute; reflexivity]).
Defined.

(** ** The descending loop of the disconnect *)


(** With [lower = 0] the condition of the loop always holds: after the
    round of the height 0 the counter is [2^32 - 1], and the index of the
    block is out of range. *)
Lemma disconnectHeights_wraps d blocks (n : nat) : forall fuel height st rounds,
  Z.of_nat n = height + 1 -> 0 <= height < len blocks -> len blocks < 2 ^ 32 -> (S n <= fuel)%nat ->
  exists k r,
    disconnectHeights fuel d 0 height blocks st rounds = ((rounds + k)%nat, r) /\
    (k <= n)%nat /\
    (k = n -> r = Panic IndexOutOfRange) /\
    ((k < n)%nat ->
       is_Ok r = false /\
       exists st', r = disconnectHeight d 0 (height - Z.of_nat k) blocks st').
Proof.
  induction n as [|n IH]; intros fuel height st rounds Hn Hlen Hmax Hfuel;
    (destruct fuel as [|fuel]; [lia|]).
  - lia.
  - cbn [disconnectHeights]. destruct (Z.leb_spec 0 height); [|lia].
    destruct (disconnectHeight d 0 height blocks st) as [st1| | |] eqn:Hbody.
    + destruct (Z.eq_dec height 0) as [->|Hne].
      * change (wrap32 (0 - 1)) with (2 ^ 32 - 1).
        assert (Hpanic : forall st2, disconnectHeight d 0 (2 ^ 32 - 1) blocks st2 = Panic IndexOutOfRange).
        { intros st2. unfold disconnectHeight.
          change (wrap32 (2 ^ 32 - 1 - 0)) with (2 ^ 32 - 1).
          rewrite item_out_of_range by lia. reflexivity. }
        destruct fuel as [|fuel]; [lia|]. cbn [disconnectHeights].
        destruct (Z.leb_spec 0 (2 ^ 32 - 1)); [|lia]. rewrite Hpanic.
        exists 1%nat, (Panic IndexOutOfRange).
        split; [f_equal; lia|]. split; [lia|]. split; [reflexivity|]. lia.
      * rewrite (wrap32_small (height - 1)) by lia.
        destruct (IH fuel (height - 1) st1 (S rounds)) as (k & r & Hrun & Hk & Hok & Hfail); try lia.
        exists (S k), r. rewrite Hrun. split; [f_equal; lia|]. split; [lia|]. split.
        -- intros E. apply Hok. lia.
        -- intros Hlt. destruct (Hfail ltac:(lia)) as (Hnok & st' & Hst'). split; [assumption|].
           exists st'. rewrite Hst'. f_equal. lia.
    + exists 0%nat, (Err e). rewrite Nat.add_0_r, Z.sub_0_r.
      split; [reflexivity|]. split; [lia|]. split; [lia|]. intros _. split; [reflexivity|].
      exists st. symmetry. exact Hbody.
    + exists 0%nat, (Panic k). rewrite Nat.add_0_r, Z.sub_0_r.
      split; [reflexivity|]. split; [lia|]. split; [lia|]. intros _. split; [reflexivity|].
      exists st. symmetry. exact Hbody.
    + exists 0%nat, Diverges. rewrite Nat.add_0_r, Z.sub_0_r.
      split; [reflexivity|]. split; [lia|]. split; [lia|]. intros _. split; [reflexivity|].
      exists st. symmetry. exact Hbody.
Qed.



(** The two loops on the example: the loaded blocks are those of the
    fixture, and the loop from the height 0 panics after two rounds. *)
Example disconnect_from_genesis_panics :
  loadBlockTxs (chainParser := exampleParser true 2) 3 (db storeAfterBlock1) 0 1 0 (emptyBlocks 0 1)
    = Ok loadedBlocks01 /\
  disconnectHeights 3 (db storeAfterBlock1) 0 1
    loadedBlocks01 (mkDS [] ∅ ∅ ∅) 0 = (2%nat, Panic IndexOutOfRange) /\
  snd (DisconnectBlockRangeUTXO (chainParser := exampleParser true 2) (db storeAfterBlock1) 0 1)
    = Panic IndexOutOfRange.
Proof. vm_compute. repeat split; reflexivity. Qed.
(** ** Connecting a block: the outputs of a transaction *)

Lemma processedInTx_spec o btxID : processedInTx o btxID = bool_decide (btxID ∈ txids o).
Proof.
  unfold txids. induction o as [|op o IH]; cbn [processedInTx map list_to_set foldr].
  - rewrite bool_decide_eq_false_2; [reflexivity|]. apply not_elem_of_empty.
  - destruct (bool_decide_reflect (btxID = outpoint.btxID op)) as [->|Hne].
    + rewrite bool_decide_eq_true_2; [reflexivity|]. apply elem_of_union_l, elem_of_singleton. reflexivity.
    + rewrite IH. apply bool_decide_ext. rewrite elem_of_union, elem_of_singleton. tauto.
Qed.

Lemma txids_app o op : txids (o ++ [op]) = txids o ∪ {[outpoint.btxID op]}.
Proof.
  unfold txids. rewrite map_app, list_to_set_app_L. cbn [map list_to_set foldr].
  rewrite (right_id_L ∅ (∪)). reflexivity.
Qed.

Lemma processedInTx_app o op :
  processedInTx (o ++ [op]) (outpoint.btxID op) = true.
Proof.
  rewrite processedInTx_spec. apply bool_decide_eq_true_2.
  rewrite txids_app. apply elem_of_union_r, elem_of_singleton. reflexivity.
Qed.

Lemma heap_update_output h ptr ta i f tao :
  h !! ptr = Some ta -> 0 <= i -> TxAddresses.Outputs ta !! Z.to_nat i = Some tao ->
  heap_update h ptr (update_output i f)
    = Ok (<[ptr := TxAddresses.mk (TxAddresses.Height ta) (TxAddresses.Inputs ta)
                     (<[Z.to_nat i := f tao]> (TxAddresses.Outputs ta))]> h).
Proof.
  intros Hp Hi Ho. unfold heap_update, update_output. rewrite Hp.
  rewrite (item_lookup _ _ _ Hi Ho). cbn [mbind Res_bind].
  unfold set_item. pose proof (lookup_lt_Some _ _ _ Ho) as Hlt.
  destruct (Z.leb_spec 0 i); [|lia].
  destruct (Z.ltb_spec i (len (TxAddresses.Outputs ta))) as [_|Hge]; [|unfold len in Hge; lia].
  reflexivity.
Qed.

Section ConnectOutputs.

Context {chainParser : bchain.BlockChainParser}.

(** One output: the value goes to the record; the address, the index
    entry and the balance only for a descriptor that is indexed. *)
Lemma processOutput_spec d btxID ptr st i output st' ta tao :
  heap st !! ptr = Some ta -> 0 <= i -> TxAddresses.Outputs ta !! Z.to_nat i = Some tao ->
  processOutput d btxID ptr st i output = Ok st' ->
  txAddressesMap st' = txAddressesMap st /\
  heap st' = <[ptr := TxAddresses.mk (TxAddresses.Height ta) (TxAddresses.Inputs ta)
                 (<[Z.to_nat i := TxOutput.mk (default (TxOutput.AddrDesc tao) (validAddrDesc output))
                                    (TxOutput.Spent tao) (bchain.Vout_ValueSat output)]>
                    (TxAddresses.Outputs ta))]> (heap st) /\
  match validAddrDesc output with
  | None => addresses st' = addresses st /\ balances st' = balances st
  | Some a =>
      exists ab0, loadBalance d (balances st) a = Ok ab0 /\
        addresses st' = <[a := default [] (addresses st !! a) ++ [outpoint.mk btxID (to_int32 i)]]>
                          (addresses st) /\
        balances st' =
          <[a := AddrBalance.mk
                   (if processedInTx (default [] (addresses st !! a)) btxID
                    then AddrBalance.Txs ab0 else wrap32 (AddrBalance.Txs ab0 + 1))
                   (AddrBalance.SentSat ab0)
                   (AddrBalance.BalanceSat ab0 + bchain.Vout_ValueSat output)]> (balances st)
  end.
Proof.
  intros Hp Hi Ho H. unfold processOutput in H.
  rewrite (heap_update_output _ _ _ _ _ _ Hp Hi Ho) in H. cbn [mbind Res_bind] in H.
  unfold validAddrDesc.
  destruct (bchain.GetAddrDescFromVout output) as [addrDesc|e| |]; try discriminate.
  - destruct ((len addrDesc =? 0) || (maxAddrDescLen <? len addrDesc)).
    + injection H as <-. cbn. auto.
    + cbn [set_heap heap addresses balances txAddressesMap] in H.
      erewrite heap_update_output in H; [| apply list_lookup_insert_eq; eapply lookup_lt_Some; exact Hp
                                         | exact Hi
                                         | cbn; apply list_lookup_insert_eq; eapply lookup_lt_Some; exact Ho].
      cbn [mbind Res_bind TxAddresses.Height TxAddresses.Inputs TxAddresses.Outputs
           TxOutput.AddrDesc TxOutput.Spent TxOutput.ValueSat] in H.
      destruct (loadBalance d (balances st) addrDesc) as [ab0| | |]; try discriminate.
      cbn [mbind Res_bind] in H. injection H as <-. cbn.
      split; [reflexivity|]. split.
      * rewrite list_insert_insert_eq. f_equal. f_equal. apply list_insert_insert_eq.
      * exists ab0. split; [reflexivity|]. split.
        -- reflexivity.
        -- destruct (addresses st !! addrDesc); reflexivity.
  - injection H as <-. cbn. auto.
Qed.

Lemma loadBalance_lookup d b1 b2 a : b1 !! a = b2 !! a -> loadBalance d b1 a = loadBalance d b2 a.
Proof. intros E. unfold loadBalance. rewrite E. reflexivity. Qed.

Lemma value_for_none a btxID outs : forall i,
  outpoints_for a btxID i outs = [] -> value_for a outs = 0.
Proof.
  induction outs as [|o outs IHo]; intros j Hops.
  - reflexivity.
  - cbn [outpoints_for value_for] in *.
    destruct (bool_decide (validAddrDesc o = Some a)); [discriminate|].
    cbn [app] in Hops. specialize (IHo _ Hops). lia.
Qed.

(** The loop over the outputs of a transaction, from the output [i]: the
    record of the transaction holds the outputs done in [pre] and zero
    values for the rest. *)
Lemma processOutputs_spec d btxID ptr : forall outs st i st' ta pre,
  heap st !! ptr = Some ta -> len pre = i ->
  TxAddresses.Outputs ta = pre ++ replicate (length outs) TxOutput.zero ->
  processOutputs d btxID ptr st i outs = Ok st' ->
  txAddressesMap st' = txAddressesMap st /\
  heap st' = <[ptr := TxAddresses.mk (TxAddresses.Height ta) (TxAddresses.Inputs ta)
                 (pre ++ map (fun output =>
                                TxOutput.mk (default [] (validAddrDesc output)) false
                                  (bchain.Vout_ValueSat output)) outs)]> (heap st) /\
  forall a,
    match outpoints_for a btxID i outs with
    | [] => addresses st' !! a = addresses st !! a /\ balances st' !! a = balances st !! a
    | ops =>
        exists ab0, loadBalance d (balances st) a = Ok ab0 /\
          addresses st' !! a = Some (default [] (addresses st !! a) ++ ops) /\
          balances st' !! a =
            Some (AddrBalance.mk
                    (if processedInTx (default [] (addresses st !! a)) btxID
                     then AddrBalance.Txs ab0 else wrap32 (AddrBalance.Txs ab0 + 1))
                    (AddrBalance.SentSat ab0)
                    (AddrBalance.BalanceSat ab0 + value_for a outs))
    end.
Proof.
  induction outs as [|output outs IH]; intros st i st' ta pre Hp Hi Ho H.
  - cbn in H. injection H as <-. split; [reflexivity|]. split.
    + cbn [map]. cbn [length replicate] in Ho. rewrite <- Ho.
      destruct ta. cbn. symmetry. apply list_insert_id. exact Hp.
    + intros a. cbn. auto.
  - cbn [processOutputs] in H.
    destruct (processOutput d btxID ptr st i output) as [st1| | |] eqn:Hstep; try discriminate.
    cbn [mbind Res_bind] in H.
    assert (Hi0 : 0 <= i) by (pose proof (len_nonneg pre); lia).
    assert (Hnat : Z.to_nat i = length pre) by (unfold len in Hi; lia).
    assert (Hz : TxAddresses.Outputs ta !! Z.to_nat i = Some TxOutput.zero).
    { rewrite Ho, Hnat, lookup_app_r, Nat.sub_diag by lia. reflexivity. }
    destruct (processOutput_spec _ _ _ _ _ _ _ _ _ Hp Hi0 Hz Hstep) as (Hmap1 & Hheap1 & Hab1).
    cbn [TxOutput.AddrDesc TxOutput.Spent TxOutput.zero] in Hheap1.
    set (rec := TxOutput.mk (default [] (validAddrDesc output)) false (bchain.Vout_ValueSat output)) in *.
    assert (Houts1 : <[Z.to_nat i := rec]> (TxAddresses.Outputs ta)
                     = (pre ++ [rec]) ++ replicate (length outs) TxOutput.zero).
    { rewrite Ho, Hnat. cbn [length replicate].
      rewrite insert_app_r_alt, Nat.sub_diag by lia. cbn. rewrite <- app_assoc. reflexivity. }
    rewrite Houts1 in Hheap1.
    assert (Hp1 : heap st1 !! ptr = Some (TxAddresses.mk (TxAddresses.Height ta) (TxAddresses.Inputs ta)
                    ((pre ++ [rec]) ++ replicate (length outs) TxOutput.zero))).
    { rewrite Hheap1. apply list_lookup_insert_eq. eapply lookup_lt_Some. exact Hp. }
    destruct (IH st1 (i + 1) st' _ (pre ++ [rec]) Hp1) as (Hmap2 & Hheap2 & Hab2).
    { rewrite len_app. change (len [rec]) with 1. lia. }
    { reflexivity. }
    { exact H. }
    split; [congruence|]. split.
    { rewrite Hheap2, Hheap1, list_insert_insert_eq. cbn [map TxAddresses.Height TxAddresses.Inputs].
      rewrite <- app_assoc. reflexivity. }
    intros a. specialize (Hab2 a). cbn [outpoints_for value_for].
    destruct (bool_decide_reflect (validAddrDesc output = Some a)) as [Hv|Hv].
    + rewrite Hv in Hab1. destruct Hab1 as (ab0 & Hload & Hadr1 & Hbal1).
      cbn [app]. exists ab0. split; [exact Hload|].
      assert (Ha1 : addresses st1 !! a
                    = Some (default [] (addresses st !! a) ++ [outpoint.mk btxID (to_int32 i)])).
      { rewrite Hadr1. apply lookup_insert_eq. }
      destruct (outpoints_for a btxID (i + 1) outs) as [|op ops] eqn:Hops.
      * destruct Hab2 as [Hadr2 Hbal2]. rewrite Hadr2, Hbal2, Ha1, Hbal1, lookup_insert_eq.
        split; [reflexivity|]. do 2 f_equal.
        rewrite (value_for_none _ _ _ _ Hops). lia.
      * destruct Hab2 as (ab1 & Hload1 & Hadr2 & Hbal2).
        unfold loadBalance in Hload1. rewrite Hbal1, lookup_insert_eq in Hload1.
        injection Hload1 as <-.
        rewrite Hadr2, Hbal2, Ha1. cbn [default from_option id].
        rewrite <- app_assoc. split; [reflexivity|].
        pose proof (processedInTx_app (default [] (addresses st !! a)) (outpoint.mk btxID (to_int32 i))) as Hproc.
        cbn [outpoint.btxID] in Hproc. rewrite Hproc.
        cbn [AddrBalance.Txs AddrBalance.SentSat AddrBalance.BalanceSat].
        do 2 f_equal. lia.
    + cbn [app]. rewrite Z.add_0_l.
      assert (Ha1 : addresses st1 !! a = addresses st !! a /\ balances st1 !! a = balances st !! a).
      { destruct (validAddrDesc output) as [a0|].
        - destruct Hab1 as (ab0 & _ & -> & ->).
          assert (a0 <> a) by congruence.
          rewrite !lookup_insert_ne by assumption. auto.
        - destruct Hab1 as [-> ->]. auto. }
      destruct Ha1 as [Ha1 Hb1].
      rewrite (loadBalance_lookup d _ _ a Hb1), Ha1, Hb1 in Hab2. exact Hab2.
Qed.

(** The outputs of one transaction of the block. *)
Lemma processTxOutputs_spec d height st tx st' btxID ptr :
  processTxOutputs d height st tx = Ok (st', (btxID, ptr)) ->
  bchain.PackTxid (bchain.Tx_Txid tx) = Ok btxID /\
  ptr = length (heap st) /\
  txAddressesMap st' = <[btxID := ptr]> (txAddressesMap st) /\
  heap st' = heap st ++
    [TxAddresses.mk height []
       (map (fun output =>
               TxOutput.mk (default [] (validAddrDesc output)) false (bchain.Vout_ValueSat output))
          (bchain.Tx_Vout tx))] /\
  forall a,
    match outpoints_for a btxID 0 (bchain.Tx_Vout tx) with
    | [] => addresses st' !! a = addresses st !! a /\ balances st' !! a = balances st !! a
    | ops =>
        exists ab0, loadBalance d (balances st) a = Ok ab0 /\
          addresses st' !! a = Some (default [] (addresses st !! a) ++ ops) /\
          balances st' !! a =
            Some (AddrBalance.mk
                    (if processedInTx (default [] (addresses st !! a)) btxID
                     then AddrBalance.Txs ab0 else wrap32 (AddrBalance.Txs ab0 + 1))
                    (AddrBalance.SentSat ab0)
                    (AddrBalance.BalanceSat ab0 + value_for a (bchain.Tx_Vout tx)))
    end.
Proof.
  intros H. unfold processTxOutputs in H.
  destruct (bchain.PackTxid (bchain.Tx_Txid tx)) as [b| | |]; try discriminate.
  cbn [mbind Res_bind] in H.
  match type of H with context [processOutputs ?d ?b ?p ?s ?i ?o] =>
    destruct (processOutputs d b p s i o) as [st1| | |] eqn:Hloop; try discriminate
  end.
  cbn [mbind Res_bind] in H. injection H as -> -> <-.
  set (ta0 := TxAddresses.mk height [] (replicate (length (bchain.Tx_Vout tx)) TxOutput.zero)) in *.
  match type of Hloop with processOutputs _ _ _ ?s _ _ = _ =>
    assert (Hp : heap s !! length (heap st) = Some ta0)
  end.
  { cbn [heap]. rewrite lookup_app_r, Nat.sub_diag by lia. reflexivity. }
  destruct (processOutputs_spec _ _ _ _ _ _ _ ta0 [] Hp eq_refl eq_refl Hloop) as (Hmap & Hheap & Hab).
  cbn [txAddressesMap heap addresses balances] in *.
  split; [reflexivity|]. split; [reflexivity|]. split; [exact Hmap|]. split; [|exact Hab].
  rewrite Hheap. cbn [app TxAddresses.Height TxAddresses.Inputs ta0].
  rewrite insert_app_r_alt, Nat.sub_diag by lia. reflexivity.
Qed.

End ConnectOutputs.

Lemma elem_of_outpoints_for {chainParser : bchain.BlockChainParser} a btxID outs : forall i op,
  op ∈ outpoints_for a btxID i outs ->
  exists j output, outs !! j = Some output /\ validAddrDesc output = Some a /\
    op = outpoint.mk btxID (to_int32 (i + Z.of_nat j)).
Proof.
  induction outs as [|o outs IH]; intros i op Hin; cbn [outpoints_for] in Hin.
  - apply elem_of_nil in Hin. contradiction.
  - apply elem_of_app in Hin. destruct Hin as [Hin|Hin].
    + destruct (bool_decide_reflect (validAddrDesc o = Some a)) as [Hv|_].
      * apply list_elem_of_singleton in Hin. exists 0%nat, o.
        split; [reflexivity|]. split; [exact Hv|]. rewrite Hin, Z.add_0_r. reflexivity.
      * apply elem_of_nil in Hin. contradiction.
    + destruct (IH _ _ Hin) as (j & output & Hj & Hv & ->).
      exists (S j), output. split; [exact Hj|]. split; [exact Hv|]. do 2 f_equal. lia.
Qed.

Lemma outpoints_for_none {chainParser : bchain.BlockChainParser} a btxID outs : forall i,
  (forall o, o ∈ outs -> validAddrDesc o <> Some a) -> outpoints_for a btxID i outs = [].
Proof.
  induction outs as [|o outs IH]; intros i Hno; cbn [outpoints_for]; [reflexivity|].
  rewrite bool_decide_eq_false_2 by (apply Hno; left).
  apply IH. intros o' Ho'. apply Hno. right. exact Ho'.
Qed.

(** C8: an output whose script the parser does not turn into an address
    descriptor, or whose descriptor is empty or longer than
    [maxAddrDescLen], is recorded in the tx-addresses record of its
    transaction with its value and an empty address. The entries the
    transaction adds to the address index all belong to outputs with an
    indexed descriptor, and an address that no such output pays to keeps
    its index entry and its balance as they were. *)
Theorem skipped_output_not_indexed {chainParser : bchain.BlockChainParser}
    (d : Store) (height : Z) (st st' : ConnectState) (tx : bchain.Tx) (btxID : list Z) (ptr : nat) :
  processTxOutputs d height st tx = Ok (st', (btxID, ptr)) ->
  (forall i output,
     bchain.Tx_Vout tx !! i = Some output -> validAddrDesc output = None ->
     exists ta, txAddressesMap st' !! btxID = Some ptr /\ heap st' !! ptr = Some ta /\
       TxAddresses.Outputs ta !! i = Some (TxOutput.mk [] false (bchain.Vout_ValueSat output))) /\
  (forall a op,
     op ∈ default [] (addresses st' !! a) ->
     op ∈ default [] (addresses st !! a) \/
     exists j output, bchain.Tx_Vout tx !! j = Some output /\ validAddrDesc output = Some a /\
       op = outpoint.mk btxID (to_int32 (Z.of_nat j))) /\
  (forall a,
     (forall output, output ∈ bchain.Tx_Vout tx -> validAddrDesc output <> Some a) ->
     addresses st' !! a = addresses st !! a /\ balances st' !! a = balances st !! a).
Proof.
  intros H. destruct (processTxOutputs_spec _ _ _ _ _ _ _ H) as (_ & Hptr & Hmap & Hheap & Hab).
  split; [|split].
  - intros i output Hi Hv. eexists. split; [rewrite Hmap; apply lookup_insert_eq|].
    split.
    + rewrite Hheap, Hptr, lookup_app_r, Nat.sub_diag by lia. reflexivity.
    + cbn [TxAddresses.Outputs]. rewrite list_lookup_fmap, Hi. cbn. rewrite Hv. reflexivity.
  - intros a op Hin. specialize (Hab a).
    destruct (outpoints_for a btxID 0 (bchain.Tx_Vout tx)) as [|op0 ops] eqn:Hops.
    + destruct Hab as [Ha _]. rewrite Ha in Hin. left. exact Hin.
    + destruct Hab as (ab0 & _ & Ha & _). rewrite Ha in Hin. cbn [default from_option id] in Hin.
      apply elem_of_app in Hin. destruct Hin as [Hin|Hin]; [left; exact Hin|right].
      rewrite <- Hops in Hin. destruct (elem_of_outpoints_for _ _ _ _ _ Hin) as (j & output & Hj & Hv & ->).
      exists j, output. auto.
  - intros a Hno. specialize (Hab a). rewrite (outpoints_for_none _ _ _ _ Hno) in Hab. exact Hab.
Qed.

Lemma skipped_output_not_indexed_witness :
  (forall i output,
     bchain.Tx_Vout txWithSkippedOutput !! i = Some output ->
     validAddrDesc (chainParser := exampleParser true 2) output = None ->
     exists ta, txAddressesMap stateAfterSkippedOutput !! [0; 3] = Some 0%nat /\
       heap stateAfterSkippedOutput !! 0%nat = Some ta /\
       TxAddresses.Outputs ta !! i = Some (TxOutput.mk [] false (bchain.Vout_ValueSat output))) /\
  (forall a op,
     op ∈ default [] (addresses stateAfterSkippedOutput !! a) ->
     op ∈ default [] (addresses (mkCS ∅ ∅ [] ∅) !! a) \/
     exists j output, bchain.Tx_Vout txWithSkippedOutput !! j = Some output /\
       validAddrDesc (chainParser := exampleParser true 2) output = Some a /\
       op = outpoint.mk [0; 3] (to_int32 (Z.of_nat j))) /\
  (forall a,
     (forall output, output ∈ bchain.Tx_Vout txWithSkippedOutput ->
        validAddrDesc (chainParser := exampleParser true 2) output <> Some a) ->
     addresses stateAfterSkippedOutput !! a = addresses (mkCS ∅ ∅ [] ∅) !! a /\
     balances stateAfterSkippedOutput !! a = balances (mkCS ∅ ∅ [] ∅) !! a).
Proof.
  apply (skipped_output_not_indexed (chainParser := exampleParser true 2)
           (exampleStore [] false) 0 (mkCS ∅ ∅ [] ∅) stateAfterSkippedOutput txWithSkippedOutput).
  vm_compute. reflexivity.
Defined.

(** The record and the maps of the example: the first output is recorded
    without an address, and the two entries of the address [[65]] are
    those of the outputs 1 and 2. *)
Example skipped_output_example :
  heap stateAfterSkippedOutput =
    [TxAddresses.mk 0 [] [TxOutput.mk [] false 7; TxOutput.mk [65] false 5; TxOutput.mk [65] false 6]] /\
  map_to_list (addresses stateAfterSkippedOutput) =
    [([65], [outpoint.mk [0; 3] 1; outpoint.mk [0; 3] 2])] /\
  map_to_list (balances stateAfterSkippedOutput) = [([65], AddrBalance.mk 1 0 11)].
Proof. vm_compute. repeat split; reflexivity. Qed.
(** ** Connecting a block: the inputs of a transaction *)







Lemma set_item_inv {A : Type} (l : list A) i v l' :
  set_item l i v = Ok l' -> 0 <= i < len l /\ l' = <[Z.to_nat i := v]> l.
Proof.
  unfold set_item. intros H.
  destruct (Z.leb_spec 0 i); destruct (Z.ltb_spec i (len l)); cbn [andb] in H; try discriminate.
  injection H as <-. split; [lia|reflexivity].
Qed.



Section ConnectInputs.

Context {chainParser : bchain.BlockChainParser}.



End ConnectInputs.

(** ** Invariants of the connect *)

Section ConnectInvariant.

Context {chainParser : bchain.BlockChainParser}.

Variable P : ConnectState -> Prop.
Variable d : Store.
Variable okOutput : bchain.Vout -> Prop.

Hypothesis Hnew : forall st btxID height n,
  P st ->
  P (mkCS (addresses st) (<[btxID := length (heap st)]> (txAddressesMap st))
       (heap st ++ [TxAddresses.mk height [] (replicate n TxOutput.zero)]) (balances st)).
Hypothesis Hout : forall st st' btxID ptr i output,
  okOutput output -> P st -> processOutput d btxID ptr st i output = Ok st' -> P st'.
Hypothesis Hinit : forall st h ta n,
  P st ->
  heap_update (heap st) ta (fun t =>
    Ok (TxAddresses.mk (TxAddresses.Height t) (replicate n TxInput.zero) (TxAddresses.Outputs t))) = Ok h ->
  P (set_heap st h).
Hypothesis Hin : forall st st' txid ta i input,
  P st -> processInput d txid ta st i input = Ok st' -> P st'.






End ConnectInvariant.
(** ** The transaction counter and the balance of an address *)


Section TxsCounted.

Context {chainParser : bchain.BlockChainParser}.





End TxsCounted.



(** The index list of the address [[65]] after [block1]: an output and
    an input of the one transaction, counted once. *)
Example txs_counted_example :
  addresses stateAfterBlock1 !! [65] = Some [outpoint.mk [0; 2] 1; outpoint.mk [0; 2] (-1)] /\
  balances stateAfterBlock1 !! [65] = Some (AddrBalance.mk 2 50 20) /\
  GetAddrDescBalance (db storeAfterBlock0) [65] = Ok (Some (AddrBalance.mk 1 0 50)).
Proof. vm_compute. repeat split; reflexivity. Qed.
(** ** Amounts are never negative *)

Lemma SetBytes_nonneg b : Forall (fun x => 0 <= x) b -> 0 <= SetBytes b.
Proof.
  unfold SetBytes. assert (H : forall acc, 0 <= acc -> Forall (fun x => 0 <= x) b ->
                             0 <= fold_left (fun acc x => acc * 256 + x) b acc).
  { induction b as [|x b IH]; intros acc Hacc Hb; cbn [fold_left]; [exact Hacc|].
    inversion Hb; subst. apply IH; [lia|assumption]. }
  apply H. lia.
Qed.

Lemma slice_bytes_ok buf lo hi b : bytes_ok buf -> slice buf lo hi = Ok b -> bytes_ok b.
Proof.
  unfold slice, bytes_ok. intros Hb H.
  destruct ((0 <=? lo) && (lo <=? hi) && (hi <=? len buf)); [|discriminate].
  injection H as <-. apply Forall_take, Forall_drop. exact Hb.
Qed.

Lemma unpackBigint_nonneg buf v l : bytes_ok buf -> unpackBigint buf = Ok (v, l) -> 0 <= v.
Proof.
  unfold unpackBigint. intros Hb H.
  destruct (item buf 0) as [b0| | |]; try discriminate. cbn [mbind Res_bind] in H.
  destruct (slice buf 1 (b0 + 1)) as [m| | |] eqn:Em; try discriminate. cbn [mbind Res_bind] in H.
  injection H as <- <-. apply SetBytes_nonneg.
  eapply Forall_impl; [exact (slice_bytes_ok _ _ _ _ Hb Em)|]. cbn. intros; lia.
Qed.

Lemma GetCF_bytes_ok d cf key buf : store_ok d -> GetCF d cf key = Ok buf -> bytes_ok buf.
Proof.
  unfold GetCF. intros Hd H. destruct (read_fails d cf key); [discriminate|].
  injection H as <-. destruct (cols d cf !! key) as [v|] eqn:E; cbn.
  - exact (Hd _ _ _ E).
  - constructor.
Qed.

Lemma GetAddrDescBalance_nonneg d a ab :
  store_ok d -> GetAddrDescBalance d a = Ok (Some ab) -> balance_nonneg ab.
Proof.
  unfold GetAddrDescBalance. intros Hd H.
  destruct (GetCF d cfAddressBalance a) as [buf| | |] eqn:Eg; try discriminate.
  cbn [mbind Res_bind] in H. pose proof (GetCF_bytes_ok _ _ _ _ Hd Eg) as Hb.
  destruct (len buf <? 3); [discriminate|].
  destruct (unpackVaruint buf) as [txs l].
  destruct (slice_from buf l) as [b1| | |] eqn:E1; try discriminate. cbn [mbind Res_bind] in H.
  destruct (unpackBigint b1) as [[sentSat sl]| | |] eqn:Es; try discriminate. cbn [mbind Res_bind] in H.
  destruct (slice_from buf (l + sl)) as [b2| | |] eqn:E2; try discriminate. cbn [mbind Res_bind] in H.
  destruct (unpackBigint b2) as [[balanceSat bl]| | |] eqn:Eb; try discriminate. cbn [mbind Res_bind] in H.
  injection H as <-. split; cbn.
  - eapply unpackBigint_nonneg; [|exact Es]. eapply slice_bytes_ok; [exact Hb|exact E1].
  - eapply unpackBigint_nonneg; [|exact Eb]. eapply slice_bytes_ok; [exact Hb|exact E2].
Qed.

Lemma unpackTxInput_nonneg buf ti l :
  bytes_ok buf -> unpackTxInput buf = Ok (ti, l) -> 0 <= TxInput.ValueSat ti.
Proof.
  unfold unpackTxInput. intros Hb H. destruct (unpackVaruint buf) as [al l0].
  destruct (slice buf l0 (l0 + to_int64 al)) as [a| | |]; try discriminate. cbn [mbind Res_bind] in H.
  destruct (slice_from buf (wrap64 (al + wrap64 l0))) as [b| | |] eqn:E; try discriminate.
  cbn [mbind Res_bind] in H.
  destruct (unpackBigint b) as [[v l1]| | |] eqn:Ev; try discriminate. cbn [mbind Res_bind] in H.
  injection H as <- <-. cbn. eapply unpackBigint_nonneg; [|exact Ev].
  eapply slice_bytes_ok; [exact Hb|exact E].
Qed.

Lemma unpackTxOutput_nonneg buf to l :
  bytes_ok buf -> unpackTxOutput buf = Ok (to, l) -> 0 <= TxOutput.ValueSat to.
Proof.
  unfold unpackTxOutput. intros Hb H. destruct (unpackVarint buf) as [al l0].
  match type of H with context [slice buf ?lo ?hi] =>
    destruct (slice buf lo hi) as [a| | |]; try discriminate
  end.
  cbn [mbind Res_bind] in H.
  match type of H with context [slice_from buf ?lo] =>
    destruct (slice_from buf lo) as [b| | |] eqn:E; try discriminate
  end.
  cbn [mbind Res_bind] in H.
  destruct (unpackBigint b) as [[v l1]| | |] eqn:Ev; try discriminate. cbn [mbind Res_bind] in H.
  injection H as <- <-. cbn. eapply unpackBigint_nonneg; [|exact Ev].
  eapply slice_bytes_ok; [exact Hb|exact E].
Qed.

Lemma unpackTxInputs_nonneg buf : forall n l ins l',
  bytes_ok buf -> unpackTxInputs n buf l = Ok (ins, l') ->
  Forall (fun t => 0 <= TxInput.ValueSat t) ins.
Proof.
  induction n as [|n IH]; intros l ins l' Hb H; cbn [unpackTxInputs] in H.
  - injection H as <- <-. constructor.
  - destruct (slice_from buf l) as [b| | |] eqn:E; try discriminate. cbn [mbind Res_bind] in H.
    destruct (unpackTxInput b) as [[ti used]| | |] eqn:Et; try discriminate. cbn [mbind Res_bind] in H.
    destruct (unpackTxInputs n buf (l + used)) as [[rest l1]| | |] eqn:Er; try discriminate.
    cbn [mbind Res_bind] in H. injection H as <- <-. constructor.
    + eapply unpackTxInput_nonneg; [|exact Et]. eapply slice_bytes_ok; [exact Hb|exact E].
    + eapply IH; [exact Hb|exact Er].
Qed.

Lemma unpackTxOutputs_nonneg buf : forall n l outs l',
  bytes_ok buf -> unpackTxOutputs n buf l = Ok (outs, l') ->
  Forall (fun t => 0 <= TxOutput.ValueSat t) outs.
Proof.
  induction n as [|n IH]; intros l outs l' Hb H; cbn [unpackTxOutputs] in H.
  - injection H as <- <-. constructor.
  - destruct (slice_from buf l) as [b| | |] eqn:E; try discriminate. cbn [mbind Res_bind] in H.
    destruct (unpackTxOutput b) as [[to used]| | |] eqn:Et; try discriminate. cbn [mbind Res_bind] in H.
    destruct (unpackTxOutputs n buf (l + used)) as [[rest l1]| | |] eqn:Er; try discriminate.
    cbn [mbind Res_bind] in H. injection H as <- <-. constructor.
    + eapply unpackTxOutput_nonneg; [|exact Et]. eapply slice_bytes_ok; [exact Hb|exact E].
    + eapply IH; [exact Hb|exact Er].
Qed.

Lemma unpackTxAddresses_nonneg buf ta :
  bytes_ok buf -> unpackTxAddresses buf = Ok ta -> txAddresses_nonneg ta.
Proof.
  unfold unpackTxAddresses. intros Hb H. destruct (unpackVaruint buf) as [height l].
  destruct (slice_from buf l) as [b| | |]; try discriminate. cbn [mbind Res_bind] in H.
  destruct (unpackVaruint b) as [inputs ll].
  destruct (unpackTxInputs (Z.to_nat inputs) buf (l + ll)) as [[ins l1]| | |] eqn:Ei; try discriminate.
  cbn [mbind Res_bind] in H.
  destruct (slice_from buf l1) as [b1| | |]; try discriminate. cbn [mbind Res_bind] in H.
  destruct (unpackVaruint b1) as [outputs ll1].
  destruct (unpackTxOutputs (Z.to_nat outputs) buf (l1 + ll1)) as [[outs l2]| | |] eqn:Eo; try discriminate.
  cbn [mbind Res_bind] in H. injection H as <-. split; cbn.
  - eapply unpackTxInputs_nonneg; [exact Hb|exact Ei].
  - eapply unpackTxOutputs_nonneg; [exact Hb|exact Eo].
Qed.

Lemma getTxAddresses_nonneg d btxID ta :
  store_ok d -> getTxAddresses d btxID = Ok (Some ta) -> txAddresses_nonneg ta.
Proof.
  unfold getTxAddresses. intros Hd H.
  destruct (GetCF d cfTxAddresses btxID) as [buf| | |] eqn:Eg; try discriminate.
  cbn [mbind Res_bind] in H. destruct (len buf <? 3); [discriminate|].
  destruct (unpackTxAddresses buf) as [t| | |] eqn:Et; try discriminate.
  cbn [mbind Res_bind] in H. injection H as <-.
  eapply unpackTxAddresses_nonneg; [|exact Et]. eapply GetCF_bytes_ok; eassumption.
Qed.




Section ConnectNonneg.

Context {chainParser : bchain.BlockChainParser}.


End ConnectNonneg.

(** *** The disconnect *)









Lemma store_okb_correct d : store_okb d = true -> store_ok d.
Proof.
  unfold store_okb, dump. intros H cf key value Hv.
  assert (Hcf : forallb (fun row : list Z * list Z =>
                           forallb (fun b => (0 <=? b) && (b <? 256)) (snd row))
                  (map_to_list (cols d cf)) = true).
  { cbn [map forallb] in H. repeat (apply andb_prop in H; destruct H as [? H]).
    destruct cf; assumption. }
  rewrite forallb_forall in Hcf. apply elem_of_map_to_list in Hv.
  apply list_elem_of_In in Hv. specialize (Hcf _ Hv). cbn [snd] in Hcf.
  rewrite forallb_forall in Hcf. apply Forall_forall. intros b Hb.
  apply list_elem_of_In in Hb. specialize (Hcf _ Hb). lia.
Qed.



(** A balance of 20 from which 30 are taken is 0: disconnecting an
    output of 30 to the address [[65]], whose balance [block1] left at
    20. *)
Example clamp_example :
  (st ← disconnectOutput (db storeAfterBlock1) (mkTDS ∅ ∅ ∅) (TxOutput.mk [65] false 30);
   Ok (td_balances st !! [65]))
  = Ok (Some (Some (AddrBalance.mk 1 50 0))).
Proof. vm_compute. reflexivity. Qed.
(** ** More on the disconnect of a range *)

Lemma db_Write_cases d wb :
  db_Write d wb = (d, Err ErrStore) \/
  (write_fails d = false /\
   db_Write d wb = (mkStore (fold_left apply_op wb (cols d)) (read_fails d) (write_fails d), Ok tt)).
Proof. unfold db_Write. destruct (write_fails d); [left|right]; auto. Qed.

Lemma DisconnectBlockRangeUTXO_cases {chainParser : bchain.BlockChainParser}
    (d : Store) (lower higher : Z) :
  fst (DisconnectBlockRangeUTXO d lower higher) = d \/
  (snd (DisconnectBlockRangeUTXO d lower higher) = Ok tt /\
   exists wb,
     fst (DisconnectBlockRangeUTXO d lower higher)
     = mkStore (fold_left apply_op wb (cols d)) (read_fails d) (write_fails d)).
Proof.
  unfold DisconnectBlockRangeUTXO.
  destruct (loadBlockTxs _ d lower higher lower _) as [blocks| | |]; try (left; reflexivity).
  destruct (snd (disconnectHeights _ d lower higher blocks _ 0)) as [st| | |]; try (left; reflexivity).
  destruct (storeTxAddresses _ _ ≫= _) as [wb| | |]; try (left; reflexivity).
  destruct (db_Write_cases d (deleteTxs wb (elements (txsToDelete st)))) as [E|[_ E]]; rewrite E.
  - left. reflexivity.
  - right. split; [reflexivity|]. eexists. reflexivity.
Qed.

(** The disconnect of a range is all or nothing: the store it leaves is
    the store it was given, unless it returns without an error, and then
    the store is the given one with the operations of one batch applied. *)
Theorem DisconnectBlockRangeUTXO_all_or_nothing {chainParser : bchain.BlockChainParser}
    (d : Store) (lower higher : Z) :
  fst (DisconnectBlockRangeUTXO d lower higher) = d \/
  (snd (DisconnectBlockRangeUTXO d lower higher) = Ok tt /\
   exists wb,
     fst (DisconnectBlockRangeUTXO d lower higher)
     = mkStore (fold_left apply_op wb (cols d)) (read_fails d) (write_fails d)).
Proof. apply DisconnectBlockRangeUTXO_cases. Qed.

Section DisconnectGenesis.

Context {chainParser : bchain.BlockChainParser}.

Lemma loadBlockTxs_length d lower higher : forall fuel height blocks blocks',
  loadBlockTxs fuel d lower higher height blocks = Ok blocks' -> length blocks' = length blocks.
Proof.
  induction fuel as [|fuel IH]; intros height blocks blocks' H; cbn [loadBlockTxs] in H;
    destruct (height <=? higher); try discriminate; try (injection H as <-; reflexivity).
  destruct (getBlockTxs d height) as [bt| | |]; try discriminate. cbn [mbind Res_bind] in H.
  destruct (len bt =? 0); [discriminate|].
  destruct (set_item blocks (wrap32 (height - lower)) bt) as [b1| | |] eqn:Es; try discriminate.
  cbn [mbind Res_bind] in H. apply IH in H. apply set_item_inv in Es. destruct Es as [_ ->].
  rewrite H. apply length_insert.
Qed.

End DisconnectGenesis.

(** A range that starts at the height 0 is never disconnected: the call
    always ends in an error or a panic, and the store stays as it was.
    After the round of the height 0 the [uint32] counter of the second
    loop is [2^32 - 1]. *)
Theorem DisconnectBlockRangeUTXO_from_genesis {chainParser : bchain.BlockChainParser}
    (d : Store) (higher : Z) :
  0 <= higher < 2 ^ 32 ->
  is_Ok (snd (DisconnectBlockRangeUTXO d 0 higher)) = false /\
  fst (DisconnectBlockRangeUTXO d 0 higher) = d.
Proof.
  intros Hh.
  assert (Hnot : is_Ok (snd (DisconnectBlockRangeUTXO d 0 higher)) = false).
  { unfold DisconnectBlockRangeUTXO.
    destruct (loadBlockTxs _ d 0 higher 0 (emptyBlocks 0 higher)) as [blocks| | |] eqn:El;
      try reflexivity.
    pose proof (loadBlockTxs_length _ _ _ _ _ _ _ El) as Hlen.
    unfold emptyBlocks in Hlen. rewrite length_replicate in Hlen.
    destruct (Z.eq_dec higher (2 ^ 32 - 1)) as [->|Hne].
    - exfalso. change (wrap32 (2 ^ 32 - 1 - 0 + 1)) with 0 in *.
      unfold emptyBlocks in El. change (wrap32 (2 ^ 32 - 1 - 0 + 1)) with 0 in El.
      cbn [Z.to_nat replicate length loadBlockTxs] in El.
      destruct (0 <=? 2 ^ 32 - 1) eqn:E0; [|discriminate].
      destruct (getBlockTxs d 0) as [bt| | |]; try discriminate. cbn [mbind Res_bind] in El.
      destruct (len bt =? 0); [discriminate|]. discriminate.
    - rewrite wrap32_small in Hlen by lia.
      destruct (disconnectHeights_wraps d blocks (length blocks) (S (length blocks)) higher
                  (mkDS [] ∅ ∅ ∅) 0%nat) as (k & r & Hrun & Hk & Hend & Hfail);
        try (unfold len; lia).
      rewrite Hrun. cbn [snd].
      destruct (Nat.eq_dec k (length blocks)) as [Ek|Ek].
      + rewrite (Hend Ek). reflexivity.
      + destruct (Hfail ltac:(lia)) as [Hr _]. destruct r; try discriminate; reflexivity. }
  split; [exact Hnot|].
  destruct (DisconnectBlockRangeUTXO_cases d 0 higher) as [E|[E _]]; [exact E|].
  rewrite E in Hnot. discriminate.
Qed.

Lemma DisconnectBlockRangeUTXO_from_genesis_witness :
  is_Ok (snd (DisconnectBlockRangeUTXO (chainParser := exampleParser true 2)
                (db storeAfterBlock1) 0 1)) = false /\
  fst (DisconnectBlockRangeUTXO (chainParser := exampleParser true 2) (db storeAfterBlock1) 0 1)
  = db storeAfterBlock1.
Proof.
  apply (DisconnectBlockRangeUTXO_from_genesis (chainParser := exampleParser true 2)
           (db storeAfterBlock1) 1).
  lia.
Defined.
(** ** What a failed writeBlock leaves behind *)

Section WriteBlockFrame.

Context {chainParser : bchain.BlockChainParser}.

(** The clean-up loop only deletes keys of the column of the block-tx
    records. *)
Lemma cleanupBlockTxs_loop_frame : forall fuel d height rh d' r,
  cleanupBlockTxs_loop fuel d height rh = (d', r) ->
  read_fails d' = read_fails d /\ write_fails d' = write_fails d /\
  forall cf key,
    cols d' cf !! key = cols d cf !! key \/ (cf = cfBlockTxs /\ cols d' cf !! key = None).
Proof.
  induction fuel as [|fuel IH]; intros d height rh d' r H; cbn [cleanupBlockTxs_loop] in H;
    destruct (rh <? height); try (injection H as <- <-; auto).
  destruct (GetCF d cfBlockTxs (packUint rh)) as [val| | |]; try (injection H as <- <-; auto).
  destruct (len val =? 0); [injection H as <- <-; auto|].
  apply IH in H. destruct H as (Hr & Hw & Hc). cbn [read_fails write_fails DeleteCF] in Hr, Hw.
  split; [exact Hr|]. split; [exact Hw|]. intros cf key.
  destruct (Hc cf key) as [E|E]; [|right; exact E].
  destruct (decide (cf = cfBlockTxs /\ key = packUint rh)) as [[-> ->]|Hne].
  - right. split; [reflexivity|]. rewrite E. apply cols_DeleteCF_same.
  - left. rewrite E. apply cols_DeleteCF_other. intros -> ->. apply Hne. auto.
Qed.

Lemma storeAndCleanupBlockTxs_frame d wb block d' r :
  storeAndCleanupBlockTxs d wb block = (d', r) ->
  read_fails d' = read_fails d /\ write_fails d' = write_fails d /\
  forall cf key,
    cols d' cf !! key = cols d cf !! key \/ (cf = cfBlockTxs /\ cols d' cf !! key = None).
Proof.
  unfold storeAndCleanupBlockTxs. intros H.
  destruct (packBlockTxs _ _ _ _) as [buf| | |]; try (injection H as <- <-; auto).
  destruct (wrap32 bchain.KeepBlockAddresses <? bchain.Block_Height block);
    [|injection H as <- <-; auto].
  destruct (cleanupBlockTxs_loop _ d _ _) as [d1 r1] eqn:E.
  apply cleanupBlockTxs_loop_frame in E.
  destruct r1; injection H as <- <-; exact E.
Qed.

Lemma writeHeightFromBlock_db r wb block op r1 res :
  writeHeightFromBlock r wb block op = (r1, res) -> db r1 = db r.
Proof.
  unfold writeHeightFromBlock, writeHeight. intros H.
  destruct (op =? opInsert).
  - destruct (packBlockInfo _); injection H as <- _; reflexivity.
  - destruct (op =? opDelete); injection H as <- _; reflexivity.
Qed.

Lemma writeBlock_failure r block op r' res :
  writeBlock r block op = (r', res) -> is_Ok res = false ->
  forall cf key,
    cols (db r') cf !! key = cols (db r) cf !! key \/
    (bchain.IsUTXOChain = true /\ cf = cfBlockTxs /\ cols (db r') cf !! key = None).
Proof.
  unfold writeBlock. intros H Hres cf key.
  destruct (writeHeightFromBlock r [] block op) as [r1 res1] eqn:Eh.
  pose proof (writeHeightFromBlock_db _ _ _ _ _ _ Eh) as Hdb.
  destruct res1 as [wb| | |]; try (injection H as <- <-; left; rewrite Hdb; reflexivity).
  destruct bchain.IsUTXOChain.
  - destruct (op =? opDelete).
    { injection H as <- <-. left. rewrite Hdb. reflexivity. }
    destruct (writeBlockUTXO_batch (db r1) wb block) as [wb1| | |];
      try (injection H as <- <-; left; rewrite Hdb; reflexivity).
    destruct (storeAndCleanupBlockTxs (db r1) wb1 block) as [d1 r2] eqn:Es.
    destruct (storeAndCleanupBlockTxs_frame _ _ _ _ _ Es) as (_ & Hw & Hc).
    rewrite Hdb in Hc.
    assert (Hd1 : db r' = d1).
    { destruct r2 as [wb2| | |]; try (injection H as <- <-; reflexivity).
      destruct (db_Write_cases d1 wb2) as [E|[_ E]]; rewrite E in H; injection H as <- <-.
      - reflexivity.
      - discriminate. }
    rewrite Hd1. destruct (Hc cf key) as [E|[E1 E2]]; [left; exact E|right; auto].
  - destruct (writeAddressesNonUTXO wb block op) as [wb1| | |];
      try (injection H as <- <-; left; rewrite Hdb; reflexivity).
    destruct (db_Write_cases (db r1) wb1) as [E|[_ E]]; rewrite E in H; injection H as <- <-.
    + left. rewrite Hdb. reflexivity.
    + discriminate.
Qed.

End WriteBlockFrame.

(** A ConnectBlock that does not succeed has written nothing of the
    batch: every key of every column is as it was, except that keys of
    the column of the block-tx records may have been deleted by the
    clean-up. *)
Theorem ConnectBlock_failure_writes_nothing {chainParser : bchain.BlockChainParser}
    (r : RocksDB) (block : bchain.Block) (cf : Column) (key : list Z) :
  is_Ok (snd (ConnectBlock r block)) = false ->
  cols (db (fst (ConnectBlock r block))) cf !! key = cols (db r) cf !! key \/
  (bchain.IsUTXOChain = true /\ cf = cfBlockTxs /\
   cols (db (fst (ConnectBlock r block))) cf !! key = None).
Proof.
  intros H. unfold ConnectBlock in *.
  destruct (writeBlock r block opInsert) as [r' res] eqn:E.
  exact (writeBlock_failure _ _ _ _ _ E H cf key).
Qed.

Lemma ConnectBlock_failure_writes_nothing_witness :
  cols (db (fst (ConnectBlock (chainParser := exampleParser true 2)
                   (mkRocksDB (storeWithBlockTxs true) 4) emptyBlock5))) cfBlockTxs !! packUint 3
  = cols (db (mkRocksDB (storeWithBlockTxs true) 4)) cfBlockTxs !! packUint 3 \/
  (bchain.IsUTXOChain (BlockChainParser := exampleParser true 2) = true /\ cfBlockTxs = cfBlockTxs /\
   cols (db (fst (ConnectBlock (chainParser := exampleParser true 2)
                    (mkRocksDB (storeWithBlockTxs true) 4) emptyBlock5))) cfBlockTxs !! packUint 3
   = None).
Proof.
  apply (ConnectBlock_failure_writes_nothing (chainParser := exampleParser true 2)
           (mkRocksDB (storeWithBlockTxs true) 4) emptyBlock5 cfBlockTxs (packUint 3)).
  vm_compute. reflexivity.
Defined.

(** On a UTXO chain DisconnectBlock is not supported: it returns the
    error and leaves the store as it is, but the best height of the
    handle is already one below the height of the block (modulo 2^32). *)
Theorem DisconnectBlock_UTXO_not_supported {chainParser : bchain.BlockChainParser}
    (r : RocksDB) (block : bchain.Block) :
  bchain.IsUTXOChain = true ->
  DisconnectBlock r block
  = (mkRocksDB (db r) (wrap32 (bchain.Block_Height block - 1)), Err ErrDisconnectNotSupported).
Proof.
  intros H. unfold DisconnectBlock, writeBlock, writeHeightFromBlock, writeHeight.
  change (opDelete =? opInsert) with false. change (opDelete =? opDelete) with true.
  cbn match. rewrite H. reflexivity.
Qed.

Lemma DisconnectBlock_UTXO_not_supported_witness :
  DisconnectBlock (chainParser := exampleParser true 2) storeAfterBlock1 block0
  = (mkRocksDB (db storeAfterBlock1) (wrap32 (bchain.Block_Height block0 - 1)),
     Err ErrDisconnectNotSupported).
Proof.
  apply (DisconnectBlock_UTXO_not_supported (chainParser := exampleParser true 2)
           storeAfterBlock1 block0).
  reflexivity.
Defined.

(** The best height after a block was disconnected at the height 0. *)
Example DisconnectBlock_genesis_best_height :
  is_BestHeight (fst (DisconnectBlock (chainParser := exampleParser true 2) storeAfterBlock1 block0))
  = 4294967295.
Proof. vm_compute. reflexivity. Qed.
(** ** More on the codecs *)

Lemma unpackUint_bytes b0 b1 b2 b3 :
  0 <= b0 < 256 -> 0 <= b1 < 256 -> 0 <= b2 < 256 -> 0 <= b3 < 256 ->
  exists h, unpackUint [b0; b1; b2; b3] = Ok h /\ 0 <= h < 2 ^ 32 /\ packUint h = [b0; b1; b2; b3].
Proof.
  intros H0 H1 H2 H3. eexists. split; [reflexivity|].
  set (h := Z.lor (Z.lor (Z.lor b3 (Z.shiftl b2 8)) (Z.shiftl b1 16)) (Z.shiftl b0 24)).
  assert (E0 : b0 = b0 mod 2 ^ 8) by (symmetry; apply Z.mod_small; lia).
  assert (E1 : b1 = b1 mod 2 ^ 8) by (symmetry; apply Z.mod_small; lia).
  assert (E2 : b2 = b2 mod 2 ^ 8) by (symmetry; apply Z.mod_small; lia).
  assert (E3 : b3 = b3 mod 2 ^ 8) by (symmetry; apply Z.mod_small; lia).
  split.
  - assert (Hh : h = h mod 2 ^ 32).
    { unfold h. rewrite E0, E1, E2, E3. Z.bitblast. }
    rewrite Hh. apply Z.mod_pos_bound. lia.
  - unfold packUint, to_byte. change 256 with (2 ^ 8).
    f_equal; [|f_equal; [|f_equal; [|f_equal]]].
    all: unfold h; rewrite E0, E1, E2, E3; Z.bitblast.
    all: repeat match goal with
           | |- context [Z.testbit ?b ?l] => rewrite (Z.testbit_neg_r b l) by lia
           end;
         cbn [andb orb]; rewrite ?orb_false_r, ?andb_false_r; reflexivity.
Qed.

(** [unpackAddressKey] on every key of bytes: a key of at most four
    bytes is invalid, and a longer key is split into the descriptor and
    the height that [packAddressKey] joins to this key. It never panics. *)
Theorem unpackAddressKey_inverse (key : list Z) :
  bytes_ok key ->
  if len key <=? packedHeightBytes then unpackAddressKey key = Err ErrInvalidAddressKey
  else exists addrDesc height,
         unpackAddressKey key = Ok (addrDesc, height) /\
         addrDesc <> [] /\ 0 <= height < 2 ^ 32 /\
         packAddressKey addrDesc height = key.
Proof.
  intros Hb. unfold unpackAddressKey, packedHeightBytes.
  destruct (Z.leb_spec (len key) 4) as [Hl|Hl].
  - destruct (Z.leb_spec (len key - 4) 0); [reflexivity|lia].
  - destruct (Z.leb_spec (len key - 4) 0); [lia|].
    rewrite slice_to_take by lia. cbn [mbind Res_bind].
    rewrite slice_take_drop by lia. cbn [mbind Res_bind].
    replace (Z.to_nat (len key - 4 + 4 - (len key - 4))) with 4%nat by lia.
    set (n := Z.to_nat (len key - 4)).
    assert (Hn : (n + 4 = length key)%nat) by (unfold n, len in *; lia).
    assert (Htail : exists b0 b1 b2 b3, drop n key = [b0; b1; b2; b3]).
    { assert (Hlen : length (drop n key) = 4%nat) by (rewrite length_drop; lia).
      destruct (drop n key) as [|b0 [|b1 [|b2 [|b3 [|]]]]]; try discriminate. eauto. }
    destruct Htail as (b0 & b1 & b2 & b3 & Htail). rewrite Htail. cbn [take].
    assert (Hbt : bytes_ok [b0; b1; b2; b3]) by (rewrite <- Htail; apply Forall_drop; exact Hb).
    unfold bytes_ok in Hbt. rewrite !Forall_cons in Hbt.
    destruct Hbt as (H0 & H1 & H2 & H3 & _).
    destruct (unpackUint_bytes b0 b1 b2 b3 H0 H1 H2 H3) as (h & Hu & Hh & Hp).
    rewrite Hu. cbn [mbind Res_bind]. exists (take n key), h.
    split; [reflexivity|]. split.
    + intros E. apply (f_equal length) in E. rewrite length_take in E. cbn in E. lia.
    + split; [exact Hh|]. unfold packAddressKey. rewrite Hp, <- Htail. apply take_drop.
Qed.

Lemma unpackAddressKey_inverse_witness :
  exists addrDesc height,
    unpackAddressKey [65; 66; 0; 0; 0; 7] = Ok (addrDesc, height) /\
    addrDesc <> [] /\ 0 <= height < 2 ^ 32 /\
    packAddressKey addrDesc height = [65; 66; 0; 0; 0; 7].
Proof.
  apply (unpackAddressKey_inverse [65; 66; 0; 0; 0; 7]).
  unfold bytes_ok. repeat constructor; lia.
Defined.

(** [packBigint] needs no more than [maxPackedBigintBytes] bytes,
    whatever the number: in a buffer of that length it never panics, it
    leaves the length of the buffer as it is, it writes the single byte 0
    for zero, and what [unpackBigint] reads back is the magnitude of the
    number, when that is below 2^1984: the sign is not stored. *)
Theorem packBigint_fits (bi : Z) (buf : list Z) :
  maxPackedBigintBytes <= len buf ->
  exists buf' l,
    packBigint bi buf = Ok (buf', l) /\ 1 <= l <= maxPackedBigintBytes /\
    length buf' = length buf /\
    (bi = 0 -> l = 1) /\
    (Z.abs bi < 2 ^ 1984 -> unpackBigint buf' = Ok (Z.abs bi, l)).
Proof.
  intros Hbuf. destruct (packBigint_words bi buf Hbuf) as (buf' & l & Hp & Hl & Hlen & _ & Hz & Hu).
  exists buf', l. split; [exact Hp|]. split; [exact Hl|]. split; [exact Hlen|]. split.
  - intros ->. apply Hz. reflexivity.
  - intros Hsmall. specialize (Hu (drop (Z.to_nat l) buf')). rewrite take_drop in Hu.
    rewrite Hu, truncated_small; [reflexivity|]. exact Hsmall.
Qed.

Lemma packBigint_fits_witness :
  exists buf' l,
    packBigint (-300) (make_bytes maxPackedBigintBytes) = Ok (buf', l) /\
    1 <= l <= maxPackedBigintBytes /\
    length buf' = length (make_bytes maxPackedBigintBytes) /\
    (-300 = 0 -> l = 1) /\
    (Z.abs (-300) < 2 ^ 1984 -> unpackBigint buf' = Ok (Z.abs (-300), l)).
Proof.
  apply (packBigint_fits (-300) (make_bytes maxPackedBigintBytes)).
  vm_compute. discriminate.
Defined.

(** The amounts read from a store of bytes are never negative: the
    balance and the sent amount of a stored balance, and the values of
    the inputs and outputs of a stored tx-addresses record. *)
Theorem stored_amounts_nonneg (d : Store) :
  store_ok d ->
  (forall addrDesc ab, GetAddrDescBalance d addrDesc = Ok (Some ab) -> balance_nonneg ab) /\
  (forall btxID ta, getTxAddresses d btxID = Ok (Some ta) -> txAddresses_nonneg ta).
Proof.
  intros Hd. split.
  - intros a ab H. exact (GetAddrDescBalance_nonneg _ _ _ Hd H).
  - intros b ta H. exact (getTxAddresses_nonneg _ _ _ Hd H).
Qed.

Lemma stored_amounts_nonneg_witness :
  (forall addrDesc ab,
     GetAddrDescBalance (db storeAfterBlock1) addrDesc = Ok (Some ab) -> balance_nonneg ab) /\
  (forall btxID ta,
     getTxAddresses (db storeAfterBlock1) btxID = Ok (Some ta) -> txAddresses_nonneg ta).
Proof.
  apply (stored_amounts_nonneg (db storeAfterBlock1)).
  apply store_okb_correct. vm_compute. reflexivity.
Defined.

(** Without a retention below the height nothing is cleaned up: when
    the retention (as a [uint32]) is zero or at least the height of the
    block, [storeAndCleanupBlockTxs] adds the record of the block to the
    batch and leaves the store as it is. *)
Theorem storeAndCleanupBlockTxs_no_cleanup {chainParser : bchain.BlockChainParser}
    (d : Store) (wb : WriteBatch) (block : bchain.Block) (buf : list Z) :
  0 <= bchain.Block_Height block < 2 ^ 32 ->
  wrap32 bchain.KeepBlockAddresses = 0 \/
  bchain.Block_Height block <= wrap32 bchain.KeepBlockAddresses ->
  packBlockTxs (bchain.Block_Txs block) [] (make_bytes vlq.MaxLen64)
    (make_bytes bchain.PackedTxidLen) = Ok buf ->
  storeAndCleanupBlockTxs d wb block
  = (d, Ok (wb_PutCF wb cfBlockTxs (packUint (bchain.Block_Height block)) buf)).
Proof.
  intros Hh Hr Hpack. unfold storeAndCleanupBlockTxs. rewrite Hpack.
  destruct (Z.ltb_spec (wrap32 bchain.KeepBlockAddresses) (bchain.Block_Height block)) as [Hlt|Hge];
    [|reflexivity].
  destruct Hr as [Hr|Hr]; [|lia]. rewrite Hr, Z.sub_0_r, wrap32_small by lia.
  destruct (Z.to_nat (bchain.Block_Height block)); cbn [cleanupBlockTxs_loop];
    rewrite Z.ltb_irrefl; reflexivity.
Qed.

Lemma storeAndCleanupBlockTxs_no_cleanup_witness :
  storeAndCleanupBlockTxs (chainParser := exampleParser true 0) (storeWithBlockTxs false) []
    emptyBlock5
  = (storeWithBlockTxs false, Ok (wb_PutCF [] cfBlockTxs (packUint 5) [])).
Proof.
  apply (storeAndCleanupBlockTxs_no_cleanup (chainParser := exampleParser true 0)
           (storeWithBlockTxs false) [] emptyBlock5 []).
  - vm_compute. split; [discriminate|reflexivity].
  - left. reflexivity.
  - reflexivity.
Defined.
(** ** The transaction counter of an address during the disconnect *)

Lemma getAddressBalance_spec d bal a b bal1 :
  getAddressBalance d bal a = Ok (b, bal1) ->
  bal1 !! a = Some b /\ (forall a', a' <> a -> bal1 !! a' = bal !! a') /\
  (forall bal', bal' !! a = bal !! a -> exists bal1', getAddressBalance d bal' a = Ok (b, bal1')).
Proof.
  unfold getAddressBalance. intros H. destruct (bal !! a) as [x|] eqn:E.
  - injection H as <- <-. split; [exact E|]. split; [reflexivity|].
    intros bal' ->. eexists. reflexivity.
  - destruct (GetAddrDescBalance d a) as [b1| | |]; try discriminate.
    cbn [mbind Res_bind] in H. injection H as <- <-.
    split; [apply lookup_insert_eq|]. split.
    + intros a' Hne. apply lookup_insert_ne. congruence.
    + intros bal' ->. eexists. reflexivity.
Qed.

(** An address is met by an input or an output of the transaction. *)
Lemma txs_uncounted_touch d bal0 st a b bal1 tu s v :
  txs_uncounted d bal0 st ->
  getAddressBalance d (td_balances st) a = Ok (b, bal1) ->
  txs_uncounted d bal0
    (mkTDS (if bool_decide (a ∈ td_addresses st) then td_addresses st else {[a]} ∪ td_addresses st) tu
       match b with
       | Some b =>
           <[a := Some (AddrBalance.mk
                          (if bool_decide (a ∈ td_addresses st) then AddrBalance.Txs b
                           else wrap32 (AddrBalance.Txs b - 1)) (s b) (v b))]> bal1
       | None => bal1
       end).
Proof.
  intros HI Hg a'. cbn [td_addresses td_balances].
  destruct (getAddressBalance_spec _ _ _ _ _ Hg) as (Hl & Hother & Hsame).
  destruct (decide (a' = a)) as [->|Hne].
  - specialize (HI a).
    assert (Hin : bool_decide (a ∈ (if bool_decide (a ∈ td_addresses st) then td_addresses st
                                    else {[a]} ∪ td_addresses st)) = true).
    { apply bool_decide_eq_true_2. destruct (bool_decide_reflect (a ∈ td_addresses st)); [assumption|].
      apply elem_of_union_l, elem_of_singleton. reflexivity. }
    rewrite Hin. destruct (bool_decide_reflect (a ∈ td_addresses st)) as [Hex|Hnex].
    + destruct HI as (b0 & bal2 & Hg0 & Hb0). exists b0, bal2. split; [exact Hg0|].
      destruct b0 as [b0|].
      * destruct Hb0 as (b' & Hb' & HT). unfold getAddressBalance in Hg. rewrite Hb' in Hg.
        injection Hg as <- <-. eexists. split; [apply lookup_insert_eq|]. exact HT.
      * unfold getAddressBalance in Hg. rewrite Hb0 in Hg. injection Hg as <- <-. exact Hb0.
    + destruct (Hsame bal0 (eq_sym HI)) as (bal2 & Hg0). exists b, bal2. split; [exact Hg0|].
      destruct b as [b|].
      * eexists. split; [apply lookup_insert_eq|]. reflexivity.
      * exact Hl.
  - assert (Hmem : bool_decide (a' ∈ (if bool_decide (a ∈ td_addresses st) then td_addresses st
                                      else {[a]} ∪ td_addresses st))
                   = bool_decide (a' ∈ td_addresses st)).
    { apply bool_decide_ext. destruct (bool_decide (a ∈ td_addresses st)); [reflexivity|].
      rewrite elem_of_union, elem_of_singleton. tauto. }
    rewrite Hmem.
    assert (Hbal : match b with
                   | Some b =>
                       <[a := Some (AddrBalance.mk
                                      (if bool_decide (a ∈ td_addresses st) then AddrBalance.Txs b
                                       else wrap32 (AddrBalance.Txs b - 1)) (s b) (v b))]> bal1
                   | None => bal1
                   end !! a' = td_balances st !! a').
    { destruct b; [rewrite lookup_insert_ne by congruence|]; apply Hother; exact Hne. }
    specialize (HI a'). destruct (bool_decide (a' ∈ td_addresses st)).
    + destruct HI as (b0 & bal2 & Hg0 & Hb0). exists b0, bal2. split; [exact Hg0|].
      rewrite Hbal. exact Hb0.
    + rewrite Hbal. exact HI.
Qed.

Lemma addresses_touch (S : gset (list Z)) a :
  (if bool_decide (a ∈ S) then S else {[a]} ∪ S) = {[a]} ∪ S.
Proof.
  destruct (bool_decide_reflect (a ∈ S)) as [Hin|]; [|reflexivity].
  symmetry. apply subseteq_union_1_L, singleton_subseteq_l. exact Hin.
Qed.

Lemma disconnectInput_uncounted d bal0 inputs st i t st' :
  txs_uncounted d bal0 st -> disconnectInput d inputs st i t = Ok st' ->
  txs_uncounted d bal0 st' /\
  td_addresses st' = list_to_set (filter (fun a => len a <> 0) [TxInput.AddrDesc t]) ∪ td_addresses st.
Proof.
  unfold disconnectInput. intros HI H.
  destruct (Z.ltb_spec 0 (len (TxInput.AddrDesc t))) as [Hlen|Hlen].
  2:{ injection H as <-. split; [exact HI|].
      rewrite filter_cons_False by (pose proof (len_nonneg (TxInput.AddrDesc t)); lia).
      rewrite filter_nil. cbn. rewrite (left_id_L ∅ (∪)). reflexivity. }
  destruct (getAddressBalance d (td_balances st) (TxInput.AddrDesc t)) as [[b bal1]| | |] eqn:Eg;
    try discriminate.
  cbn [mbind Res_bind] in H.
  destruct (item inputs i) as [inp| | |]; try discriminate. cbn [mbind Res_bind] in H.
  match type of H with context [@mbind _ _ _ _ _ ?r] =>
    destruct r as [sa| | |]; try discriminate
  end.
  cbn [mbind Res_bind] in H.
  match type of H with context [update_output ?j ?f sa] =>
    destruct (update_output j f sa) as [sa'| | |]; try discriminate
  end.
  cbn [mbind Res_bind] in H. injection H as <-. split.
  - exact (txs_uncounted_touch d bal0 st (TxInput.AddrDesc t) b bal1 _
             (fun b => let sentSat := AddrBalance.SentSat b - TxInput.ValueSat t in
                       if sentSat <? 0 then resetValueSatToZero sentSat else sentSat)
             (fun b => AddrBalance.BalanceSat b + TxInput.ValueSat t) HI Eg).
  - cbn [td_addresses]. rewrite addresses_touch, filter_cons_True by lia.
    rewrite filter_nil. cbn. rewrite (right_id_L ∅ (∪)). reflexivity.
Qed.

Lemma disconnectOutput_uncounted d bal0 st t st' :
  txs_uncounted d bal0 st -> disconnectOutput d st t = Ok st' ->
  txs_uncounted d bal0 st' /\
  td_addresses st' = list_to_set (filter (fun a => len a <> 0) [TxOutput.AddrDesc t]) ∪ td_addresses st.
Proof.
  unfold disconnectOutput. intros HI H.
  destruct (Z.ltb_spec 0 (len (TxOutput.AddrDesc t))) as [Hlen|Hlen].
  2:{ injection H as <-. split; [exact HI|].
      rewrite filter_cons_False by (pose proof (len_nonneg (TxOutput.AddrDesc t)); lia).
      rewrite filter_nil. cbn. rewrite (left_id_L ∅ (∪)). reflexivity. }
  destruct (getAddressBalance d (td_balances st) (TxOutput.AddrDesc t)) as [[b bal1]| | |] eqn:Eg;
    try discriminate.
  cbn [mbind Res_bind] in H. injection H as <-. split.
  - exact (txs_uncounted_touch d bal0 st (TxOutput.AddrDesc t) b bal1 _
             (fun b => AddrBalance.SentSat b)
             (fun b => let balanceSat := AddrBalance.BalanceSat b - TxOutput.ValueSat t in
                       if balanceSat <? 0 then resetValueSatToZero balanceSat else balanceSat)
             HI Eg).
  - cbn [td_addresses]. rewrite addresses_touch, filter_cons_True by lia.
    rewrite filter_nil. cbn. rewrite (right_id_L ∅ (∪)). reflexivity.
Qed.

Lemma disconnectInputs_uncounted d bal0 inputs : forall l st i st',
  txs_uncounted d bal0 st -> disconnectInputs d inputs st i l = Ok st' ->
  txs_uncounted d bal0 st' /\
  td_addresses st'
  = list_to_set (filter (fun a => len a <> 0) (map TxInput.AddrDesc l)) ∪ td_addresses st.
Proof.
  induction l as [|t l IH]; intros st i st' HI H; cbn [disconnectInputs] in H.
  - injection H as <-. split; [exact HI|]. cbn. rewrite (left_id_L ∅ (∪)). reflexivity.
  - destruct (disconnectInput d inputs st i t) as [st1| | |] eqn:E; try discriminate.
    cbn [mbind Res_bind] in H.
    destruct (disconnectInput_uncounted _ _ _ _ _ _ _ HI E) as [HI1 Ha1].
    destruct (IH _ _ _ HI1 H) as [HI2 Ha2]. split; [exact HI2|].
    rewrite Ha2, Ha1. cbn [map]. change (TxInput.AddrDesc t :: map TxInput.AddrDesc l)
      with ([TxInput.AddrDesc t] ++ map TxInput.AddrDesc l).
    rewrite filter_app, list_to_set_app_L.
    rewrite (assoc_L (∪)), (comm_L (∪) (list_to_set (filter _ (map TxInput.AddrDesc l)))).
    reflexivity.
Qed.

Lemma disconnectOutputs_uncounted d bal0 : forall l st st',
  txs_uncounted d bal0 st -> disconnectOutputs d st l = Ok st' ->
  txs_uncounted d bal0 st' /\
  td_addresses st'
  = list_to_set (filter (fun a => len a <> 0) (map TxOutput.AddrDesc l)) ∪ td_addresses st.
Proof.
  induction l as [|t l IH]; intros st st' HI H; cbn [disconnectOutputs] in H.
  - injection H as <-. split; [exact HI|]. cbn. rewrite (left_id_L ∅ (∪)). reflexivity.
  - destruct (disconnectOutput d st t) as [st1| | |] eqn:E; try discriminate.
    cbn [mbind Res_bind] in H.
    destruct (disconnectOutput_uncounted _ _ _ _ _ HI E) as [HI1 Ha1].
    destruct (IH _ _ HI1 H) as [HI2 Ha2]. split; [exact HI2|].
    rewrite Ha2, Ha1. cbn [map]. change (TxOutput.AddrDesc t :: map TxOutput.AddrDesc l)
      with ([TxOutput.AddrDesc t] ++ map TxOutput.AddrDesc l).
    rewrite filter_app, list_to_set_app_L.
    rewrite (assoc_L (∪)), (comm_L (∪) (list_to_set (filter _ (map TxOutput.AddrDesc l)))).
    reflexivity.
Qed.

Lemma deleteAddressKeys_app wb height l :
  deleteAddressKeys wb height l
  = wb ++ map (fun a => BatchDelete cfAddresses (packAddressKey a height)) l.
Proof.
  unfold deleteAddressKeys. revert wb. induction l as [|a l IH]; intros wb; cbn [fold_left map].
  - rewrite app_nil_r. reflexivity.
  - rewrite IH. unfold wb_DeleteCF. rewrite <- app_assoc. reflexivity.
Qed.

(** Disconnecting a transaction lowers the counter of an address by one,
    however many inputs and outputs of the transaction have the address;
    an address without a stored balance gets none; the balances of the
    other addresses stay as they are; and the batch gets one delete of
    the index key of each address of the transaction at the height. *)
Theorem disconnectTxAddresses_counts_once (d : Store) (wb : WriteBatch) (height : Z)
    (inputs : list outpoint.t) (txa : TxAddresses.t) (tu tu' : gmap (list Z) TxAddresses.t)
    (bal bal' : gmap (list Z) (option AddrBalance.t)) (wb' : WriteBatch) :
  disconnectTxAddresses d wb height inputs txa tu bal = Ok (wb', tu', bal') ->
  (forall a, a ∈ touched_addresses txa ->
     exists b0 bal1, getAddressBalance d bal a = Ok (b0, bal1) /\
       match b0 with
       | None => bal' !! a = Some None
       | Some b =>
           exists b', bal' !! a = Some (Some b') /\
             AddrBalance.Txs b' = wrap32 (AddrBalance.Txs b - 1)
       end) /\
  (forall a, a ∉ touched_addresses txa -> bal' !! a = bal !! a) /\
  (exists l, wb' = wb ++ map (fun a => BatchDelete cfAddresses (packAddressKey a height)) l /\
     NoDup l /\ forall a, a ∈ l <-> a ∈ touched_addresses txa).
Proof.
  unfold disconnectTxAddresses. intros H.
  match type of H with context [disconnectInputs ?d ?i ?s ?j ?l] =>
    destruct (disconnectInputs d i s j l) as [st1| | |] eqn:E1; try discriminate
  end.
  cbn [mbind Res_bind] in H.
  destruct (disconnectOutputs d st1 (TxAddresses.Outputs txa)) as [st2| | |] eqn:E2; try discriminate.
  cbn [mbind Res_bind] in H. injection H as <- <- <-.
  assert (H0 : txs_uncounted d bal (mkTDS ∅ tu bal)).
  { intros a. cbn [td_addresses td_balances].
    rewrite bool_decide_eq_false_2 by apply not_elem_of_empty. reflexivity. }
  destruct (disconnectInputs_uncounted _ _ _ _ _ _ _ H0 E1) as [HI1 Ha1].
  destruct (disconnectOutputs_uncounted _ _ _ _ _ HI1 E2) as [HI2 Ha2].
  assert (Hset : td_addresses st2 = list_to_set (touched_addresses txa)).
  { rewrite Ha2, Ha1. cbn [td_addresses]. unfold touched_addresses.
    rewrite filter_app, list_to_set_app_L, (right_id_L ∅ (∪)). apply (comm_L (∪)). }
  assert (Hmem : forall a, a ∈ td_addresses st2 <-> a ∈ touched_addresses txa).
  { intros a. rewrite Hset. apply elem_of_list_to_set. }
  split; [|split].
  - intros a Ha. specialize (HI2 a). rewrite bool_decide_eq_true_2 in HI2 by (apply Hmem; exact Ha).
    exact HI2.
  - intros a Ha. specialize (HI2 a).
    rewrite bool_decide_eq_false_2 in HI2 by (rewrite Hmem; exact Ha). exact HI2.
  - exists (elements (td_addresses st2)). split; [apply deleteAddressKeys_app|].
    split; [apply NoDup_elements|]. intros a. rewrite elem_of_elements. apply Hmem.
Qed.

Lemma disconnectTxAddresses_counts_once_witness :
  (forall a, a ∈ touched_addresses txAddressesOfBlock1 ->
     exists b0 bal1, getAddressBalance (db storeAfterBlock1) ∅ a = Ok (b0, bal1) /\
       match b0 with
       | None => snd disconnectedBlock1Tx !! a = Some None
       | Some b =>
           exists b', snd disconnectedBlock1Tx !! a = Some (Some b') /\
             AddrBalance.Txs b' = wrap32 (AddrBalance.Txs b - 1)
       end) /\
  (forall a, a ∉ touched_addresses txAddressesOfBlock1 -> snd disconnectedBlock1Tx !! a
     = (∅ : gmap (list Z) (option AddrBalance.t)) !! a) /\
  (exists l, fst (fst disconnectedBlock1Tx)
             = [] ++ map (fun a => BatchDelete cfAddresses (packAddressKey a 1)) l /\
     NoDup l /\ forall a, a ∈ l <-> a ∈ touched_addresses txAddressesOfBlock1).
Proof.
  apply (disconnectTxAddresses_counts_once (db storeAfterBlock1) [] 1 [outpoint.mk [0; 1] 0]
           txAddressesOfBlock1 ∅ (snd (fst disconnectedBlock1Tx)) ∅ (snd disconnectedBlock1Tx)
           (fst (fst disconnectedBlock1Tx))).
  vm_compute. reflexivity.
Defined.

(** The balances of the example after the transaction of [block1] was
    disconnected: the address [[65]], an input and an output of the
    transaction, is counted down once, from 2 to 1. *)
Example disconnect_counts_example :
  snd disconnectedBlock1Tx !! [65] = Some (Some (AddrBalance.mk 1 0 50)) /\
  snd disconnectedBlock1Tx !! [66] = Some (Some (AddrBalance.mk 0 0 0)).
Proof. vm_compute. split; reflexivity. Qed.
(** ** Chains without UTXO: the disconnect of a connected block *)





Section NonUTXO.

Context {chainParser : bchain.BlockChainParser}.









End NonUTXO.

Section NonUTXOBlocks.

Context {chainParser : bchain.BlockChainParser}.



End NonUTXOBlocks.



(** The columns of the example after the connect, and after the
    disconnect. *)
Example nonUTXO_example :
  dump (db (fst (ConnectBlock (chainParser := exampleParser false 0)
                   (mkRocksDB (exampleStore [] false) 6) accountBlock)))
  = [[]; [([0; 0; 0; 7], [9; 7; 0; 0; 0; 107; 1; 10])];
     [([71; 0; 0; 0; 7], [0; 5; 0]); ([70; 0; 0; 0; 7], [0; 5; 1])]; []; []; []; []] /\
  dump (db (fst (DisconnectBlock (chainParser := exampleParser false 0)
                   (fst (ConnectBlock (chainParser := exampleParser false 0)
                           (mkRocksDB (exampleStore [] false) 6) accountBlock)) accountBlock)))
  = [[]; []; []; []; []; []; []].
Proof. vm_compute. split; reflexivity. Qed.
(** ** The tx-addresses record: what is packed is read back *)

Lemma slice_app_mid {A : Type} (a b c : list A) :
  slice (a ++ b ++ c) (len a) (len a + len b) = Ok b.
Proof.
  rewrite slice_take_drop.
  - replace (Z.to_nat (len a)) with (length a) by (unfold len; lia).
    replace (Z.to_nat (len a + len b - len a)) with (length b) by (unfold len; lia).
    rewrite drop_app_length, take_app_length. reflexivity.
  - pose proof (len_nonneg a). pose proof (len_nonneg b). lia.
  - rewrite !len_app. pose proof (len_nonneg c). lia.
Qed.

Lemma slice_from_app {A : Type} (a b : list A) : slice_from (a ++ b) (len a) = Ok b.
Proof.
  rewrite slice_from_drop.
  - replace (Z.to_nat (len a)) with (length a) by (unfold len; lia).
    rewrite drop_app_length. reflexivity.
  - rewrite len_app. pose proof (len_nonneg a). pose proof (len_nonneg b). lia.
Qed.

Lemma len_take {A : Type} (l : list A) (n : Z) : 0 <= n <= len l -> len (take (Z.to_nat n) l) = n.
Proof. intros H. unfold len in *. rewrite length_take. lia. Qed.

Lemma unpackBigint_packBigint v buf :
  0 <= v < 2 ^ 1984 -> maxPackedBigintBytes <= len buf ->
  exists buf' l,
    packBigint v buf = Ok (buf', l) /\ 1 <= l <= maxPackedBigintBytes /\
    length buf' = length buf /\
    forall rest, unpackBigint (take (Z.to_nat l) buf' ++ rest) = Ok (v, l).
Proof.
  intros Hv Hbuf. destruct (packBigint_words v buf Hbuf) as (buf' & l & Hp & Hl & Hlen & _ & _ & Hu).
  exists buf', l. split; [exact Hp|]. split; [exact Hl|]. split; [exact Hlen|].
  intros rest. rewrite Hu, truncated_small by (rewrite Z.abs_eq by lia; apply Hv).
  rewrite Z.abs_eq by lia. reflexivity.
Qed.

(** One input: the bytes [appendTxInput] adds, read by [unpackTxInput]. *)
Lemma unpackTxInput_appendTxInput txi varBuf :
  txInput_ok txi -> maxPackedBigintBytes <= len varBuf ->
  exists enc varBuf',
    (forall buf, appendTxInput txi buf varBuf = Ok (buf ++ enc, varBuf')) /\
    length varBuf' = length varBuf /\
    forall rest, unpackTxInput (enc ++ rest) = Ok (txi, len enc).
Proof.
  intros [Hla Hv] Hvb. unfold maxPackedBigintBytes in Hvb. unfold maxAddrDescLen in Hla.
  pose proof (len_nonneg (TxInput.AddrDesc txi)) as Hla0.
  destruct (unpackVaruint_packVaruint (len (TxInput.AddrDesc txi)) varBuf) as (vb1 & l1 & Hp1 & Hl1 & Hlen1 & Hu1);
    [lia|unfold vlq.MaxLen64; lia|].
  unfold vlq.MaxLen64 in Hl1.
  assert (Hvb1 : len vb1 = len varBuf) by (unfold len; lia).
  destruct (unpackBigint_packBigint (TxInput.ValueSat txi) vb1 Hv) as (vb2 & l2 & Hp2 & Hl2 & Hlen2 & Hu2);
    [unfold maxPackedBigintBytes; lia|].
  unfold maxPackedBigintBytes in Hl2.
  assert (Hvb2 : len vb2 = len varBuf) by (unfold len in *; lia).
  set (v1 := take (Z.to_nat l1) vb1). set (v2 := take (Z.to_nat l2) vb2).
  assert (Hv1 : len v1 = l1) by (apply len_take; lia).
  assert (Hv2 : len v2 = l2) by (apply len_take; lia).
  exists (v1 ++ TxInput.AddrDesc txi ++ v2), vb2. split; [|split].
  - intros buf. unfold appendTxInput. rewrite Hp1. cbn [mbind Res_bind].
    rewrite slice_to_take by lia. cbn [mbind Res_bind]. rewrite Hp2. cbn [mbind Res_bind].
    rewrite slice_to_take by lia. cbn [mbind Res_bind]. fold v1 v2.
    rewrite <- !app_assoc. reflexivity.
  - lia.
  - intros rest. unfold unpackTxInput.
    rewrite <- !app_assoc. unfold v1 at 1. rewrite Hu1. fold v1.
    rewrite (to_int64_small (len (TxInput.AddrDesc txi))) by lia.
    rewrite <- Hv1 at 1 2. rewrite slice_app_mid. cbn [mbind Res_bind].
    rewrite (wrap64_small l1), wrap64_small by lia.
    replace (len (TxInput.AddrDesc txi) + l1) with (len (v1 ++ TxInput.AddrDesc txi))
      by (rewrite len_app; lia).
    rewrite (app_assoc v1), slice_from_app. cbn [mbind Res_bind].
    unfold v2 at 1. rewrite Hu2. cbn [mbind Res_bind]. fold v2.
    rewrite to_int64_small by (rewrite len_app; lia).
    destruct txi. cbn [TxInput.AddrDesc TxInput.ValueSat] in *. do 2 f_equal.
    rewrite !len_app. lia.
Qed.

(** One output: the spent flag is the sign of the stored length. *)
Lemma unpackTxOutput_appendTxOutput txo varBuf :
  txOutput_ok txo -> maxPackedBigintBytes <= len varBuf ->
  exists enc varBuf',
    (forall buf, appendTxOutput txo buf varBuf = Ok (buf ++ enc, varBuf')) /\
    length varBuf' = length varBuf /\
    forall rest, unpackTxOutput (enc ++ rest) = Ok (txo, len enc).
Proof.
  intros [Hla Hv] Hvb. unfold maxPackedBigintBytes in Hvb. unfold maxAddrDescLen in Hla.
  pose proof (len_nonneg (TxOutput.AddrDesc txo)) as Hla0.
  set (la := if TxOutput.Spent txo then Z.lnot (len (TxOutput.AddrDesc txo))
             else len (TxOutput.AddrDesc txo)).
  assert (Hrange : - 2 ^ 63 <= la < 2 ^ 63).
  { unfold la. destruct (TxOutput.Spent txo); unfold Z.lnot; lia. }
  destruct (unpackVarint_packVarint la varBuf Hrange) as (vb1 & l1 & Hp1 & Hl1 & Hlen1 & Hu1);
    [unfold vlq.MaxLen64; lia|].
  unfold vlq.MaxLen64 in Hl1.
  assert (Hvb1 : len vb1 = len varBuf) by (unfold len; lia).
  destruct (unpackBigint_packBigint (TxOutput.ValueSat txo) vb1 Hv) as (vb2 & l2 & Hp2 & Hl2 & Hlen2 & Hu2);
    [unfold maxPackedBigintBytes; lia|].
  unfold maxPackedBigintBytes in Hl2.
  assert (Hvb2 : len vb2 = len varBuf) by (unfold len in *; lia).
  set (v1 := take (Z.to_nat l1) vb1). set (v2 := take (Z.to_nat l2) vb2).
  assert (Hv1 : len v1 = l1) by (apply len_take; lia).
  assert (Hv2 : len v2 = l2) by (apply len_take; lia).
  exists (v1 ++ TxOutput.AddrDesc txo ++ v2), vb2. split; [|split].
  - intros buf. unfold appendTxOutput. fold la. rewrite Hp1. cbn [mbind Res_bind].
    rewrite slice_to_take by lia. cbn [mbind Res_bind]. rewrite Hp2. cbn [mbind Res_bind].
    rewrite slice_to_take by lia. cbn [mbind Res_bind]. fold v1 v2.
    rewrite <- !app_assoc. reflexivity.
  - lia.
  - intros rest. unfold unpackTxOutput.
    rewrite <- !app_assoc. unfold v1 at 1. rewrite Hu1. fold v1.
    assert (Hspent : (la <? 0) = TxOutput.Spent txo).
    { unfold la. destruct (TxOutput.Spent txo); unfold Z.lnot.
      - apply Z.ltb_lt. lia.
      - apply Z.ltb_ge. lia. }
    assert (Hal : (if la <? 0 then Z.lnot la else la) = len (TxOutput.AddrDesc txo)).
    { rewrite Hspent. unfold la. destruct (TxOutput.Spent txo); [|reflexivity].
      apply Z.lnot_involutive. }
    rewrite Hal, Hspent.
    rewrite <- Hv1 at 1 2. rewrite slice_app_mid. cbn [mbind Res_bind].
    replace (len (TxOutput.AddrDesc txo) + l1) with (len (v1 ++ TxOutput.AddrDesc txo))
      by (rewrite len_app; lia).
    rewrite (app_assoc v1), slice_from_app. cbn [mbind Res_bind].
    unfold v2 at 1. rewrite Hu2. cbn [mbind Res_bind]. fold v2.
    destruct txo. cbn [TxOutput.AddrDesc TxOutput.ValueSat TxOutput.Spent] in *. do 2 f_equal.
    rewrite !len_app. lia.
Qed.

Lemma unpackTxInputs_appendTxInputs : forall l varBuf,
  Forall txInput_ok l -> maxPackedBigintBytes <= len varBuf ->
  exists encs varBuf',
    (forall buf, appendTxInputs l buf varBuf = Ok (buf ++ encs, varBuf')) /\
    length varBuf' = length varBuf /\
    forall pre rest,
      unpackTxInputs (length l) (pre ++ encs ++ rest) (len pre) = Ok (l, len pre + len encs).
Proof.
  induction l as [|t l IH]; intros varBuf Hok Hvb.
  - exists [], varBuf. split; [|split].
    + intros buf. cbn. rewrite app_nil_r. reflexivity.
    + reflexivity.
    + intros pre rest. cbn. rewrite len_nil, Z.add_0_r. reflexivity.
  - inversion Hok as [|? ? Ht Hl]; subst.
    destruct (unpackTxInput_appendTxInput t varBuf Ht Hvb) as (enc & vb1 & Ha & Hlen1 & Hu).
    destruct (IH vb1 Hl) as (encs & vb2 & Has & Hlen2 & Hus); [unfold len in *; lia|].
    exists (enc ++ encs), vb2. split; [|split].
    + intros buf. cbn [appendTxInputs]. rewrite Ha. cbn [mbind Res_bind].
      rewrite Has, <- app_assoc. reflexivity.
    + lia.
    + intros pre rest. cbn [length unpackTxInputs].
      rewrite slice_from_app. cbn [mbind Res_bind].
      rewrite <- app_assoc, Hu. cbn [mbind Res_bind].
      specialize (Hus (pre ++ enc) rest). rewrite len_app, <- app_assoc in Hus.
      rewrite Hus. cbn [mbind Res_bind]. rewrite len_app. do 2 f_equal. lia.
Qed.

Lemma unpackTxOutputs_appendTxOutputs : forall l varBuf,
  Forall txOutput_ok l -> maxPackedBigintBytes <= len varBuf ->
  exists encs varBuf',
    (forall buf, appendTxOutputs l buf varBuf = Ok (buf ++ encs, varBuf')) /\
    length varBuf' = length varBuf /\
    forall pre rest,
      unpackTxOutputs (length l) (pre ++ encs ++ rest) (len pre) = Ok (l, len pre + len encs).
Proof.
  induction l as [|t l IH]; intros varBuf Hok Hvb.
  - exists [], varBuf. split; [|split].
    + intros buf. cbn. rewrite app_nil_r. reflexivity.
    + reflexivity.
    + intros pre rest. cbn. rewrite len_nil, Z.add_0_r. reflexivity.
  - inversion Hok as [|? ? Ht Hl]; subst.
    destruct (unpackTxOutput_appendTxOutput t varBuf Ht Hvb) as (enc & vb1 & Ha & Hlen1 & Hu).
    destruct (IH vb1 Hl) as (encs & vb2 & Has & Hlen2 & Hus); [unfold len in *; lia|].
    exists (enc ++ encs), vb2. split; [|split].
    + intros buf. cbn [appendTxOutputs]. rewrite Ha. cbn [mbind Res_bind].
      rewrite Has, <- app_assoc. reflexivity.
    + lia.
    + intros pre rest. cbn [length unpackTxOutputs].
      rewrite slice_from_app. cbn [mbind Res_bind].
      rewrite <- app_assoc, Hu. cbn [mbind Res_bind].
      specialize (Hus (pre ++ enc) rest). rewrite len_app, <- app_assoc in Hus.
      rewrite Hus. cbn [mbind Res_bind]. rewrite len_app. do 2 f_equal. lia.
Qed.

(** The tx-addresses record is read back as it was packed: for a record
    with a [uint32] height, amounts that are not negative and below
    2^1984 and descriptors of at most [maxAddrDescLen] bytes,
    [packTxAddresses] returns at least three bytes, [unpackTxAddresses]
    of them is the record, spent flags included, and [getTxAddresses]
    returns the record for a key under which these bytes are stored. *)
Theorem unpackTxAddresses_packTxAddresses (ta : TxAddresses.t) (varBuf : list Z) :
  txAddresses_ok ta -> maxPackedBigintBytes <= len varBuf ->
  exists buf varBuf',
    packTxAddresses ta varBuf = Ok (buf, varBuf') /\
    length varBuf' = length varBuf /\
    3 <= len buf /\
    unpackTxAddresses buf = Ok ta /\
    forall d btxID,
      read_fails d cfTxAddresses btxID = false ->
      cols d cfTxAddresses !! btxID = Some buf ->
      getTxAddresses d btxID = Ok (Some ta).
Proof.
  intros (Hh & Hni & Hno & Hins & Houts) Hvb.
  pose proof Hvb as Hvb'. unfold maxPackedBigintBytes in Hvb'.
  pose proof (len_nonneg (TxAddresses.Inputs ta)) as Hni0.
  pose proof (len_nonneg (TxAddresses.Outputs ta)) as Hno0.
  destruct (unpackVaruint_packVaruint (TxAddresses.Height ta) varBuf) as (vb1 & l1 & Hp1 & Hl1 & Hlen1 & Hu1);
    [lia|unfold vlq.MaxLen64; lia|].
  assert (Hvb1 : len vb1 = len varBuf) by (unfold len; lia).
  destruct (unpackVaruint_packVaruint (len (TxAddresses.Inputs ta)) vb1) as (vb2 & l2 & Hp2 & Hl2 & Hlen2 & Hu2);
    [lia|unfold vlq.MaxLen64; lia|].
  assert (Hvb2 : len vb2 = len varBuf) by (unfold len in *; lia).
  destruct (unpackTxInputs_appendTxInputs (TxAddresses.Inputs ta) vb2 Hins) as (encI & vb3 & Hai & Hlen3 & Hui);
    [lia|].
  assert (Hvb3 : len vb3 = len varBuf) by (unfold len in *; lia).
  destruct (unpackVaruint_packVaruint (len (TxAddresses.Outputs ta)) vb3) as (vb4 & l4 & Hp4 & Hl4 & Hlen4 & Hu4);
    [lia|unfold vlq.MaxLen64; lia|].
  assert (Hvb4 : len vb4 = len varBuf) by (unfold len in *; lia).
  destruct (unpackTxOutputs_appendTxOutputs (TxAddresses.Outputs ta) vb4 Houts) as (encO & vb5 & Hao & Hlen5 & Huo);
    [lia|].
  unfold vlq.MaxLen64 in *.
  set (v1 := take (Z.to_nat l1) vb1) in *. set (v2 := take (Z.to_nat l2) vb2) in *.
  set (v4 := take (Z.to_nat l4) vb4) in *.
  assert (Hv1 : len v1 = l1) by (apply len_take; lia).
  assert (Hv2 : len v2 = l2) by (apply len_take; lia).
  assert (Hv4 : len v4 = l4) by (apply len_take; lia).
  exists (v1 ++ v2 ++ encI ++ v4 ++ encO), vb5.
  assert (Hunpack : unpackTxAddresses (v1 ++ v2 ++ encI ++ v4 ++ encO) = Ok ta).
  { unfold unpackTxAddresses. rewrite Hu1.
    rewrite <- Hv1 at 1. rewrite slice_from_app. cbn [mbind Res_bind]. rewrite Hu2.
    replace (l1 + l2) with (len (v1 ++ v2)) by (rewrite len_app; lia).
    replace (Z.to_nat (len (TxAddresses.Inputs ta))) with (length (TxAddresses.Inputs ta))
      by (unfold len; lia).
    rewrite (app_assoc v1 v2), (Hui (v1 ++ v2) (v4 ++ encO)). cbn [mbind Res_bind].
    replace (len (v1 ++ v2) + len encI) with (len ((v1 ++ v2) ++ encI)) by (rewrite !len_app; lia).
    rewrite (app_assoc (v1 ++ v2) encI), slice_from_app. cbn [mbind Res_bind]. rewrite Hu4.
    replace (len ((v1 ++ v2) ++ encI) + l4) with (len (((v1 ++ v2) ++ encI) ++ v4))
      by (rewrite !len_app; lia).
    replace (Z.to_nat (len (TxAddresses.Outputs ta))) with (length (TxAddresses.Outputs ta))
      by (unfold len; lia).
    rewrite (app_assoc ((v1 ++ v2) ++ encI) v4).
    rewrite <- (app_nil_r encO) at 1. rewrite (Huo (((v1 ++ v2) ++ encI) ++ v4) []).
    cbn [mbind Res_bind]. rewrite wrap32_small by lia. destruct ta. reflexivity. }
  assert (Hlen : 3 <= len (v1 ++ v2 ++ encI ++ v4 ++ encO)).
  { rewrite !len_app. pose proof (len_nonneg encI). pose proof (len_nonneg encO). lia. }
  split; [|split; [|split; [|split]]].
  - unfold packTxAddresses. rewrite Hp1. cbn [mbind Res_bind].
    rewrite slice_to_take by lia. cbn [mbind Res_bind]. rewrite Hp2. cbn [mbind Res_bind].
    rewrite slice_to_take by lia. cbn [mbind Res_bind]. rewrite Hai. cbn [mbind Res_bind].
    rewrite Hp4. cbn [mbind Res_bind]. rewrite slice_to_take by lia. cbn [mbind Res_bind].
    rewrite Hao. cbn [app]. fold v1 v2 v4. rewrite <- !app_assoc. reflexivity.
  - lia.
  - exact Hlen.
  - exact Hunpack.
  - intros d btxID Hread Hcol. unfold getTxAddresses, GetCF. rewrite Hread, Hcol.
    cbn [mbind Res_bind default from_option id].
    destruct (Z.ltb_spec (len (v1 ++ v2 ++ encI ++ v4 ++ encO)) 3); [lia|].
    rewrite Hunpack. reflexivity.
Qed.

Lemma unpackTxAddresses_packTxAddresses_witness :
  exists buf varBuf',
    packTxAddresses txAddressesOfBlock1 (make_bytes maxPackedBigintBytes) = Ok (buf, varBuf') /\
    length varBuf' = length (make_bytes maxPackedBigintBytes) /\
    3 <= len buf /\
    unpackTxAddresses buf = Ok txAddressesOfBlock1 /\
    forall d btxID,
      read_fails d cfTxAddresses btxID = false ->
      cols d cfTxAddresses !! btxID = Some buf ->
      getTxAddresses d btxID = Ok (Some txAddressesOfBlock1).
Proof.
  apply (unpackTxAddresses_packTxAddresses txAddressesOfBlock1 (make_bytes maxPackedBigintBytes)).
  - unfold txAddresses_ok, txAddressesOfBlock1, txInput_ok, txOutput_ok, maxAddrDescLen, len.
    cbn [TxAddresses.Height TxAddresses.Inputs TxAddresses.Outputs].
    assert (Hbig : 50 < 2 ^ 1984) by (apply Z.ltb_lt; vm_compute; reflexivity).
    repeat split; repeat constructor;
      cbn [TxInput.AddrDesc TxInput.ValueSat TxOutput.AddrDesc TxOutput.ValueSat length]; lia.
  - vm_compute. discriminate.
Defined.

(** The record of the example as it is stored. *)
Example packTxAddresses_example :
  (r ← packTxAddresses txAddressesOfBlock1 (make_bytes maxPackedBigintBytes); Ok (fst r))
  = Ok [1; 1; 1; 65; 1; 50; 2; 2; 66; 1; 30; 2; 65; 1; 20].
Proof. vm_compute. reflexivity. Qed.
(** ** The balances: what is stored is read back *)

Lemma varuint_bytes_short (k : nat) : forall n x,
  (1 <= k)%nat -> 0 <= x < 2 ^ (7 * Z.of_nat k) -> (length (varuint_bytes n x) <= k)%nat.
Proof.
  induction k as [|k IH]; intros n x Hk Hx; [lia|].
  destruct n as [|n]; cbn [varuint_bytes]; [cbn [length]; lia|].
  destruct (Z.leb_spec 128 x) as [Hge|Hlt]; [|cbn [length]; lia].
  cbn [length]. destruct k as [|k].
  - change (2 ^ (7 * Z.of_nat 1)) with 128 in Hx. lia.
  - specialize (IH n (Z.shiftr x 7) ltac:(lia)). apply le_n_S, IH.
    rewrite Z.shiftr_div_pow2 by lia. split; [apply Z.div_pos; lia|].
    apply Z.div_lt_upper_bound; [lia|]. rewrite <- Z.pow_add_r by lia.
    replace (7 + 7 * Z.of_nat (S k)) with (7 * Z.of_nat (S (S k))) by lia. lia.
Qed.

(** A [uint32] takes at most [vlq.MaxLen32] bytes. *)
Lemma packVaruint_uint32 x buf :
  0 <= x < 2 ^ 32 -> vlq.MaxLen64 <= len buf ->
  exists buf' l,
    packVaruint x buf = Ok (buf', l) /\ 1 <= l <= vlq.MaxLen32 /\
    length buf' = length buf /\
    forall rest, unpackVaruint (take (Z.to_nat l) buf' ++ rest) = (x, l).
Proof.
  intros Hx Hlen.
  destruct (unpackVaruint_packVaruint x buf) as (buf' & l & Hp & Hl & Hlb & Hu); [lia|exact Hlen|].
  exists buf', l. split; [exact Hp|]. split; [|split; [exact Hlb|exact Hu]].
  split; [lia|]. unfold packVaruint, vlq.PutUint in Hp. rewrite !(wrap64_small x) in Hp by lia.
  unfold vlq.MaxLen64 in Hlen.
  rewrite PutUint_loop_splice in Hp by (change (Z.of_nat 9) with 9; lia).
  pose proof (f_equal (fun r : Res (list Z * Z) => match r with Ok p => snd p | _ => 0 end) Hp) as El.
  cbv beta iota in El. cbn [snd] in El. subst l. clear Hp Hu.
  pose proof (varuint_bytes_short 5 9 x ltac:(lia)) as Hs.
  change (2 ^ (7 * Z.of_nat 5)) with (2 ^ 35) in Hs. unfold vlq.MaxLen32, len.
  specialize (Hs ltac:(lia)). lia.
Qed.

Lemma pack_at_spec (pack : list Z -> Res (list Z * Z)) buf l b' ll :
  0 <= l <= len buf ->
  pack (drop (Z.to_nat l) buf) = Ok (b', ll) ->
  pack_at pack buf l = Ok (take (Z.to_nat l) buf ++ b', ll).
Proof.
  intros Hl Hp. unfold pack_at. rewrite slice_from_drop by lia. cbn [mbind Res_bind].
  rewrite Hp. reflexivity.
Qed.

(** One balance with transactions: the bytes for the batch. *)
Lemma pack_balance ab buf :
  balance_ok ab -> 0 < AddrBalance.Txs ab ->
  len buf = vlq.MaxLen32 + 2 * maxPackedBigintBytes ->
  exists buf1 l1 buf2 l2 buf3 l3 value,
    packVaruint (AddrBalance.Txs ab) buf = Ok (buf1, l1) /\
    pack_at (packBigint (AddrBalance.SentSat ab)) buf1 l1 = Ok (buf2, l2) /\
    pack_at (packBigint (AddrBalance.BalanceSat ab)) buf2 (l1 + l2) = Ok (buf3, l3) /\
    slice_to buf3 (l1 + l2 + l3) = Ok value /\
    len buf3 = len buf /\ reads_balance value ab.
Proof.
  intros (Ht & Hs & Hb) Hpos Hbuf. unfold vlq.MaxLen32, maxPackedBigintBytes in Hbuf.
  destruct (packVaruint_uint32 (AddrBalance.Txs ab) buf Ht) as (buf1 & l1 & Hp1 & Hl1 & Hlen1 & Hu1);
    [unfold vlq.MaxLen64; lia|].
  unfold vlq.MaxLen32 in Hl1.
  assert (Hb1 : len buf1 = 503) by (unfold len in *; lia).
  destruct (unpackBigint_packBigint (AddrBalance.SentSat ab) (drop (Z.to_nat l1) buf1) Hs)
    as (b2 & l2 & Hp2 & Hl2 & Hlen2 & Hu2).
  { unfold maxPackedBigintBytes, len in *. rewrite length_drop. lia. }
  unfold maxPackedBigintBytes in Hl2.
  set (buf2 := take (Z.to_nat l1) buf1 ++ b2).
  assert (Hb2 : len buf2 = 503).
  { unfold buf2. rewrite len_app. unfold len in *. rewrite length_take, Hlen2, length_drop. lia. }
  assert (Hd2 : drop (Z.to_nat (l1 + l2)) buf2 = drop (Z.to_nat l2) b2).
  { unfold buf2. rewrite drop_app_ge by (rewrite length_take; unfold len in *; lia).
    f_equal. rewrite length_take. unfold len in *. lia. }
  destruct (unpackBigint_packBigint (AddrBalance.BalanceSat ab) (drop (Z.to_nat (l1 + l2)) buf2) Hb)
    as (b3 & l3 & Hp3 & Hl3 & Hlen3 & Hu3).
  { unfold maxPackedBigintBytes, len in *. rewrite length_drop. lia. }
  unfold maxPackedBigintBytes in Hl3.
  set (buf3 := take (Z.to_nat (l1 + l2)) buf2 ++ b3).
  assert (Hb3 : len buf3 = 503).
  { unfold buf3. rewrite len_app. unfold len in *. rewrite length_take, Hlen3, length_drop. lia. }
  set (v1 := take (Z.to_nat l1) buf1) in *.
  set (v2 := take (Z.to_nat l2) b2) in *.
  set (v3 := take (Z.to_nat l3) b3) in *.
  assert (Hv1 : len v1 = l1) by (apply len_take; lia).
  assert (Hlb2 : len b2 = 503 - l1) by (unfold len in *; rewrite Hlen2, length_drop; lia).
  assert (Hv2 : len v2 = l2) by (apply len_take; lia).
  assert (Hlb3 : len b3 = 503 - (l1 + l2)) by (unfold len in *; rewrite Hlen3, length_drop; lia).
  assert (Hv3 : len v3 = l3) by (apply len_take; lia).
  assert (Ht2 : take (Z.to_nat (l1 + l2)) buf2 = v1 ++ v2).
  { unfold buf2. rewrite take_app. fold v1.
    rewrite take_ge by (unfold len in *; lia). f_equal.
    unfold v2. f_equal. unfold len in *. lia. }
  assert (Hval : take (Z.to_nat (l1 + l2 + l3)) buf3 = v1 ++ v2 ++ v3).
  { unfold buf3. rewrite Ht2, take_app.
    rewrite take_ge by (unfold len in *; rewrite length_app; lia).
    rewrite <- app_assoc. do 2 f_equal. unfold v3. f_equal.
    unfold len in *. rewrite length_app. lia. }
  exists buf1, l1, buf2, l2, buf3, l3, (v1 ++ v2 ++ v3).
  split; [exact Hp1|]. split; [apply pack_at_spec; [lia|exact Hp2]|].
  split; [apply pack_at_spec; [lia|exact Hp3]|].
  split; [rewrite slice_to_take by lia; rewrite Hval; reflexivity|].
  split; [lia|].
  intros d a Hread Hcol. unfold GetAddrDescBalance, GetCF. rewrite Hread, Hcol.
  cbn [mbind Res_bind default from_option id].
  destruct (Z.ltb_spec (len (v1 ++ v2 ++ v3)) 3) as [Hshort|_].
  { rewrite !len_app in Hshort. lia. }
  unfold v1 at 1. rewrite Hu1. fold v1.
  rewrite <- Hv1 at 1. rewrite slice_from_app. cbn [mbind Res_bind].
  unfold v2 at 1. rewrite Hu2. fold v2. cbn [mbind Res_bind].
  replace (l1 + l2) with (len (v1 ++ v2)) by (rewrite len_app; lia).
  rewrite (app_assoc v1 v2), slice_from_app. cbn [mbind Res_bind].
  rewrite <- (app_nil_r v3). unfold v3 at 1. rewrite Hu3. cbn [mbind Res_bind].
  rewrite wrap32_small by lia. destruct ab. reflexivity.
Qed.

Lemma storeBalances_loop_spec : forall l wb buf,
  len buf = vlq.MaxLen32 + 2 * maxPackedBigintBytes ->
  Forall (fun e => forall ab, snd e = Some ab -> balance_ok ab) l ->
  exists ops, storeBalances_loop wb l buf = Ok (wb ++ ops) /\ Forall2 balance_op l ops.
Proof.
  induction l as [|[a b] l IH]; intros wb buf Hbuf Hok; cbn [storeBalances_loop].
  - exists []. rewrite app_nil_r. split; [reflexivity|constructor].
  - inversion Hok as [|? ? Hb Hl]; subst. cbn [snd] in Hb.
    destruct b as [ab|].
    + destruct (Z.leb_spec (AddrBalance.Txs ab) 0) as [Hz|Hpos].
      * destruct (IH (wb_DeleteCF wb cfAddressBalance a) buf Hbuf Hl) as (ops & Hr & Hops).
        exists (BatchDelete cfAddressBalance a :: ops).
        split; [rewrite Hr; unfold wb_DeleteCF; rewrite <- app_assoc; reflexivity|].
        constructor; [|exact Hops].
        unfold balance_op. cbn [snd fst]. destruct (Z.leb_spec (AddrBalance.Txs ab) 0); [reflexivity|lia].
      * destruct (pack_balance ab buf (Hb ab eq_refl) Hpos Hbuf)
          as (buf1 & l1 & buf2 & l2 & buf3 & l3 & value & Hp1 & Hp2 & Hp3 & Hv & Hlen3 & Hrd).
        rewrite Hp1. cbn [mbind Res_bind]. rewrite Hp2. cbn [mbind Res_bind].
        rewrite Hp3. cbn [mbind Res_bind]. rewrite Hv. cbn [mbind Res_bind].
        destruct (IH (wb_PutCF wb cfAddressBalance a value) buf3 ltac:(lia) Hl) as (ops & Hr & Hops).
        exists (BatchPut cfAddressBalance a value :: ops).
        split; [rewrite Hr; unfold wb_PutCF; rewrite <- app_assoc; reflexivity|].
        constructor; [|exact Hops].
        unfold balance_op. cbn [snd fst].
        destruct (Z.leb_spec (AddrBalance.Txs ab) 0); [lia|]. eauto.
    + destruct (IH (wb_DeleteCF wb cfAddressBalance a) buf Hbuf Hl) as (ops & Hr & Hops).
      exists (BatchDelete cfAddressBalance a :: ops).
      split; [rewrite Hr; unfold wb_DeleteCF; rewrite <- app_assoc; reflexivity|].
      constructor; [|exact Hops]. reflexivity.
Qed.

(** [storeBalances] adds one operation to the batch for every address of
    the map, in the order the map is walked: a delete of the balance for
    a [nil] balance and for a balance without transactions, and else a
    put of bytes from which [GetAddrDescBalance] reads the balance back.
    The buffer shared by the entries is long enough for every balance
    with a [uint32] counter and amounts from 0 to below 2^1984. *)
Theorem storeBalances_read_back (wb : WriteBatch) (abm : gmap (list Z) (option AddrBalance.t)) :
  (forall a ab, abm !! a = Some (Some ab) -> balance_ok ab) ->
  exists ops,
    storeBalances wb abm = Ok (wb ++ ops) /\ Forall2 balance_op (map_to_list abm) ops.
Proof.
  intros Hok. unfold storeBalances. apply storeBalances_loop_spec.
  - unfold make_bytes, len. rewrite length_replicate. reflexivity.
  - apply Forall_forall. intros [a b] Hin ab Hb. cbn [snd] in Hb. subst b.
    apply elem_of_map_to_list in Hin. exact (Hok _ _ Hin).
Qed.

Lemma storeBalances_read_back_witness :
  exists ops,
    storeBalances [] (snd disconnectedBlock1Tx) = Ok ([] ++ ops) /\
    Forall2 balance_op (map_to_list (snd disconnectedBlock1Tx)) ops.
Proof.
  apply (storeBalances_read_back [] (snd disconnectedBlock1Tx)).
  intros a ab Ha. apply elem_of_map_to_list in Ha.
  assert (Hl : map_to_list (snd disconnectedBlock1Tx)
               = [([66], Some (AddrBalance.mk 0 0 0)); ([65], Some (AddrBalance.mk 1 0 50))])
    by (vm_compute; reflexivity).
  rewrite Hl in Ha.
  assert (Hbig : 50 < 2 ^ 1984) by (apply Z.ltb_lt; vm_compute; reflexivity).
  apply elem_of_cons in Ha. destruct Ha as [Ha|Ha].
  - injection Ha as _ ->. unfold balance_ok.
    cbn [AddrBalance.Txs AddrBalance.SentSat AddrBalance.BalanceSat]. lia.
  - apply list_elem_of_singleton in Ha. injection Ha as _ ->. unfold balance_ok.
    cbn [AddrBalance.Txs AddrBalance.SentSat AddrBalance.BalanceSat]. lia.
Defined.

(** The batch of the example: the address [[66]] is left without
    transactions and its balance is deleted. *)
Example storeBalances_example :
  storeBalances [] (snd disconnectedBlock1Tx)
  = Ok [BatchDelete cfAddressBalance [66]; BatchPut cfAddressBalance [65] [1; 0; 1; 50]].
Proof. vm_compute. reflexivity. Qed.
(** ** Outpoints and block-tx records: what is packed is read back *)

Lemma PutUint_loop_fits n : forall buf i x,
  0 <= i -> i + len (varuint_bytes n x) <= len buf ->
  vlq.PutUint_loop n buf i x =
    Ok (splice buf (Z.to_nat i) (varuint_bytes n x), i + len (varuint_bytes n x)).
Proof.
  induction n as [|n IH]; intros buf i x Hi Hlen; cbn [vlq.PutUint_loop varuint_bytes] in *.
  - rewrite len_cons, len_nil in Hlen. rewrite set_item_splice by lia. reflexivity.
  - destruct (128 <=? x).
    + rewrite len_cons in Hlen. pose proof (len_nonneg (varuint_bytes n (Z.shiftr x 7))) as Hn.
      rewrite set_item_splice by lia. cbn [mbind Res_bind].
      assert (Hl : (Z.to_nat i + 1 + length (varuint_bytes n (Z.shiftr x 7)) <= length buf)%nat)
        by (unfold len in *; lia).
      rewrite IH; [|lia|].
      2:{ unfold len in *. rewrite length_splice by (cbn [length]; lia). lia. }
      f_equal. f_equal.
      * replace (Z.to_nat (i + 1)) with (Z.to_nat i + length [Z.lor (to_byte x) 128])%nat
          by (cbn [length]; lia).
        rewrite splice_app; [reflexivity|]. cbn [length]. lia.
      * rewrite len_cons. lia.
    + rewrite len_cons, len_nil in Hlen. rewrite set_item_splice by lia. reflexivity.
Qed.

Lemma zigzag_int32 x :
  - 2 ^ 31 <= x < 2 ^ 31 ->
  0 <= (if x <? 0 then wrap64 (Z.lnot (wrap64 (Z.shiftl (wrap64 x) 1)))
        else wrap64 (Z.shiftl (wrap64 x) 1)) < 2 ^ 32.
Proof.
  intros Hx. rewrite Z.shiftl_mul_pow2 by lia. change (2 ^ 1) with 2.
  destruct (Z.ltb_spec x 0) as [Hneg|Hpos].
  - assert (H0 : wrap64 x = x + 2 ^ 64).
    { unfold wrap64. symmetry. apply (Z.mod_unique_pos _ _ (-1)); lia. }
    assert (H1 : wrap64 (wrap64 x * 2) = 2 * x + 2 ^ 64).
    { rewrite H0. unfold wrap64. symmetry. apply (Z.mod_unique_pos _ _ 1); lia. }
    rewrite H1.
    assert (H2 : wrap64 (Z.lnot (2 * x + 2 ^ 64)) = - 2 * x - 1).
    { unfold wrap64, Z.lnot. symmetry. apply (Z.mod_unique_pos _ _ (-1)); lia. }
    rewrite H2. lia.
  - rewrite (wrap64_small x) by lia. rewrite (wrap64_small (x * 2)) by lia. lia.
Qed.

(** An [int32] is packed into a buffer of [vlq.MaxLen32] bytes. *)
Lemma unpackVarint32_packVarint32 x buf :
  - 2 ^ 31 <= x < 2 ^ 31 -> vlq.MaxLen32 <= len buf ->
  exists buf' l,
    packVarint32 x buf = Ok (buf', l) /\ 1 <= l <= vlq.MaxLen32 /\
    length buf' = length buf /\
    forall rest, unpackVarint32 (take (Z.to_nat l) buf' ++ rest) = (x, l).
Proof.
  intros Hx Hlen. unfold vlq.MaxLen32 in *.
  unfold packVarint32, vlq.PutInt. rewrite (to_int64_small x) by lia.
  destruct (zigzag_inverse x ltac:(lia)) as [Hux Hinv]. cbv zeta in Hux, Hinv.
  pose proof (zigzag_int32 x Hx) as H32.
  set (ux := if x <? 0 then _ else _) in *.
  pose proof (varuint_bytes_short 5 9 ux ltac:(lia)) as Hs.
  change (2 ^ (7 * Z.of_nat 5)) with (2 ^ 35) in Hs. specialize (Hs ltac:(lia)).
  pose proof (length_varuint_bytes 9 ux) as Hb.
  unfold vlq.PutUint. rewrite (wrap64_small ux) by lia.
  rewrite PutUint_loop_fits by (unfold len in *; lia).
  assert (Hl : (0 + length (varuint_bytes 9 ux) <= length buf)%nat) by (unfold len in Hlen; lia).
  eexists _, _. split; [reflexivity|]. split; [unfold len; lia|].
  split; [apply length_splice; exact Hl|].
  intros rest. change (Z.to_nat 0) with 0%nat.
  replace (Z.to_nat (0 + len (varuint_bytes 9 ux))) with (0 + length (varuint_bytes 9 ux))%nat
    by (unfold len; lia).
  rewrite take_splice by exact Hl. rewrite take_0, app_nil_l.
  unfold unpackVarint32, vlq.Int, vlq.Uint.
  assert (Hx0 : 0 <= ux < 2 ^ (64 - 7 * 0)) by (change (2 ^ (64 - 7 * 0)) with (2 ^ 64); lia).
  pose proof (Uint_loop_varuint 9 ux 0 0 rest ltac:(lia) ltac:(lia) Hx0) as HU.
  change (7 * 0) with 0 in HU. rewrite HU.
  rewrite Z.shiftl_0_r, Z.lor_0_l, Hinv. rewrite to_int32_small by lia. reflexivity.
Qed.

Section OutpointsRoundTrip.

Context {chainParser : bchain.BlockChainParser}.

(** The bytes [packOutpoints] writes for a list of outpoints, read by the
    loops of [unpackNOutpoints] and of [unpackOutpoints]. *)
Lemma packOutpoints_loop_spec : forall l bvout,
  0 <= bchain.PackedTxidLen ->
  Forall (outpoint_ok bchain.PackedTxidLen) l -> vlq.MaxLen32 <= len bvout ->
  exists enc,
    (forall buf, packOutpoints_loop l buf bvout = Ok (buf ++ enc)) /\
    (length l <= length enc)%nat /\
    (forall pre rest,
       unpackNOutpoints_loop (length l) (pre ++ enc ++ rest) (len pre)
       = Ok (l, len pre + len enc)) /\
    (forall fuel pre acc, (length l < fuel)%nat ->
       unpackOutpoints_loop fuel (pre ++ enc) (len pre) acc = Ok (acc ++ l)).
Proof.
  intros l bvout Hpl. revert bvout.
  induction l as [|o l IH]; intros bvout Hok Hbv.
  - exists []. split; [|split; [|split]].
    + intros buf. cbn. rewrite app_nil_r. reflexivity.
    + cbn. lia.
    + intros pre rest. cbn. rewrite len_nil, Z.add_0_r. reflexivity.
    + intros fuel pre acc Hf. rewrite !app_nil_r.
      destruct fuel; cbn [unpackOutpoints_loop]; rewrite Z.ltb_irrefl; reflexivity.
  - inversion Hok as [|? ? [Hlen Hidx] Hl]; subst.
    destruct (unpackVarint32_packVarint32 (outpoint.index o) bvout Hidx Hbv)
      as (bv1 & l1 & Hp1 & Hl1 & Hlen1 & Hu1).
    unfold vlq.MaxLen32 in *.
    destruct (IH bv1 Hl ltac:(unfold len in *; lia)) as (enc & Hpack & Hcount & Hn & Ho).
    set (v := take (Z.to_nat l1) bv1) in *.
    assert (Hv : len v = l1) by (apply len_take; unfold len in *; lia).
    exists (outpoint.btxID o ++ v ++ enc). split; [|split; [|split]].
    + intros buf. cbn [packOutpoints_loop]. rewrite Hp1. cbn [mbind Res_bind].
      rewrite slice_to_take by (unfold len in *; lia). cbn [mbind Res_bind]. fold v.
      rewrite Hpack, <- !app_assoc. reflexivity.
    + rewrite !length_app. cbn [length]. unfold len in Hv. lia.
    + intros pre rest. cbn [length unpackNOutpoints_loop].
      destruct (Z.leb_spec (len (pre ++ (outpoint.btxID o ++ v ++ enc) ++ rest))
                  (len pre + bchain.PackedTxidLen)) as [Hshort|_].
      { rewrite !len_app in Hshort. pose proof (len_nonneg enc). pose proof (len_nonneg rest). lia. }
      rewrite <- !app_assoc. rewrite <- Hlen at 1. rewrite slice_app_mid. cbn [mbind Res_bind].
      replace (len pre + bchain.PackedTxidLen) with (len (pre ++ outpoint.btxID o))
        by (rewrite len_app; lia).
      rewrite (app_assoc pre), slice_from_app. cbn [mbind Res_bind].
      unfold v at 1. rewrite Hu1. fold v.
      specialize (Hn ((pre ++ outpoint.btxID o) ++ v) rest).
      rewrite <- !app_assoc in Hn. rewrite <- !app_assoc.
      replace (len (pre ++ outpoint.btxID o) + l1) with (len (pre ++ outpoint.btxID o ++ v))
        by (rewrite !len_app; lia).
      rewrite Hn. cbn [mbind Res_bind]. destruct o. cbn [outpoint.btxID outpoint.index].
      do 2 f_equal. rewrite !len_app. cbn [outpoint.btxID]. lia.
    + intros fuel pre acc Hf. destruct fuel as [|fuel]; [lia|]. cbn [unpackOutpoints_loop].
      destruct (Z.ltb_spec (len pre) (len (pre ++ outpoint.btxID o ++ v ++ enc))) as [_|Hge].
      2:{ rewrite !len_app in Hge. pose proof (len_nonneg enc). lia. }
      rewrite <- Hlen at 1. rewrite slice_app_mid. cbn [mbind Res_bind].
      replace (len pre + bchain.PackedTxidLen) with (len (pre ++ outpoint.btxID o))
        by (rewrite len_app; lia).
      rewrite (app_assoc pre), slice_from_app. cbn [mbind Res_bind].
      unfold v at 1. rewrite Hu1. fold v.
      specialize (Ho fuel ((pre ++ outpoint.btxID o) ++ v)
                    (acc ++ [outpoint.mk (outpoint.btxID o) (outpoint.index o)])
                    ltac:(cbn [length] in Hf; lia)).
      rewrite <- !app_assoc in Ho. rewrite <- !app_assoc.
      replace (len (pre ++ outpoint.btxID o) + l1) with (len (pre ++ outpoint.btxID o ++ v))
        by (rewrite !len_app; lia).
      rewrite Ho. destruct o. reflexivity.
Qed.

End OutpointsRoundTrip.

(** The outpoints of an address are read back as they were packed: for
    outpoints whose txid has the length of a packed txid and whose index
    is an [int32], [unpackOutpoints] of what [packOutpoints] returns is
    the list, and [unpackNOutpoints] reads it after its length. *)
Theorem unpackOutpoints_packOutpoints {chainParser : bchain.BlockChainParser}
    (outpoints : list outpoint.t) :
  0 <= bchain.PackedTxidLen ->
  Forall (outpoint_ok bchain.PackedTxidLen) outpoints ->
  exists buf,
    packOutpoints outpoints = Ok buf /\
    unpackOutpoints buf = Ok outpoints /\
    forall rest,
      unpackNOutpoints_loop (length outpoints) (buf ++ rest) 0 = Ok (outpoints, len buf).
Proof.
  intros Hpl Hok.
  destruct (packOutpoints_loop_spec outpoints (make_bytes vlq.MaxLen32) Hpl Hok)
    as (enc & Hpack & Hcount & Hn & Ho).
  { unfold make_bytes, len. rewrite length_replicate. lia. }
  exists enc. split; [|split].
  - unfold packOutpoints. rewrite Hpack. reflexivity.
  - unfold unpackOutpoints. apply (Ho (S (length enc)) [] []). lia.
  - intros rest. exact (Hn [] rest).
Qed.

Lemma unpackOutpoints_packOutpoints_witness :
  exists buf,
    packOutpoints [outpoint.mk [0; 2] 1; outpoint.mk [0; 2] (-1)] = Ok buf /\
    unpackOutpoints (chainParser := exampleParser true 2) buf
    = Ok [outpoint.mk [0; 2] 1; outpoint.mk [0; 2] (-1)] /\
    forall rest,
      unpackNOutpoints_loop (chainParser := exampleParser true 2)
        (length [outpoint.mk [0; 2] 1; outpoint.mk [0; 2] (-1)]) (buf ++ rest) 0
      = Ok ([outpoint.mk [0; 2] 1; outpoint.mk [0; 2] (-1)], len buf).
Proof.
  apply (unpackOutpoints_packOutpoints (chainParser := exampleParser true 2)
           [outpoint.mk [0; 2] 1; outpoint.mk [0; 2] (-1)]).
  - vm_compute. discriminate.
  - repeat constructor; cbn; lia.
Defined.

Lemma to_int32_range x : - 2 ^ 31 <= to_int32 x < 2 ^ 31.
Proof. unfold to_int32. pose proof (Z.mod_pos_bound (x + 2 ^ 31) (2 ^ 32) ltac:(lia)). lia. Qed.

Section BlockTxsRoundTrip.

Context {chainParser : bchain.BlockChainParser}.

(** The indexes of the inputs of a block-tx record are [int32] values. *)
Lemma blockTxInputs_index zeroTx : forall vins o,
  blockTxInputs vins zeroTx = Ok o ->
  Forall (fun op => - 2 ^ 31 <= outpoint.index op < 2 ^ 31) o.
Proof.
  induction vins as [|vin vins IH]; intros o H; cbn [blockTxInputs] in H.
  - injection H as <-. constructor.
  - destruct (match bchain.PackTxid (bchain.Vin_Txid vin) with
              | Err ErrTxidMissing => Ok zeroTx | r => r end) as [b| | |];
      cbn [mbind Res_bind] in H; try discriminate.
    destruct (blockTxInputs vins zeroTx) as [o'| | |]; cbn [mbind Res_bind] in H; try discriminate.
    injection H as <-. constructor; [apply to_int32_range|apply IH; reflexivity].
Qed.

(** What [packBlockTxs] appends for the transactions of a block, read by
    the loop of [getBlockTxs]. *)
Lemma packBlockTxs_spec zeroTx : forall txs bts buf varBuf,
  0 <= bchain.PackedTxidLen -> vlq.MaxLen64 <= len varBuf ->
  blockTxsOf txs zeroTx = Ok bts ->
  Forall (blockTxs_ok bchain.PackedTxidLen) bts ->
  exists enc,
    packBlockTxs txs buf varBuf zeroTx = Ok (buf ++ enc) /\
    (length bts <= length enc)%nat /\
    forall fuel pre acc, (length bts < fuel)%nat ->
      getBlockTxs_loop fuel (pre ++ enc) (len pre) acc = Ok (acc ++ bts).
Proof.
  induction txs as [|tx txs IH]; intros bts buf varBuf Hpl Hvb Hbts Hok.
  - cbn [blockTxsOf] in Hbts. injection Hbts as <-. exists []. split; [|split].
    + cbn. rewrite app_nil_r. reflexivity.
    + cbn. lia.
    + intros fuel pre acc _. rewrite !app_nil_r.
      destruct fuel; cbn [getBlockTxs_loop]; rewrite Z.ltb_irrefl; reflexivity.
  - cbn [blockTxsOf] in Hbts.
    destruct (blockTxInputs (bchain.Tx_Vin tx) zeroTx) as [o| | |] eqn:Eo;
      cbn [mbind Res_bind] in Hbts; try discriminate.
    destruct (bchain.PackTxid (bchain.Tx_Txid tx)) as [btxID| | |] eqn:Et;
      cbn [mbind Res_bind] in Hbts; try discriminate.
    destruct (blockTxsOf txs zeroTx) as [r| | |] eqn:Er;
      cbn [mbind Res_bind] in Hbts; try discriminate.
    injection Hbts as <-.
    inversion Hok as [|? ? (Hlen & Hcount & Hins) Hr]; subst.
    cbn [blockTxs.btxID blockTxs.inputs] in Hlen, Hcount, Hins.
    destruct (unpackVaruint_packVaruint (len o) varBuf) as (vb1 & l1 & Hp1 & Hl1 & Hlen1 & Hu1);
      [pose proof (len_nonneg o); lia|exact Hvb|].
    assert (Hoo : Forall (outpoint_ok bchain.PackedTxidLen) o).
    { pose proof (blockTxInputs_index zeroTx _ _ Eo) as Hidx.
      rewrite Forall_forall in Hins, Hidx. apply Forall_forall. intros op Hop.
      split; [apply Hins, Hop|apply Hidx, Hop]. }
    destruct (packOutpoints_loop_spec o (make_bytes vlq.MaxLen32) Hpl Hoo)
      as (po & Hpack & _ & Hn & _).
    { unfold make_bytes, len. rewrite length_replicate. lia. }
    destruct (IH r ((((buf ++ btxID) ++ take (Z.to_nat l1) vb1)) ++ po) vb1 Hpl
                ltac:(unfold len in *; lia) eq_refl Hr) as (enc & Hrest & Hcnt & Hread).
    set (cnt := take (Z.to_nat l1) vb1) in *.
    assert (Hc : len cnt = l1) by (apply len_take; unfold vlq.MaxLen64, len in *; lia).
    exists (btxID ++ cnt ++ po ++ enc). split; [|split].
    + cbn [packBlockTxs]. rewrite Eo, Et. cbn [mbind Res_bind]. rewrite Hp1. cbn [mbind Res_bind].
      rewrite slice_to_take by (unfold vlq.MaxLen64, len in *; lia). cbn [mbind Res_bind]. fold cnt.
      unfold packOutpoints. rewrite Hpack. cbn [mbind Res_bind]. rewrite app_nil_l.
      rewrite Hrest, <- !app_assoc. reflexivity.
    + rewrite !length_app. cbn [length]. unfold len in Hc. lia.
    + intros fuel pre acc Hf. destruct fuel as [|fuel]; [lia|]. cbn [getBlockTxs_loop].
      destruct (Z.ltb_spec (len pre) (len (pre ++ btxID ++ cnt ++ po ++ enc))) as [_|Hge].
      2:{ rewrite !len_app in Hge. pose proof (len_nonneg po). pose proof (len_nonneg enc). lia. }
      destruct (Z.ltb_spec (len (pre ++ btxID ++ cnt ++ po ++ enc) - len pre) bchain.PackedTxidLen)
        as [Hshort|_].
      { rewrite !len_app in Hshort. pose proof (len_nonneg po). pose proof (len_nonneg enc). lia. }
      rewrite slice_from_app. cbn [mbind Res_bind].
      replace (Z.to_nat bchain.PackedTxidLen) with (length btxID) by (unfold len in Hlen; lia).
      rewrite take_app_length.
      replace (len pre + bchain.PackedTxidLen) with (len (pre ++ btxID)) by (rewrite len_app; lia).
      rewrite (app_assoc pre), slice_from_app. cbn [mbind Res_bind].
      unfold unpackNOutpoints. unfold cnt at 1. rewrite Hu1. fold cnt.
      replace (Z.to_nat (len o)) with (length o) by (unfold len; lia).
      rewrite <- Hc, Hn.
      specialize (Hread fuel (((pre ++ btxID) ++ cnt) ++ po) (acc ++ [blockTxs.mk btxID o])
                    ltac:(cbn [length] in Hf; lia)).
      rewrite <- !app_assoc in Hread. rewrite <- !app_assoc.
      replace (len (pre ++ btxID) + (len cnt + len po)) with (len (pre ++ btxID ++ cnt ++ po))
        by (rewrite !len_app; lia).
      exact Hread.
Qed.

End BlockTxsRoundTrip.

(** The block-tx record of a block is read back as it was stored: when
    the txids of the block pack to the length of a packed txid,
    [storeAndCleanupBlockTxs] puts under the height one value, and
    [getBlockTxs] decodes that value to the transactions of the block
    with the outpoints of their inputs, in the order of the block. *)
Theorem getBlockTxs_reads_stored_block {chainParser : bchain.BlockChainParser}
    (block : bchain.Block) (bts : list blockTxs.t) :
  0 <= bchain.PackedTxidLen ->
  blockTxsOf (bchain.Block_Txs block) (make_bytes bchain.PackedTxidLen) = Ok bts ->
  Forall (blockTxs_ok bchain.PackedTxidLen) bts ->
  exists buf,
    (forall d wb wb', snd (storeAndCleanupBlockTxs d wb block) = Ok wb' ->
       wb' = wb_PutCF wb cfBlockTxs (packUint (bchain.Block_Height block)) buf) /\
    (forall d height, GetCF d cfBlockTxs (packUint height) = Ok buf ->
       getBlockTxs d height = Ok bts).
Proof.
  intros Hpl Hbts Hok.
  destruct (packBlockTxs_spec (make_bytes bchain.PackedTxidLen) (bchain.Block_Txs block) bts []
              (make_bytes vlq.MaxLen64) Hpl) as (enc & Hpack & Hcnt & Hread); [|exact Hbts|exact Hok|].
  { unfold make_bytes, len. rewrite length_replicate. lia. }
  rewrite app_nil_l in Hpack. exists enc. split.
  - intros d wb wb' H. unfold storeAndCleanupBlockTxs in H. rewrite Hpack in H.
    destruct (wrap32 bchain.KeepBlockAddresses <? bchain.Block_Height block).
    + destruct (cleanupBlockTxs_loop _ _ _ _) as [d' [u| | |]]; cbn [snd] in H; try discriminate.
      injection H as <-. reflexivity.
    + cbn [snd] in H. injection H as <-. reflexivity.
  - intros d height Hget. unfold getBlockTxs. rewrite Hget. cbn [mbind Res_bind].
    apply (Hread (S (length enc)) [] []). lia.
Qed.

Lemma getBlockTxs_reads_stored_block_witness :
  exists buf,
    (forall d wb wb',
       snd (storeAndCleanupBlockTxs (chainParser := exampleParser true 2) d wb block1) = Ok wb' ->
       wb' = wb_PutCF wb cfBlockTxs (packUint (bchain.Block_Height block1)) buf) /\
    (forall d height, GetCF d cfBlockTxs (packUint height) = Ok buf ->
       getBlockTxs (chainParser := exampleParser true 2) d height
       = Ok [blockTxs.mk [0; 2] [outpoint.mk [0; 1] 0]]).
Proof.
  apply (getBlockTxs_reads_stored_block (chainParser := exampleParser true 2) block1).
  - vm_compute. discriminate.
  - reflexivity.
  - repeat constructor.
Defined.

(** The record of [block1] in the store that holds the blocks 0 and 1. *)
Example getBlockTxs_example :
  getBlockTxs (chainParser := exampleParser true 2) (db storeAfterBlock1) 1
  = Ok [blockTxs.mk [0; 2] [outpoint.mk [0; 1] 0]].
Proof. vm_compute. reflexivity. Qed.
